(** * Benchmark orchestration engine of the Ollama monitor

    A shallow embedding of the benchmark core of the repository:

    - [utils/performance_tester.py]: [TestPrompt], [TestResult],
      [PerformanceReport] (with [__post_init__]), and of
      [PerformanceTester] the catalogue ([_init_default_prompts],
      [_load_prompts_from_file], [add_custom_prompt], [get_prompts]),
      [select_balanced_prompts], [test_model], [custom_round] and
      [test_case];
    - [ui/tabs/performance_tab.py]: [PerformanceTestWorker] with
      [cancel_test], [pause_test], [resume_test], [run_single_test] and
      [run]; of the tab, the dialog for a custom prompt, [_add_prompt],
      [_get_prompt_name_by_content] and the status line of
      [_handle_test_completed];
    - [utils/ollama_client.py]: [check_parallel_support],
      [get_current_config] and [configure_parallel];
    - [utils/concurrency_settings.py] and the dialog that saves and
      refreshes these settings.

    Conventions of the embedding.

    - Python [str] is a Rocq [string] holding the UTF-8 bytes; [py_chars]
      gives the code-point view that [len], slicing and tuple unpacking use.
    - Python [float] is idealised as an exact rational ([Q]); [int] is [Z]
      (or [nat] for loop counters and lengths).
    - An exception is represented by its message [str(e)].
    - [dict] with string keys used as a record of parameters is a
      [gmap string PyVal]; the prompt catalogue, whose iteration order
      matters, is an association list in insertion order.
    - [random] is an explicit source of naturals that is threaded through.
    - What [int()] and [str()] leave to the interpreter (the digits
      outside ASCII, the limit on the number of digits) is a parameter,
      [PyRuntime].
    - The GUI thread that calls [cancel_test] / [pause_test] /
      [resume_test] while [run] executes is a schedule: the commands that
      arrived before each read of [is_cancelled] or [is_paused].
    - The round loop is given as a whole ([rounds]) and from one read
      of a flag to the next ([step], [before_read]); the two end in the
      same state. *)

From Stdlib Require Import ZArith QArith Qminmax Lia Permutation Ascii String.
From stdpp Require Import base option list strings gmap pretty.

Open Scope string_scope.
Open Scope list_scope.

(* ================================================================== *)
(** * Part I: definitions                                               *)
(* ================================================================== *)

(** ** Python strings *)

(** A byte [10xxxxxx] continues a UTF-8 encoded code point. *)
Definition is_continuation (a : ascii) : bool :=
  let n := nat_of_ascii a in (128 <=? n)%nat && (n <? 192)%nat.

Definition starts_with_continuation (s : string) : bool :=
  match s with
  | String a _ => is_continuation a
  | EmptyString => false
  end.

(** The code points of a string, each as its own byte string. *)
Fixpoint py_chars (s : string) : list string :=
  match s with
  | EmptyString => []
  | String a s' =>
      match py_chars s' with
      | c :: cs =>
          if starts_with_continuation c then String a c :: cs
          else String a EmptyString :: c :: cs
      | [] => [String a EmptyString]
      end
  end.

Definition py_join (cs : list string) : string :=
  foldr String.append EmptyString cs.

(** [len(s)] *)
Definition py_len (s : string) : nat := length (py_chars s).

(** [s[:n]] *)
Definition py_prefix (n : nat) (s : string) : string :=
  py_join (take n (py_chars s)).

(** [s[:50] + "..." if len(s) > 50 else s] *)
Definition truncate50 (s : string) : string :=
  if (50 <? py_len s)%nat then py_prefix 50 s +:+ "..." else s.

(** Truthiness of an optional string ([None] and [""] are falsy). *)
Definition truthy (e : option string) : bool :=
  match e with
  | Some s => negb (String.eqb s "")
  | None => false
  end.

(** ** Rational comparisons as Python writes them *)

Definition Qgt_bool (a b : Q) : bool := negb (Qle_bool a b).
Definition Qge_bool (a b : Q) : bool := Qle_bool b a.

(** [max(0, x)]: the first argument is kept unless the second is greater. *)
Definition py_max0 (x : Q) : Q := if Qgt_bool x 0 then x else 0%Q.

(** [sum(xs)] *)
Definition Qsum (xs : list Q) : Q := foldl Qplus 0%Q xs.

(** [sum(xs) / len(xs)] *)
Definition Qmean (xs : list Q) : Q := (Qsum xs / inject_Z (Z.of_nat (length xs)))%Q.

(** ** Data classes of [performance_tester.py] *)

Record TestPrompt := mkTestPrompt {
  category : string;
  name : string;
  content : string
}.

Record TestResult := mkTestResult {
  prompt : string;
  prompt_content : string;
  prompt_type : string;
  response_text : string;
  first_token_latency : Q;
  tokens_per_second : Q;
  total_tokens : Z;
  total_time : Q;
  timestamp : string;
  error : option string
}.

(** Values stored in [test_params]. *)
Inductive PyVal :=
| VBool (b : bool)
| VInt (z : Z)
| VNum (q : Q)
| VStr (s : string).

Record PerformanceReport := mkPerformanceReport {
  model_name : string;
  system_info : string;
  test_params : gmap string PyVal;
  results : list TestResult;
  avg_first_token_latency : Q;
  avg_tokens_per_second : Q;
  performance_rating : string
}.

Definition set_results (rs : list TestResult) (rep : PerformanceReport) :=
  mkPerformanceReport (model_name rep) (system_info rep) (test_params rep) rs
    (avg_first_token_latency rep) (avg_tokens_per_second rep)
    (performance_rating rep).

Definition set_test_params (tp : gmap string PyVal) (rep : PerformanceReport) :=
  mkPerformanceReport (model_name rep) (system_info rep) tp (results rep)
    (avg_first_token_latency rep) (avg_tokens_per_second rep)
    (performance_rating rep).

Definition set_averages (lat tps : Q) (rating : string) (rep : PerformanceReport) :=
  mkPerformanceReport (model_name rep) (system_info rep) (test_params rep)
    (results rep) lat tps rating.

(** The four rating labels and the default. *)
Definition rating_excellent : string := "极佳".
Definition rating_good : string := "优秀".
Definition rating_fair : string := "良好".
Definition rating_poor : string := "较差".
Definition rating_unrated : string := "未评级".

(** [PerformanceReport.__post_init__]: inclusive thresholds. *)
Definition post_init_rating (avg : Q) : string :=
  if Qge_bool avg 60 then rating_excellent
  else if Qge_bool avg 30 then rating_good
  else if Qge_bool avg 10 then rating_fair
  else rating_poor.

Definition post_init (rep : PerformanceReport) : PerformanceReport :=
  match results rep with
  | [] => rep
  | _ :: _ =>
      if existsb (fun r => truthy (error r)) (results rep) then rep
      else
        let lat := Qmean (map first_token_latency (results rep)) in
        let tps := Qmean (map tokens_per_second (results rep)) in
        set_averages lat tps (post_init_rating tps) rep
  end.

(** The dataclass constructor: fields, defaults, then [__post_init__]. *)
Definition new_PerformanceReport (model : string) (sysinfo : string)
    (tp : gmap string PyVal) (rs : list TestResult) : PerformanceReport :=
  post_init (mkPerformanceReport model sysinfo tp rs 0 0 rating_unrated).

(** ** [PerformanceTester.test_case] *)

(** One JSON object yielded by [client.generate_completion]. *)
Record Chunk := mkChunk {
  ch_response : option string;
  ch_eval_count : option Z;
  ch_eval_duration : option Z;
  ch_error : option string
}.

(** What the client does during one request: the chunks it yields, each
    with the state of the timeout event when [test_case] checks it, and
    how the generator ends ([None]: exhausted, [Some msg]: it raises). *)
Record ClientRun := mkClientRun {
  cr_items : list (bool * Chunk);
  cr_end : option string
}.

(** The readings of [time.time()] and the timestamp of the result. *)
Record Clock := mkClock {
  t_start : Q;
  t_sent : Q;
  t_first : Q;
  t_end : Q;
  t_stamp : string
}.

(** The local variables of the streaming loop. *)
Record Acc := mkAcc {
  first_token_time : option Q;
  acc_tokens : Z;
  acc_text : string;
  token_count_from_api : Z;
  eval_duration_from_api : Z
}.

Definition acc0 : Acc := mkAcc None 0 "" 0 0.

(** [if first_token_time:] *)
Definition time_truthy (t : option Q) : bool :=
  match t with
  | Some q => negb (Qeq_bool q 0)
  | None => false
  end.

(** The body of the [for i, chunk in enumerate(...)] loop after the
    timeout check. *)
Definition step_chunk (ck : Clock) (i : nat) (c : Chunk) (a : Acc) : Acc :=
  let ft :=
    if (i =? 0)%nat && negb (bool_decide (is_Some (first_token_time a))) then
      match ch_response c with
      | Some _ => Some (t_first ck)
      | None => first_token_time a
      end
    else first_token_time a in
  let '(text, toks) :=
    match ch_response c with
    | Some r => (acc_text a +:+ r, (acc_tokens a + 1)%Z)
    | None => (acc_text a, acc_tokens a)
    end in
  let cnt := default (token_count_from_api a) (ch_eval_count c) in
  let dur := default (eval_duration_from_api a) (ch_eval_duration c) in
  mkAcc ft toks text cnt dur.

Definition timeout_message (timeout : Z) : string :=
  "测试执行超时（超过" +:+ pretty timeout +:+ "秒）".

(** The streaming loop: [inl msg] when an exception leaves it. *)
Fixpoint consume (timeout : Z) (ck : Clock) (i : nat)
    (items : list (bool * Chunk)) (a : Acc) : string + Acc :=
  match items with
  | [] => inr a
  | (fired, c) :: rest =>
      if fired then inl (timeout_message timeout)
      else consume timeout ck (S i) rest (step_chunk ck i c a)
  end.

(** The whole [try] ... [finally] around the loop. *)
Definition stream (timeout : Z) (cr : ClientRun) (ck : Clock) : string + Acc :=
  match consume timeout ck 0 (cr_items cr) acc0 with
  | inl msg => inl msg
  | inr a =>
      match cr_end cr with
      | Some msg => inl msg
      | None => inr a
      end
  end.

(** [total_tokens] after the API count is preferred. *)
Definition final_tokens (a : Acc) : Z :=
  if (0 <? token_count_from_api a)%Z then token_count_from_api a
  else acc_tokens a.

Definition generation_time (ck : Clock) (a : Acc) : Q :=
  if (0 <? eval_duration_from_api a)%Z then
    (inject_Z (eval_duration_from_api a) / 1000000000)%Q
  else if time_truthy (first_token_time a) then
    (t_end ck - default 0 (first_token_time a))%Q
  else 0%Q.

Definition throughput (tokens : Z) (gen : Q) : Q :=
  if (1 <? tokens)%Z && Qgt_bool gen 0 then (inject_Z (tokens - 1) / gen)%Q
  else if (tokens =? 1)%Z && Qgt_bool gen 0 then (1 / gen)%Q
  else 0%Q.

Definition latency_ms (ck : Clock) (a : Acc) : Q :=
  if time_truthy (first_token_time a) then
    ((default 0 (first_token_time a) - t_sent ck) * 1000)%Q
  else 0%Q.

Definition test_case (prompt_text ptype : string) (timeout : Z)
    (cr : ClientRun) (ck : Clock) : TestResult :=
  match stream timeout cr ck with
  | inr a =>
      mkTestResult (truncate50 prompt_text) prompt_text ptype (acc_text a)
        (latency_ms ck a)
        (throughput (final_tokens a) (generation_time ck a))
        (final_tokens a)
        ((t_end ck - t_start ck) * 1000)%Q
        (t_stamp ck) None
  | inl msg =>
      mkTestResult (truncate50 prompt_text) prompt_text ptype
        ("测试错误: " +:+ msg) 0 0 0 0 (t_stamp ck) (Some msg)
  end.

(** ** The random source *)

(** The outcomes of the calls to [random], in the order they are made;
    an exhausted source keeps answering [0]. *)
Definition Rng := list nat.

Definition draw (g : Rng) : nat * Rng :=
  match g with
  | [] => (0, [])
  | x :: g' => (x, g')
  end.

(** [random.choice(l)] for a list whose head is [d]. *)
Definition choice {A} (d : A) (l : list A) (g : Rng) : A * Rng :=
  let '(r, g1) := draw g in (nth (r mod length l) l d, g1).

(** [random.sample(l, k)] for [k <= len(l)]: [k] elements at distinct
    positions, in the order drawn. *)
Fixpoint sample {A} (l : list A) (k : nat) (g : Rng) : list A * Rng :=
  match k with
  | 0 => ([], g)
  | S k' =>
      match l with
      | [] => ([], g)
      | d :: _ =>
          let '(r, g1) := draw g in
          let i := r mod length l in
          let '(rest, g2) := sample (delete i l) k' g1 in
          (nth i l d :: rest, g2)
      end
  end.

(** [random.shuffle(l)] *)
Definition shuffle {A} (l : list A) (g : Rng) : list A * Rng :=
  sample l (length l) g.

(** ** [PerformanceTester.select_balanced_prompts] *)

#[global] Instance TestPrompt_eq_dec : EqDecision TestPrompt.
Proof. solve_decision. Defined.

(** [prompts_by_category]: a dict in insertion order. *)
Definition Catalog := list (string * list TestPrompt).

(** [key in d] / [d[key]] *)
Fixpoint cat_lookup (c : Catalog) (k : string) : option (list TestPrompt) :=
  match c with
  | [] => None
  | (k', ps) :: c' => if String.eqb k' k then Some ps else cat_lookup c' k
  end.

(** [d.get(key, [])] *)
Definition cat_get (c : Catalog) (k : string) : list TestPrompt :=
  default [] (cat_lookup c k).

Definition nonempty {A} (l : list A) : bool :=
  match l with
  | [] => false
  | _ :: _ => true
  end.

Definition custom_key : string := "自定义".

(** [[cat for cat in d.keys() if d[cat]]] *)
Definition available_categories (c : Catalog) : list string :=
  List.filter (fun k => nonempty (cat_get c k)) (map fst c).

(** [l.remove(x)] guarded by [x in l]. *)
Fixpoint remove_first (x : string) (l : list string) : list string :=
  match l with
  | [] => []
  | y :: l' => if String.eqb y x then l' else y :: remove_first x l'
  end.

(** [min(len(custom_prompts), max(1, num_prompts // 5))] *)
Definition custom_count (customs : list TestPrompt) (n : nat) : nat :=
  Nat.min (length customs) (Nat.max 1 (n / 5)).

(** The custom prompts picked first and the categories left for the
    balanced part. *)
Definition custom_phase (c : Catalog) (n : nat) (g : Rng)
    : list TestPrompt * list string * Rng :=
  let av := available_categories c in
  match cat_lookup c custom_key with
  | Some ((_ :: _) as customs) =>
      let '(cs, g1) := sample customs (custom_count customs n) g in
      (cs, remove_first custom_key av, g1)
  | _ => ([], av, g)
  end.

(** First pass: [initial_per_category] prompts of every category. *)
Fixpoint first_pass (c : Catalog) (per : nat) (cats : list string)
    (sel : list TestPrompt) (g : Rng) : list TestPrompt * Rng :=
  match cats with
  | [] => (sel, g)
  | k :: cats' =>
      match cat_lookup c k with
      | Some ((_ :: _) as cps) =>
          let count := Nat.min per (length cps) in
          if (0 <? count)%nat then
            let '(s, g1) := sample cps count g in
            first_pass c per cats' (sel ++ s) g1
          else first_pass c per cats' sel g
      | _ => first_pass c per cats' sel g
      end
  end.

(** [selected_by_category] as built before the second pass. *)
Definition record_selected (m : gmap string (list TestPrompt)) (p : TestPrompt)
    : gmap string (list TestPrompt) :=
  match m !! category p with
  | Some l => <[category p := l ++ [p]]> m
  | None => m
  end.

Definition selected_by_category0 (cats : list string) (sel : list TestPrompt)
    : gmap string (list TestPrompt) :=
  foldl record_selected (list_to_map (map (fun k => (k, [])) cats)) sel.

(** [[p for p in category_prompts if p not in selected_by_category.get(category, [])]] *)
Definition unused_prompts (c : Catalog) (m : gmap string (list TestPrompt))
    (k : string) : list TestPrompt :=
  List.filter (fun p => negb (bool_decide (p ∈ default [] (m !! k)))) (cat_get c k).

(** Second pass, [while remaining > 0 and category_cycle]: one pick per
    category in turn.  Every iteration either picks a prompt, and then
    [remaining] decreases, or drops the category, and then the cycle
    shrinks; the recursion follows this order. *)
Fixpoint second_pass (c : Catalog) (remaining : nat) {struct remaining}
    : list string -> list TestPrompt -> gmap string (list TestPrompt) -> Rng ->
      nat * list TestPrompt * Rng :=
  match remaining with
  | 0 => fun _ sel _ g => (0, sel, g)
  | S rem' =>
      fix turn (cycle : list string) (sel : list TestPrompt)
          (m : gmap string (list TestPrompt)) (g : Rng) {struct cycle} :=
        match cycle with
        | [] => (S rem', sel, g)
        | k :: cycle' =>
            match unused_prompts c m k with
            | [] => turn cycle' sel m g
            | (d :: more) as unused =>
                let '(p, g1) := choice d unused g in
                let m1 := <[k := default [] (m !! k) ++ [p]]> m in
                let cycle1 :=
                  if nonempty more && (0 <? rem')%nat then cycle' ++ [k]
                  else cycle' in
                second_pass c rem' cycle1 (sel ++ [p]) m1 g1
            end
        end
  end.

(** [all_available] of the last loop. *)
Definition all_available (c : Catalog) (cats : list string) : list TestPrompt :=
  concat (map (cat_get c) cats).

(** Last loop, [while remaining > 0]: picks with replacement. *)
Fixpoint refill (pool : list TestPrompt) (remaining : nat)
    (sel : list TestPrompt) (g : Rng) : list TestPrompt * Rng :=
  match remaining with
  | 0 => (sel, g)
  | S rem' =>
      match pool with
      | [] => (sel, g)
      | d :: _ =>
          let '(p, g1) := choice d pool g in
          refill pool rem' (sel ++ [p]) g1
      end
  end.

(** The list [selected_prompts] just before the final shuffle. *)
Definition balanced_selection (c : Catalog) (n : nat) (g : Rng)
    : list TestPrompt * Rng :=
  let '(sel0, cats, g0) := custom_phase c n g in
  let remaining := n - length sel0 in
  if (0 <? remaining)%nat && nonempty cats then
    let per := remaining / length cats in
    let '(sel1, g1) := first_pass c per cats sel0 g0 in
    let remaining1 := n - length sel1 in
    if (0 <? remaining1)%nat then
      let '(cycle, g2) := shuffle cats g1 in
      let m := selected_by_category0 cats sel1 in
      let '(remaining2, sel2, g3) := second_pass c remaining1 cycle sel1 m g2 in
      refill (all_available c cats) remaining2 sel2 g3
    else (sel1, g1)
  else (sel0, g0).

Definition select_balanced_prompts (c : Catalog) (n : nat) (g : Rng)
    : list TestPrompt * Rng :=
  match available_categories c with
  | [] => ([], g)
  | _ :: _ =>
      let '(sel, g1) := balanced_selection c n g in
      let '(mixed, g2) := shuffle sel g1 in
      (take n mixed, g2)
  end.

(** The prompts that the with-replacement fallback draws from: those of
    the non-empty categories other than the custom one. *)
Definition fallback_pool (c : Catalog) : list TestPrompt :=
  all_available c (remove_first custom_key (available_categories c)).

(** ** How the catalogue of a tester is built *)

(** [if k not in d: d[k] = []] *)
Fixpoint cat_touch (c : Catalog) (k : string) : Catalog :=
  match c with
  | [] => [(k, [])]
  | (k', ps) :: c' =>
      if String.eqb k' k then (k', ps) :: c' else (k', ps) :: cat_touch c' k
  end.

(** [d[k].append(p)] for a key that is present. *)
Fixpoint cat_push (c : Catalog) (k : string) (p : TestPrompt) : Catalog :=
  match c with
  | [] => []
  | (k', ps) :: c' =>
      if String.eqb k' k then (k', ps ++ [p]) :: c' else (k', ps) :: cat_push c' k p
  end.

(** The two steps together, as [_init_default_prompts] and
    [add_custom_prompt] write them. *)
Definition cat_append (c : Catalog) (k : string) (p : TestPrompt) : Catalog :=
  cat_push (cat_touch c k) k p.

(** [_init_default_prompts] over the list [DEFAULT_PROMPTS]. *)
Definition init_default_prompts (defaults : list TestPrompt) (c : Catalog) : Catalog :=
  foldl (fun c p => cat_append c (category p) p) c defaults.

(** [add_custom_prompt(name, content, category)].  The prompt is built
    positionally, [TestPrompt(name, content, category)], while the fields
    of the dataclass are [category], [name], [content] in this order. *)
Definition add_custom_prompt (nm cont cat : string) (c : Catalog) : Catalog :=
  cat_append c cat (mkTestPrompt nm cont cat).

(** [_load_prompts_from_file], over the lines that are neither blank nor
    comments: a line in brackets opens a category, a line [name: content]
    adds a prompt to the open one, again with the fields shifted.  A
    prompt line whose category is not in the catalogue (only the initial
    one can be missing) raises [KeyError]; the handler around the whole
    loop prints it, and the rest of the file is not read. *)
Inductive FileLine :=
  | category_line (k : string)
  | prompt_line (nm cont : string).

Fixpoint load_lines (ls : list FileLine) (current_category : string) (c : Catalog)
    : Catalog :=
  match ls with
  | [] => c
  | category_line k :: ls' => load_lines ls' k (cat_touch c k)
  | prompt_line nm cont :: ls' =>
      match cat_lookup c current_category with
      | None => c
      | Some _ =>
          load_lines ls' current_category
            (cat_push c current_category (mkTestPrompt nm cont current_category))
      end
  end.

Definition load_prompts_from_file (ls : list FileLine) (c : Catalog) : Catalog :=
  load_lines ls "未分类" c.

(** [PerformanceTester.__init__]. *)
Definition new_catalog (defaults : list TestPrompt) (file : option (list FileLine))
    : Catalog :=
  let c := init_default_prompts defaults [] in
  match file with
  | None => c
  | Some ls => load_prompts_from_file ls c
  end.

(** Some category other than the custom one holds a prompt. *)
Definition has_fallback (c : Catalog) : Prop :=
  exists k p ps, cat_lookup c k = Some (p :: ps) /\ k <> custom_key.

(** ** [PerformanceTestWorker]: control flags and the GUI thread *)

Record Flags := mkFlags {
  is_cancelled : bool;
  is_paused : bool
}.

(** The three control methods, called from the GUI thread. *)
Inductive Control :=
| cancel_test
| pause_test
| resume_test.

Definition control (f : Flags) (c : Control) : Flags :=
  match c with
  | cancel_test => mkFlags true (is_paused f)
  | pause_test => mkFlags (is_cancelled f) true
  | resume_test => mkFlags (is_cancelled f) false
  end.

(** The calls that arrive between two reads of a flag by [run]. *)
Definition arrive (cs : list Control) (f : Flags) : Flags := foldl control f cs.

(** The schedule of the GUI thread: the calls that arrive before the
    first read, before the second read, and so on.  When the list is used
    up no further call is ever made. *)
Definition Schedule := list (list Control).

(** ** What [run] emits *)

Inductive Event :=
| progress_updated (completed total : nat)
| test_round_completed (r : TestResult) (label : string)
| test_completed (rep : PerformanceReport)
| error_occurred (msg : string)
| task_submitted (round slot client : nat).

(** ** The collaborators of one run *)

(** How [future.result(timeout=task_timeout)] ends. *)
Inductive Wait :=
| resolved
| wait_timeout
| wait_raised (msg : string).

(** One request: what the client streams, the clock, and how waiting for
    the future ends. *)
Record TaskIO := mkTaskIO {
  io_client : ClientRun;
  io_clock : Clock;
  io_wait : Wait
}.

Record Env := mkEnv {
  (** [system_monitor.get_system_info()]: raises or returns *)
  env_system_info : string + string;
  (** [datetime.now()] formatted, for [test_date] *)
  env_date : string;
  (** the first [client.get_current_config()]: [Some msg] when it raises *)
  env_original_config : option string;
  (** the answers of the service controller ([is_running], [stop_service],
      [start_service]) in call order; [false] when used up *)
  env_service : list bool;
  (** [client.get_version()] *)
  env_version : string;
  (** [client.check_parallel_support(version)] *)
  env_check_parallel_support : string -> bool;
  (** [client.get_current_config()['num_parallel']] at the check *)
  env_num_parallel : option Z;
  (** [client.configure_parallel(n, 1, False)] *)
  env_configure_parallel : nat -> bool * string;
  (** [tester.test_model(model)], first component *)
  env_test_model : bool;
  (** the catalogue of the worker's tester and the random source *)
  env_catalog : Catalog;
  env_rng : Rng;
  (** the warm-up request and the request of every (round, slot) *)
  env_warmup : TaskIO;
  env_task : nat -> nat -> TaskIO
}.

(** ** [run_single_test] *)

(** A Python call either raises ([inl], the message) or returns;
    [test_case] catches every exception itself and always returns. *)
Definition call_test_case (prompt_text ptype : string) (timeout : Z)
    (io : TaskIO) : string + TestResult :=
  inr (test_case prompt_text ptype timeout (io_client io) (io_clock io)).

Definition run_single_test (prompt_text ptype : string) (timeout : option Z)
    (io : TaskIO) : TestResult :=
  let timeout := default 600%Z timeout in
  match call_test_case prompt_text ptype timeout io with
  | inr r => r
  | inl e =>
      mkTestResult (py_prefix 50 prompt_text +:+ "...") prompt_text ptype
        ("错误: " +:+ e) 0 0 0 0 (t_stamp (io_clock io)) (Some e)
  end.

(** ** [config_restart_ollama_service] *)

Definition ask (o : list bool) : bool * list bool :=
  match o with
  | [] => (false, [])
  | b :: o' => (b, o')
  end.

(** [while is_running() and attempt_count < max_attempts] *)
Fixpoint wait_stopped (attempts_left : nat) (o : list bool) : list bool :=
  let '(running, o1) := ask o in
  match attempts_left with
  | 0 => o1
  | S n => if running then wait_stopped n o1 else o1
  end.

(** [while not is_running() and attempt_count < max_attempts] with the
    [break] on a successful start. *)
Fixpoint start_loop (attempts_left : nat) (o : list bool) : bool * list bool :=
  let '(running, o1) := ask o in
  match attempts_left with
  | 0 => (false, o1)
  | S n =>
      if running then (false, o1)
      else
        let '(started, o2) := ask o1 in
        if started then (true, o2) else start_loop n o2
  end.

Definition config_restart_ollama_service (env : Env) (num_users : option nat)
    (o : list bool) : bool * string * list bool :=
  let '(success1, message) :=
    match num_users with
    | None => (true, "")
    | Some n => env_configure_parallel env n
    end in
  let '(running, o1) := ask o in
  let o2 := if running then snd (ask o1) else o1 in
  let o3 := wait_stopped 3 o2 in
  let '(success2, o4) := start_loop 3 o3 in
  let message := if success2 then "Ollama服务已成功启动" else message in
  (success1 && success2, message, o4).

(** ** The state of [run] *)

Record Loop := mkLoop {
  flags : Flags;
  sched : Schedule;
  report : PerformanceReport;
  trace : list Event;
  completed : nat
}.

(** How a piece of [run] ends: normally, or with an exception that
    leaves the [try] block. *)
Inductive Outcome :=
| finished (st : Loop)
| raised (msg : string) (tr : list Event).

(** A read of [self.is_cancelled] or [self.is_paused]: the calls that
    arrived since the last read have taken effect. *)
Definition read (st : Loop) : Loop :=
  mkLoop (arrive (default [] (head (sched st))) (flags st)) (tail (sched st))
    (report st) (trace st) (completed st).

Definition emit (e : Event) (st : Loop) : Loop :=
  mkLoop (flags st) (sched st) (report st) (trace st ++ [e]) (completed st).

(** [report.results.append(r)] and the signal. *)
Definition append_result (r : TestResult) (label : string) (st : Loop) : Loop :=
  mkLoop (flags st) (sched st)
    (set_results (results (report st) ++ [r]) (report st))
    (trace st ++ [test_round_completed r label]) (completed st).

(** The same followed by [completed += 1]. *)
Definition record_result (r : TestResult) (label : string) (st : Loop) : Loop :=
  let st1 := append_result r label st in
  mkLoop (flags st1) (sched st1) (report st1) (trace st1) (S (completed st1)).

(** ** The pause loop *)

(** The body of [while self.is_paused and not self.is_cancelled]. *)
Definition mark_paused (tp : gmap string PyVal) : gmap string PyVal :=
  <["completion_status" := VStr "暂停完成"]> (<["paused" := VBool true]> tp).

(** The loop reads [is_paused] and, when it is set, [is_cancelled]; with
    both reads passed it runs the body and starts over.  Once the
    schedule is used up the flags no longer change: a worker that is
    still paused and not cancelled waits forever ([None]). *)
Fixpoint pause_wait (s : Schedule) (f : Flags) (tp : gmap string PyVal)
    : option (Flags * gmap string PyVal * Schedule) :=
  match s with
  | [] =>
      if is_paused f && negb (is_cancelled f) then None
      else Some (f, tp, [])
  | cs :: s1 =>
      let f1 := arrive cs f in
      if is_paused f1 then
        match s1 with
        | [] => if is_cancelled f1 then Some (f1, tp, []) else None
        | cs2 :: s2 =>
            let f2 := arrive cs2 f1 in
            if is_cancelled f2 then Some (f2, tp, s2)
            else pause_wait s2 f2 (mark_paused tp)
        end
      else Some (f1, tp, s1)
  end.

(** ** One round *)

Definition task_timeout : Z := 180.

(** [current_display_round] / [error_round_num] as text. *)
Definition round_label (users round slot : nat) : string :=
  if (1 <? users)%nat then "(" +:+ pretty round +:+ "," +:+ pretty slot +:+ ")"
  else pretty round.

(** The result recorded for one future, by the way the wait ends: the
    task's own result, or the error result of the [except TimeoutError]
    or [except Exception] handler.  (The time-out of a future is the
    built-in [TimeoutError] from Python 3.11 on; before, the second
    handler takes it.  Either way one result is recorded.) *)
Definition future_result (p : TestPrompt) (io : TaskIO) : TestResult :=
  match io_wait io with
  | resolved => run_single_test (content p) (category p) (Some task_timeout) io
  | wait_timeout =>
      let msg := "任务执行超时（超过" +:+ pretty task_timeout +:+ "秒）" in
      mkTestResult (name p) (content p) (category p) msg 0 0 0 0
        (t_stamp (io_clock io)) (Some msg)
  | wait_raised e =>
      mkTestResult (name p) (content p) (category p)
        ("执行测试时出错: " +:+ e) 0 0 0 0 (t_stamp (io_clock io)) (Some e)
  end.

(** Step one: [executor.submit] for every prompt of the round. *)
Fixpoint submit_all (round slot nclients : nat) (ps : list TestPrompt)
    (st : Loop) : Loop :=
  match ps with
  | [] => st
  | _ :: ps' =>
      submit_all round (S slot) nclients ps'
        (emit (task_submitted round slot ((slot - 1) mod nclients)) st)
  end.

(** Step two: [for future in futures], with the [break] on cancel. *)
Fixpoint collect (env : Env) (users round slot : nat) (ps : list TestPrompt)
    (st : Loop) : Loop :=
  match ps with
  | [] => st
  | p :: ps' =>
      let st1 := read st in
      if is_cancelled (flags st1) then st1
      else
        collect env users round (S slot) ps'
          (record_result (future_result p (env_task env round slot))
             (round_label users round slot) st1)
  end.

(** [prompts[start_idx:end_idx]] *)
Definition current_prompts (users round_num : nat) (prompts : list TestPrompt)
    : list TestPrompt :=
  take users (drop (round_num * users) prompts).

(** The body of the round loop after the pause loop.
    [ThreadPoolExecutor(max_workers=0)] raises [ValueError]. *)
Definition run_round (env : Env) (users nclients round_num : nat)
    (prompts : list TestPrompt) (st : Loop) : Outcome :=
  let ps := current_prompts users round_num prompts in
  let current_round := S round_num in
  if (users =? 0)%nat then
    raised "max_workers must be greater than 0" (trace st)
  else
    finished (collect env users current_round 1 ps
                (submit_all current_round 1 nclients ps st)).

Definition with_control (f : Flags) (tp : gmap string PyVal) (s : Schedule)
    (st : Loop) : Loop :=
  mkLoop f s (set_test_params tp (report st)) (trace st) (completed st).

(** [for round_num in range(self.num_tests)], from [round_num] on with
    [todo] iterations left.  [None]: the pause loop never ends. *)
Fixpoint rounds (env : Env) (users nclients : nat) (prompts : list TestPrompt)
    (todo round_num : nat) (st : Loop) : option Outcome :=
  match todo with
  | 0 => Some (finished st)
  | S todo' =>
      let st1 := read st in
      if is_cancelled (flags st1) then Some (finished st1)
      else
        match pause_wait (sched st1) (flags st1) (test_params (report st1)) with
        | None => None
        | Some (f, tp, s) =>
            match run_round env users nclients round_num prompts
                    (with_control f tp s st1) with
            | raised e tr => Some (raised e tr)
            | finished st2 =>
                rounds env users nclients prompts todo' (S round_num) st2
            end
        end
  end.

(** ** Final aggregation in [run] *)

(** The rating of the worker: strict thresholds. *)
Definition worker_rating (avg : Q) : string :=
  if Qgt_bool avg 60 then rating_excellent
  else if Qgt_bool avg 30 then rating_good
  else if Qgt_bool avg 10 then rating_fair
  else rating_poor.

(** [[r.first_token_latency for r in report.results[1:] if r.first_token_latency > 0]] *)
Definition other_latencies (rs : list TestResult) : list Q :=
  List.filter (fun q => Qgt_bool q 0) (map first_token_latency (tail rs)).

(** [[r for r in report.results[1:] if not r.error and r.tokens_per_second > 0]] *)
Definition valid_results (rs : list TestResult) : list TestResult :=
  List.filter (fun r => negb (truthy (error r)) && Qgt_bool (tokens_per_second r) 0)
    (tail rs).

(** [report.results[0].first_token_latency] *)
Definition warmup_latency (rs : list TestResult) : Q :=
  match rs with
  | r :: _ => first_token_latency r
  | [] => 0%Q
  end.

Definition model_load_time (rs : list TestResult) : Q :=
  (py_max0 (warmup_latency rs - Qmean (other_latencies rs)) / 1000)%Q.

Definition load_time_step (rep : PerformanceReport) : PerformanceReport :=
  match other_latencies (results rep) with
  | [] => rep
  | _ :: _ =>
      set_test_params
        (<["avg_latency" := VNum (Qmean (other_latencies (results rep)))]>
           (<["model_load_time" := VNum (model_load_time (results rep))]>
              (test_params rep)))
        rep
  end.

Definition averages_step (rep : PerformanceReport) : PerformanceReport :=
  match valid_results (results rep) with
  | [] => rep
  | _ :: _ =>
      let valid := valid_results (results rep) in
      let lat := Qmean (map first_token_latency valid) in
      let tps := Qmean (map tokens_per_second valid) in
      set_averages lat tps (worker_rating tps) rep
  end.

(** The block under [if len(report.results) > 1]. *)
Definition finalize (rep : PerformanceReport) : PerformanceReport :=
  if (1 <? length (results rep))%nat then averages_step (load_time_step rep)
  else rep.

(** ** The start of [run] *)

(** [PerformanceTestWorker.__init__] records the two counts. *)
Definition init_test_params (tp : gmap string PyVal) (rounds_n users : nat)
    : gmap string PyVal :=
  <["concurrent_users" := VInt (Z.of_nat users)]>
    (<["rounds" := VInt (Z.of_nat rounds_n)]> tp).

(** Round 0: the load test with the fixed prompt, alone, labelled ["0"].
    [run_single_test] turns every exception into a result, so the
    [except] branch around this call has nothing to catch. *)
Definition warm_up (env : Env) (model : string) (st : Loop) : Loop :=
  let special_prompt := mkTestPrompt "载入测试" "模型载入测试" ("你好 " +:+ model) in
  let result_zero :=
    run_single_test (content special_prompt) (category special_prompt)
      (Some 60%Z) (env_warmup env) in
  append_result result_zero "0" st.

(** Everything up to and including round 0.  [inl]: an exception leaves
    the [try] block, with the signals emitted so far. *)
Definition startup (env : Env) (model : string) (rounds_n users : nat)
    (self_params : gmap string PyVal) (s : Schedule)
    : (string * list Event) + (Loop * list bool) :=
  let tr0 := [progress_updated 0 (rounds_n * users)] in
  match env_system_info env with
  | inl e => inl (e, tr0)
  | inr info =>
      let tp := <["test_date" := VStr (env_date env)]> self_params in
      let rep := new_PerformanceReport model info tp [] in
      match env_original_config env with
      | Some e => inl (e, tr0)
      | None =>
          let '(_, _, o1) :=
            config_restart_ollama_service env None (env_service env) in
          inr (warm_up env model (mkLoop (mkFlags false false) s rep tr0 0), o1)
      end
  end.

(** [version, error = self.client.get_version()]: a string unpacks into
    two names only when it has exactly two characters. *)
Definition unpack2 (s : string) : string + (string * string) :=
  match py_chars s with
  | [a; b] => inr (a, b)
  | [] | [_] =>
      inl ("not enough values to unpack (expected 2, got "
             +:+ pretty (py_len s) +:+ ")")
  | _ => inl "too many values to unpack (expected 2)"
  end.

(** The block under [if self.concurrent_users > 1]: the effective number
    of users, the number of clients, [parallel_warning], and the service
    answers left.  [inl]: an exception leaves the [try] block. *)
Definition prepare_parallel (env : Env) (users : nat) (o : list bool)
    : string + (nat * nat * option string * list bool) :=
  if (1 <? users)%nat then
    match unpack2 (env_version env) with
    | inl e => inl e
    | inr (version, err) =>
        let supports := env_check_parallel_support env version in
        let w1 :=
          if truthy (Some err) then
            Some ("无法检测Ollama版本: " +:+ err +:+ "，并发测试可能无法正常工作")
          else None in
        let '(w2, users1) :=
          if supports then (w1, users)
          else (Some ("当前Ollama版本 " +:+ version +:+
                   " 不支持多用户并发，请升级到0.1.33及以上版本。测试将以单用户模式进行，可能无法体现真实的并发性能。"),
             1) in
        match env_num_parallel env with
        | None =>
            inl "'<' not supported between instances of 'NoneType' and 'int'"
        | Some np =>
            if (np <? Z.of_nat users1)%Z then
              let '(ok, message, o1) :=
                config_restart_ollama_service env (Some users1) o in
              let '(w, u) :=
                if ok then (w2, users1)
                else (Some ("并发设置失败: " +:+ message +:+ "，使用单用户模式"), 1) in
              let w' :=
                if env_test_model env then w
                else Some ("并发测试失败: " +:+ message +:+ "，使用单用户模式") in
              inr (u, u, w', o1)
            else inr (users1, users1, w2, o)
        end
    end
  else inr (users, 1, None, o).

(** [if parallel_warning: self.test_params['parallel_warning'] = ...]:
    the warning goes to the worker's own dict, of which the report holds
    a copy made earlier. *)
Definition store_warning (w : option string) (self_params : gmap string PyVal)
    : gmap string PyVal :=
  if truthy w then <["parallel_warning" := VStr (default "" w)]> self_params
  else self_params.

(** ** [PerformanceTestWorker.run] *)

Record RunResult := mkRunResult {
  emitted : list Event;
  self_test_params : gmap string PyVal
}.

(** How [run] ends once the round loop has ended: the final aggregation,
    the last progress signal and [test_completed], or [error_occurred]
    for an exception. *)
Definition conclude (rounds_n users : nat) (sp : gmap string PyVal)
    (r : option Outcome) : option RunResult :=
  match r with
  | None => None
  | Some (raised e tr) => Some (mkRunResult (tr ++ [error_occurred e]) sp)
  | Some (finished st') =>
      Some (mkRunResult
              (trace st' ++
                 [progress_updated (rounds_n * users) (rounds_n * users);
                  test_completed (finalize (report st'))])
              sp)
  end.

(** [None]: the run never returns (it waits in the pause loop forever). *)
Definition run (env : Env) (model : string) (rounds_n users : nat)
    (tp0 : gmap string PyVal) (s : Schedule) : option RunResult :=
  let self_params := init_test_params tp0 rounds_n users in
  let total_tests := rounds_n * users in
  match startup env model rounds_n users self_params s with
  | inl (e, tr) => Some (mkRunResult (tr ++ [error_occurred e]) self_params)
  | inr (st, o1) =>
      match prepare_parallel env users o1 with
      | inl e => Some (mkRunResult (trace st ++ [error_occurred e]) self_params)
      | inr (users', nclients, w, _) =>
          let prompts :=
            fst (select_balanced_prompts (env_catalog env) total_tests
                   (env_rng env)) in
          conclude rounds_n users (store_warning w self_params)
            (rounds env users' nclients prompts rounds_n 0 st)
      end
  end.

(** ** The round loop, read by read *)

(** The loop of [rounds] once more, from one read of a control flag to
    the next, so that a statement can speak of the moment at which a
    call of the GUI thread arrives.  Both accounts end in the same
    state (lemma [rounds_steps]). *)

(** The places of the round loop at which [run] reads a control flag,
    and the two ways in which the loop ends. *)
Inductive Point :=
  (** [if self.is_cancelled: break] at the top of round [round_num + 1] *)
| at_guard (round_num : nat)
  (** [while self.is_paused ...]: the first operand *)
| at_pause_check (round_num : nat)
  (** [... and not self.is_cancelled]: the second operand, evaluated
      when the first was found set *)
| at_pause_cancel (round_num : nat)
  (** [if self.is_cancelled] before the future of slot [slot]; [p] is
      its prompt and [ps] are the prompts of the futures after it *)
| at_future (round_num slot : nat) (p : TestPrompt) (ps : list TestPrompt)
  (** the [for] loop has ended *)
| loop_ended
  (** an exception has left the loop *)
| loop_raised (msg : string).

(** [for round_num in range(self.num_tests)]: the next iteration, if
    there is one. *)
Definition next_round (rounds_n round_num : nat) : Point :=
  if (round_num <? rounds_n)%nat then at_guard round_num else loop_ended.

(** What follows the pause loop, up to the first future: the executor
    is created and every task of the round is submitted. *)
Definition start_round (rounds_n users nclients : nat) (prompts : list TestPrompt)
    (round_num : nat) (st : Loop) : Point * Loop :=
  if (users =? 0)%nat then (loop_raised "max_workers must be greater than 0", st)
  else
    let ps := current_prompts users round_num prompts in
    let st1 := submit_all (S round_num) 1 nclients ps st in
    match ps with
    | [] => (next_round rounds_n (S round_num), st1)
    | p :: ps' => (at_future round_num 1 p ps', st1)
    end.

(** From one read of a flag to the next. *)
Definition step (env : Env) (rounds_n users nclients : nat)
    (prompts : list TestPrompt) (cfg : Point * Loop) : Point * Loop :=
  let '(pt, st) := cfg in
  match pt with
  | at_guard k =>
      let st1 := read st in
      if is_cancelled (flags st1) then (loop_ended, st1)
      else (at_pause_check k, st1)
  | at_pause_check k =>
      let st1 := read st in
      if is_paused (flags st1) then (at_pause_cancel k, st1)
      else start_round rounds_n users nclients prompts k st1
  | at_pause_cancel k =>
      let st1 := read st in
      if is_cancelled (flags st1) then
        start_round rounds_n users nclients prompts k st1
      else
        (at_pause_check k,
         with_control (flags st1) (mark_paused (test_params (report st1)))
           (sched st1) st1)
  | at_future k slot p ps =>
      let st1 := read st in
      if is_cancelled (flags st1) then (next_round rounds_n (S k), st1)
      else
        let st2 :=
          record_result (future_result p (env_task env (S k) slot))
            (round_label users (S k) slot) st1 in
        match ps with
        | [] => (next_round rounds_n (S k), st2)
        | p' :: ps' => (at_future k (S slot) p' ps', st2)
        end
  | loop_ended | loop_raised _ => cfg
  end.

(** Where the worker is, and what it has recorded and emitted, just
    before its read number [n] of a control flag (counting from 0), or
    once the loop has ended if that comes first.  [None]: an exception
    leaves the set-up. *)
Definition before_read (env : Env) (model : string) (rounds_n users : nat)
    (tp0 : gmap string PyVal) (s : Schedule) (n : nat) : option (Point * Loop) :=
  match startup env model rounds_n users (init_test_params tp0 rounds_n users) s with
  | inl _ => None
  | inr (st, o1) =>
      match prepare_parallel env users o1 with
      | inl _ => None
      | inr (users', nclients, _, _) =>
          let prompts :=
            fst (select_balanced_prompts (env_catalog env) (rounds_n * users)
                   (env_rng env)) in
          Some (Nat.iter n (step env rounds_n users' nclients prompts)
                  (next_round rounds_n 0, st))
      end
  end.

(** ** Notions used in the statements *)

Definition flags0 : Flags := mkFlags false false.

(** The report handed to the completion handler, if any. *)
Definition final_report (rr : RunResult) : option PerformanceReport :=
  match last (emitted rr) with
  | Some (test_completed rep) => Some rep
  | _ => None
  end.

Definition is_terminal (e : Event) : bool :=
  match e with
  | test_completed _ | error_occurred _ => true
  | _ => false
  end.

(** No call at all; no [cancel_test]. *)
Definition quiet (s : Schedule) : Prop := Forall (fun cs => cs = []) s.
Definition cancel_free (s : Schedule) : Prop := Forall (fun cs => cancel_test ∉ cs) s.

(** The calls that arrive before read number [n] (counting from 0). *)
Definition tick (n : nat) (s : Schedule) : list Control := default [] (s !! n).

(** After its last call the GUI thread leaves the worker resumed or
    cancelled. *)
Definition released (s : Schedule) : Prop :=
  let f := arrive (concat s) flags0 in
  is_paused f = false ∨ is_cancelled f = true.

(** The result of round 0. *)
Definition warmup_result (env : Env) (model : string) : TestResult :=
  run_single_test ("你好 " +:+ model) "载入测试" (Some 60%Z) (env_warmup env).

(** What the futures of one round deliver, with their labels, from slot
    [slot] on. *)
Fixpoint outcomes_from (env : Env) (users round slot : nat)
    (ps : list TestPrompt) : list (TestResult * string) :=
  match ps with
  | [] => []
  | p :: ps' =>
      (future_result p (env_task env round slot), round_label users round slot)
        :: outcomes_from env users round (S slot) ps'
  end.

Definition round_outcomes (env : Env) (users : nat) (prompts : list TestPrompt)
    (round_num : nat) : list (TestResult * string) :=
  outcomes_from env users (S round_num) 1 (current_prompts users round_num prompts).

(** The outcomes of rounds [round_num], ..., [round_num + n - 1]. *)
Definition rounds_outcomes (env : Env) (users : nat) (prompts : list TestPrompt)
    (round_num n : nat) : list (TestResult * string) :=
  concat (map (round_outcomes env users prompts) (seq round_num n)).

(** The [test_round_completed] signals of a trace. *)
Definition round_signals (tr : list Event) : list (TestResult * string) :=
  omap (fun e => match e with
                 | test_round_completed r l => Some (r, l)
                 | _ => None
                 end) tr.

(** The prompts selected for a run. *)
Definition run_prompts (env : Env) (rounds_n users : nat) : list TestPrompt :=
  fst (select_balanced_prompts (env_catalog env) (rounds_n * users) (env_rng env)).

Definition service_after_startup (env : Env) : list bool :=
  snd (config_restart_ollama_service env None (env_service env)).

(** The number of users the round loop works with. *)
Definition effective_users (env : Env) (users : nat) : option nat :=
  match prepare_parallel env users (service_after_startup env) with
  | inr (u, _, _, _) => Some u
  | inl _ => None
  end.

(** The exception, if any, raised by the collaborators before the round
    loop; it does not depend on any request. *)
Definition setup_exception (env : Env) (users : nat) : option string :=
  match env_system_info env with
  | inl e => Some e
  | inr _ =>
      match env_original_config env with
      | Some e => Some e
      | None =>
          match prepare_parallel env users (service_after_startup env) with
          | inl e => Some e
          | inr _ => None
          end
      end
  end.

(** The number of custom prompts reserved by [select_balanced_prompts]. *)
Definition reserved_custom (c : Catalog) (n : nat) : nat :=
  match cat_lookup c custom_key with
  | Some ((_ :: _) as customs) => custom_count customs n
  | _ => 0
  end.

(** The results after the first whose [error] is unset: the population
    the specification averages over. *)
Definition non_error_results (rs : list TestResult) : list TestResult :=
  List.filter (fun r => negb (truthy (error r))) (tail rs).

(** The latencies of all results after the first. *)
Definition non_warmup_latencies (rs : list TestResult) : list Q :=
  map first_token_latency (tail rs).

(** The number of futures of a round, out of [n], that are collected:
    those whose read of [is_cancelled] comes before the flag is seen set. *)
Fixpoint collected (f : Flags) (s : Schedule) (n : nat) : nat :=
  match n with
  | 0 => 0
  | S n' =>
      let f1 := arrive (default [] (head s)) f in
      if is_cancelled f1 then 0 else S (collected f1 (tail s) n')
  end.

(** The state after [nreads] reads during which [outs] was recorded. *)
Definition after_outcomes (outs : list (TestResult * string)) (nreads : nat)
    (st : Loop) : Loop :=
  mkLoop (arrive (concat (take nreads (sched st))) (flags st))
    (drop nreads (sched st))
    (set_results (results (report st) ++ map fst outs) (report st))
    (trace st ++ map (fun o => test_round_completed (fst o) (snd o)) outs)
    (completed st + length outs).

(** [st'] continues [st]: [outs] was recorded and signalled, nothing
    terminal was emitted, and of the report only the results and the two
    pause entries of [test_params] may differ. *)
Definition grows (st st' : Loop) (outs : list (TestResult * string)) : Prop :=
  results (report st') = results (report st) ++ map fst outs /\
  (exists tr, trace st' = trace st ++ tr /\ round_signals tr = outs /\
              forallb (fun e => negb (is_terminal e)) tr = true) /\
  model_name (report st') = model_name (report st) /\
  system_info (report st') = system_info (report st) /\
  avg_first_token_latency (report st') = avg_first_token_latency (report st) /\
  avg_tokens_per_second (report st') = avg_tokens_per_second (report st) /\
  performance_rating (report st') = performance_rating (report st) /\
  (forall k, k <> "paused" -> k <> "completion_status" ->
             test_params (report st') !! k = test_params (report st) !! k).

(** The flags once every call of the schedule has arrived. *)
Definition final_flags (st : Loop) : Flags :=
  arrive (concat (sched st)) (flags st).

(** Two [test_params] that agree outside the two pause entries. *)
Definition same_but_pause (tp tp' : gmap string PyVal) : Prop :=
  forall k, k <> "paused" -> k <> "completion_status" -> tp' !! k = tp !! k.

(** The state in which the round loop starts: round 0 is recorded and
    signalled, nothing else is. *)
Definition fresh_start (env : Env) (model : string) (rounds_n users : nat)
    (tp0 : gmap string PyVal) (s : Schedule) (st0 : Loop) : Prop :=
  flags st0 = flags0 /\ sched st0 = s /\
  results (report st0) = [warmup_result env model] /\
  trace st0 = [progress_updated 0 (rounds_n * users);
               test_round_completed (warmup_result env model) "0"] /\
  avg_first_token_latency (report st0) = 0%Q /\
  avg_tokens_per_second (report st0) = 0%Q /\
  performance_rating (report st0) = rating_unrated /\
  test_params (report st0) =
    <["test_date" := VStr (env_date env)]> (init_test_params tp0 rounds_n users).

(** What a pass adds to the selection. *)
Definition adds (pool : list TestPrompt) (sel sel' : list TestPrompt) (n : nat) : Prop :=
  exists added, sel' = sel ++ added /\ length added = n /\
                forall x, x ∈ added -> x ∈ pool.

(** The flags as read number [n] finds them: every call that has
    arrived by then has taken effect. *)
Definition seen (s : Schedule) (n : nat) : Flags :=
  arrive (concat (take (S n) s)) flags0.

(** The tasks submitted according to a trace: round and slot. *)
Definition submitted (tr : list Event) : list (nat * nat) :=
  omap (fun e => match e with
                 | task_submitted round slot _ => Some (round, slot)
                 | _ => None
                 end) tr.

(** The tasks of the rounds [1..k] with [users] slots each. *)
Definition tasks_of (users k : nat) : list (nat * nat) :=
  flat_map (fun round_num => map (fun slot => (S round_num, slot)) (seq 1 users))
    (seq 0 k).

(** The rounds that are complete when the worker is at a point, and the
    number of results of the next round that it has collected. *)
Definition rounds_done (rounds_n : nat) (pt : Point) : nat :=
  match pt with
  | at_guard k | at_pause_check k | at_pause_cancel k | at_future k _ _ _ => k
  | loop_ended => rounds_n
  | loop_raised _ => 0
  end.

Definition collected_so_far (pt : Point) : nat :=
  match pt with
  | at_future _ slot _ _ => slot - 1
  | _ => 0
  end.


(** The worker is inside the round loop. *)
Definition in_loop (pt : Point) : bool :=
  match pt with
  | loop_ended | loop_raised _ => false
  | _ => true
  end.

(** The rounds whose tasks are submitted when the worker is at a point
    without having seen a cancellation. *)
Definition rounds_submitted (rounds_n : nat) (pt : Point) : nat :=
  match pt with
  | at_future k _ _ _ => S k
  | _ => rounds_done rounds_n pt
  end.

(** What holds at every point as long as no cancellation has arrived:
    the results and the tasks are those of the complete rounds and of the
    part of the next round that the point stands for. *)
Definition in_step (env : Env) (rounds_n users : nat) (prompts : list TestPrompt)
    (st0 : Loop) (cfg : Point * Loop) : Prop :=
  let '(pt, st) := cfg in
  let k := rounds_done rounds_n pt in
  is_cancelled (flags st) = false /\
  results (report st) =
    results (report st0) ++
    map fst (rounds_outcomes env users prompts 0 k ++
             take (collected_so_far pt) (round_outcomes env users prompts k)) /\
  submitted (trace st) =
    submitted (trace st0) ++ tasks_of users (rounds_submitted rounds_n pt) /\
  match pt with
  | at_guard k | at_pause_check k | at_pause_cancel k => k < rounds_n
  | at_future k slot p ps =>
      k < rounds_n /\ 1 <= slot /\
      drop (slot - 1) (current_prompts users k prompts) = p :: ps
  | loop_ended => True
  | loop_raised _ => False
  end.

(** ** Concrete scenarios *)

Definition demo_prompt (c n : string) : TestPrompt :=
  mkTestPrompt c n ("请回答: " +:+ n).

Definition demo_catalog : Catalog :=
  [("编程", [demo_prompt "编程" "代码生成"; demo_prompt "编程" "代码优化";
             demo_prompt "编程" "算法设计"]);
   ("推理", [demo_prompt "推理" "逻辑推理"; demo_prompt "推理" "数学推理"]);
   ("自定义", [demo_prompt "自定义" "我的提示词"])].

(** Three tokens, reported by the server to have taken two seconds. *)
Definition stream_ok : ClientRun :=
  mkClientRun
    [(false, mkChunk (Some "a") None None None);
     (false, mkChunk (Some "b") None None None);
     (false, mkChunk (Some "c") (Some 3%Z) (Some 2000000000%Z) None)]
    None.

(** The client reports a failed request. *)
Definition stream_error_chunk : ClientRun :=
  mkClientRun [(false, mkChunk None None None (Some "Connection refused"))] None.

(** The generator raises. *)
Definition stream_raises : ClientRun := mkClientRun [] (Some "Expecting value").

Definition clock (sent first : Q) : Clock :=
  mkClock sent sent first (first + 3) "2025-01-01 00:00:00".

Definition io_ok : TaskIO := mkTaskIO stream_ok (clock 10 11) resolved.
Definition io_cold : TaskIO := mkTaskIO stream_ok (clock 10 15) resolved.
Definition io_error_chunk : TaskIO := mkTaskIO stream_error_chunk (clock 10 11) resolved.
Definition io_raises : TaskIO := mkTaskIO stream_raises (clock 10 11) resolved.

(** A server whose version string is [version], with [OLLAMA_NUM_PARALLEL]
    at 3 (as the worker's constructor sets it), and whose first round
    behaves as [first]. *)
Definition demo_env (version : string) (supports : bool) (first : TaskIO) : Env :=
  mkEnv (inr "host") "2025-01-01 00:00:00" None [] version (fun _ => supports)
    (Some 3%Z) (fun _ => (true, "ok")) true demo_catalog [] io_cold
    (fun round _ => if (round =? 1)%nat then first else io_ok).

(** With three users a round takes five reads.  The cancellation arrives
    during round 2, between the check before its first future and the
    check before its second. *)
Definition cancel_mid_round : Schedule := replicate 8 [] ++ [[cancel_test]].

(** A pause that arrives before round 1 and is lifted four reads later. *)
Definition pause_then_resume : Schedule :=
  [[]; [pause_test]; []; []; []; [resume_test]].

(** The worker is paused, then cancelled while it waits: the pause
    arrives before round 1, the cancellation four reads later. *)
Definition cancel_while_paused : Schedule :=
  [[]; [pause_test]; []; []; []; [cancel_test]].

(** ** [PerformanceTab._handle_test_completed]: the status line *)

(** Truthiness of a value of [test_params]. *)
Definition py_truthy (v : PyVal) : bool :=
  match v with
  | VBool b => b
  | VInt z => negb (z =? 0)%Z
  | VNum q => negb (Qeq_bool q 0)
  | VStr s => negb (String.eqb s "")
  end.

(** [report.test_params.get(key, False)] used as a condition. *)
Definition param_set (tp : gmap string PyVal) (k : string) : bool :=
  match tp !! k with
  | Some v => py_truthy v
  | None => false
  end.

(** The text that the handler of [test_completed] writes to the status
    label. *)
Definition operation_status (rep : PerformanceReport) : string :=
  if param_set (test_params rep) "cancelled" then "测试已取消"
  else if param_set (test_params rep) "paused" then "测试已暂停"
  else "测试完成".

(** The [progress_updated] signals of a trace. *)
Definition progress_signals (tr : list Event) : list (nat * nat) :=
  omap (fun e => match e with
                 | progress_updated a b => Some (a, b)
                 | _ => None
                 end) tr.

(** The pause loop has run its body. *)
Definition marked_paused (tp : gmap string PyVal) : Prop :=
  tp !! "paused" = Some (VBool true) /\
  tp !! "completion_status" = Some (VStr "暂停完成").

(** ** What a stream of chunks reports *)

(** The text, the token count and the duration that a stream of chunks
    reports: the [response] fields in order, and the last [eval_count]
    and [eval_duration] that a chunk carries. *)
Definition responses (cs : list Chunk) : list string := omap ch_response cs.

Definition reported_count (cs : list Chunk) : Z :=
  default 0%Z (last (omap ch_eval_count cs)).

Definition reported_duration (cs : list Chunk) : Z :=
  default 0%Z (last (omap ch_eval_duration cs)).

(** No timeout fires and the generator ends normally. *)
Definition undisturbed (cr : ClientRun) : Prop :=
  forallb (fun it => negb (fst it)) (cr_items cr) = true /\ cr_end cr = None.

(** ** The catalogue: reading, importing and adding prompts *)

(** [get_prompts]: the prompts of all categories, in order. *)
Definition get_prompts (c : Catalog) : list TestPrompt := concat (map snd c).

(** How many of the selected prompts are prompts of category [k]. *)
Definition from_category (c : Catalog) (k : string) (sel : list TestPrompt) : nat :=
  length (filter (fun p => p ∈ cat_get c k) sel).

(** [initial_per_category] of a selection of [n] prompts. *)
Definition initial_per_category (c : Catalog) (n : nat) : nat :=
  (n - reserved_custom c n) /
  length (remove_first custom_key (available_categories c)).

(** *** Reading a prompt file *)

(** The UTF-8 bytes of a code point. *)
Definition utf8_byte (n : N) : ascii := ascii_of_N n.

Definition utf8 (cp : N) : string :=
  if (cp <? 128)%N then String (utf8_byte cp) ""
  else if (cp <? 2048)%N then
    String (utf8_byte (192 + cp / 64)) (String (utf8_byte (128 + cp mod 64)) "")
  else if (cp <? 65536)%N then
    String (utf8_byte (224 + cp / 4096))
      (String (utf8_byte (128 + (cp / 64) mod 64)) (String (utf8_byte (128 + cp mod 64)) ""))
  else
    String (utf8_byte (240 + cp / 262144))
      (String (utf8_byte (128 + (cp / 4096) mod 64))
         (String (utf8_byte (128 + (cp / 64) mod 64)) (String (utf8_byte (128 + cp mod 64)) ""))).

(** The characters that [str.strip()] removes: those for which
    [str.isspace()] holds. *)
Definition whitespace : list string :=
  map utf8 [9; 10; 11; 12; 13; 28; 29; 30; 31; 32; 133; 160; 5760;
            8192; 8193; 8194; 8195; 8196; 8197; 8198; 8199; 8200; 8201; 8202;
            8232; 8233; 8239; 8287; 12288]%N.

Definition is_space (ch : string) : bool := bool_decide (ch ∈ whitespace).

Fixpoint drop_spaces (l : list string) : list string :=
  match l with
  | ch :: l' => if is_space ch then drop_spaces l' else l
  | [] => []
  end.

(** [s.strip()] *)
Definition py_strip (s : string) : string :=
  py_join (reverse (drop_spaces (reverse (drop_spaces (py_chars s))))).

(** [s.split(':', 1)] when it has two parts. *)
Fixpoint split_colon (s : string) : option (string * string) :=
  match s with
  | EmptyString => None
  | String a s' =>
      if Ascii.eqb a ":" then Some (EmptyString, s')
      else
        match split_colon s' with
        | Some (x, y) => Some (String a x, y)
        | None => None
        end
  end.

(** [s[1:-1]] *)
Definition strip_brackets (s : string) : string :=
  py_join (removelast (tail (py_chars s))).

(** The body of [for line in f]: what a line of the file amounts to. *)
Definition parse_line (raw : string) : option FileLine :=
  let line := py_strip raw in
  if String.eqb line "" || String.prefix "#" line then None
  else if String.prefix "[" line && bool_decide (last (py_chars line) = Some "]") then
    Some (category_line (strip_brackets line))
  else
    match split_colon line with
    | Some (a, b) =>
        let nm := py_strip a in
        let cont := py_strip b in
        if negb (String.eqb nm "") && negb (String.eqb cont "") then
          Some (prompt_line nm cont)
        else None
    | None => None
    end.

(** [_load_prompts_from_file] on the lines of a file that exists and
    decodes. *)
Definition load_prompts_text (lines : list string) (c : Catalog) : Catalog :=
  load_prompts_from_file (omap parse_line lines) c.

(** *** The dialog for a custom prompt *)

(** [CustomPromptDialog.get_prompt]: the three inputs, stripped, are
    passed to [TestPrompt] in the order name, content, category. *)
Definition dialog_get_prompt (name_input category_input content_input : string)
    : TestPrompt :=
  let nm := py_strip name_input in
  let cat := if String.eqb (py_strip category_input) "" then custom_key
             else py_strip category_input in
  let cont := py_strip content_input in
  mkTestPrompt nm cont cat.

(** [PerformanceTab._add_prompt] once the dialog is accepted. *)
Definition tab_add_prompt (name_input category_input content_input : string)
    (c : Catalog) : Catalog :=
  let p := dialog_get_prompt name_input category_input content_input in
  add_custom_prompt (name p) (content p) (category p) c.

(** What the tab does to the catalogue of its tester. *)
Inductive CatalogOp :=
| op_add_prompt (name_input category_input content_input : string)
| op_import_prompts (lines : list string).

Definition apply_op (c : Catalog) (op : CatalogOp) : Catalog :=
  match op with
  | op_add_prompt n k t => tab_add_prompt n k t c
  | op_import_prompts lines => load_prompts_text lines c
  end.

(** [PerformanceTab._get_prompt_name_by_content] *)
Definition get_prompt_name_by_content (c : Catalog) (text : string) : string :=
  match List.find (fun p => String.eqb (content p) text) (get_prompts c) with
  | Some p => name p
  | None => ""
  end.

(** [c'] holds what [c] holds, in the same order, followed by prompts
    that satisfy [P]. *)
Definition extends (P : string -> TestPrompt -> Prop) (c c' : Catalog) : Prop :=
  forall k, exists new, cat_get c' k = cat_get c k ++ new /\
                        forall p, p ∈ new -> P k p.

(** ** The interpreter: [int()] and [str()] on integers *)

(** What the model leaves to the interpreter. *)
Record PyRuntime := mkPyRuntime {
  (** the value of a decimal digit outside ASCII (a character of
      category Nd), given by its UTF-8 bytes *)
  unicode_decimal : string -> option N;
  (** [sys.get_int_max_str_digits()]: 4300 unless changed, 0 for no
      limit, absent (0) in interpreters older than the limit *)
  int_max_str_digits : nat
}.

(** Conversions of more digits than this are refused. *)
Definition too_many_digits (rt : PyRuntime) (count : nat) : bool :=
  (0 <? int_max_str_digits rt)%nat && (int_max_str_digits rt <? count)%nat
  && (640 <? count)%nat.

Definition digit_value (rt : PyRuntime) (ch : string) : option N :=
  match ch with
  | EmptyString => None
  | String a rest =>
      let n := N_of_ascii a in
      if (n <? 128)%N then
        match rest with
        | EmptyString => if (48 <=? n)%N && (n <=? 57)%N then Some (n - 48)%N else None
        | String _ _ => None
        end
      else unicode_decimal rt ch
  end.

(** Digits, with single underscores between them. *)
Fixpoint digits_value (rt : PyRuntime) (acc : N) (count : nat) (after_digit : bool)
    (l : list string) : option (N * nat) :=
  match l with
  | [] => if after_digit then Some (acc, count) else None
  | ch :: l' =>
      if String.eqb ch "_" then
        if after_digit then digits_value rt acc count false l' else None
      else
        match digit_value rt ch with
        | Some d => digits_value rt (10 * acc + d)%N (S count) true l'
        | None => None
        end
  end.

(** [int(s)] for a string; [None]: [ValueError]. *)
Definition py_int (rt : PyRuntime) (s : string) : option Z :=
  let l := reverse (drop_spaces (reverse (drop_spaces (py_chars s)))) in
  let '(negative, l1) :=
    match l with
    | ch :: l' =>
        if String.eqb ch "-" then (true, l')
        else if String.eqb ch "+" then (false, l')
        else (false, l)
    | [] => (false, [])
    end in
  match digits_value rt 0 0 false l1 with
  | Some (n, count) =>
      if too_many_digits rt count then None
      else Some (if negative then (- Z.of_N n)%Z else Z.of_N n)
  | None => None
  end.

(** [str(z)] for an integer; [None]: [ValueError]. *)
Definition py_str_int (rt : PyRuntime) (z : Z) : option string :=
  if too_many_digits rt (String.length (pretty (Z.abs_N z))) then None
  else Some (pretty z).

(** ** [OllamaClient.check_parallel_support] *)

(** [s.split('.')] *)
Fixpoint py_split_dot (s : string) : list string :=
  match s with
  | EmptyString => [EmptyString]
  | String a s' =>
      if Ascii.eqb a "." then EmptyString :: py_split_dot s'
      else
        match py_split_dot s' with
        | x :: xs => String a x :: xs
        | [] => [String a EmptyString]
        end
  end.

(** [a >= b] for tuples of integers. *)
Fixpoint tuple_ge (a b : list Z) : bool :=
  match a, b with
  | _, [] => true
  | [], _ :: _ => false
  | x :: a', y :: b' => if (x =? y)%Z then tuple_ge a' b' else (y <? x)%Z
  end.

(** [tuple(map(int, version.split('.'))) >= (0, 1, 33)], [False] when
    [int] raises. *)
Definition version_supported (rt : PyRuntime) (version : string) : bool :=
  match mapM (py_int rt) (py_split_dot version) with
  | Some t => tuple_ge t [0; 1; 33]%Z
  | None => false
  end.

(** [get_version] is what the client answers when no version is given. *)
Definition check_parallel_support (rt : PyRuntime) (get_version : string)
    (version : option string) : bool :=
  match version with
  | Some v => version_supported rt v
  | None =>
      if String.eqb get_version "未知" then false
      else version_supported rt get_version
  end.

(** A version in dotted notation. *)
Fixpoint dotted (t : list N) : string :=
  match t with
  | [] => ""
  | [n] => pretty n
  | n :: t' => pretty n +:+ "." +:+ dotted t'
  end.

Definition rt0 : PyRuntime := mkPyRuntime (fun _ => None) 4300.

(** Strings of ASCII digits, as [str] writes them. *)
Definition is_digit (a : ascii) : bool :=
  (48 <=? N_of_ascii a)%N && (N_of_ascii a <=? 57)%N.

Fixpoint all_digits (s : string) : bool :=
  match s with
  | EmptyString => true
  | String a s' => is_digit a && all_digits s'
  end.

Fixpoint digits_fold (acc : N) (s : string) : N :=
  match s with
  | EmptyString => acc
  | String a s' => digits_fold (10 * acc + (N_of_ascii a - 48))%N s'
  end.

(** The characters of a string of single-byte characters. *)
Definition chars_of (s : string) : list string :=
  map (fun a => String a EmptyString) (list_ascii_of_string s).

(** A string without a dot. *)
Fixpoint no_dot (s : string) : bool :=
  match s with
  | EmptyString => true
  | String a s' => negb (Ascii.eqb a ".") && no_dot s'
  end.

(** ** [OllamaClient.configure_parallel] and [get_current_config] *)

Record ParallelConfig := mkParallelConfig {
  parallel_enabled : bool;
  num_parallel : option Z;
  max_models : option Z;
  env_source : string
}.

Definition default_config : ParallelConfig := mkParallelConfig false None None "none".

(** [x or d] for an optional integer. *)
Definition py_or (x : option Z) (d : Z) : Z :=
  match x with
  | Some z => if (z =? 0)%Z then d else z
  | None => d
  end.

(** The second half of [get_current_config].  [systemd] is what the
    probe of the service unit finds on a system other than Windows:
    the number after [OLLAMA_NUM_PARALLEL=] and, if present, the one
    after [OLLAMA_MAX_LOADED_MODELS=]; [None] on Windows, when the
    variable is not mentioned, and when anything in the [try] block
    raises. *)
Definition systemd_config (systemd : option (Z * option Z)) : ParallelConfig :=
  match systemd with
  | Some (n, m) => mkParallelConfig true (Some n) (Some (default 1%Z m)) "systemd"
  | None => default_config
  end.

(** [get_current_config]; [None]: [int] raises [ValueError]. *)
Definition get_current_config (rt : PyRuntime) (environ : gmap string string)
    (systemd : option (Z * option Z)) : option ParallelConfig :=
  match environ !! "OLLAMA_NUM_PARALLEL" with
  | Some s =>
      if negb (String.eqb s "") then
        match py_int rt s with
        | Some n =>
            match
              match environ !! "OLLAMA_MAX_LOADED_MODELS" with
              | Some t => py_int rt t
              | None => Some 1%Z
              end
            with
            | Some m => Some (mkParallelConfig true (Some n) (Some m) "env")
            | None => None
            end
        | None => None
        end
      else Some (systemd_config systemd)
  | None => Some (systemd_config systemd)
  end.

(** The message of the [ValueError] that [str] raises. *)
Definition int_limit_message (rt : PyRuntime) : string :=
  "Exceeds the limit (" +:+ pretty (int_max_str_digits rt) +:+
  " digits) for integer string conversion; use sys.set_int_max_str_digits() to increase the limit".

(** [configure_parallel(num_parallel, max_models, persist)]: the answer
    and the environment afterwards.  [persisted] is the answer of the
    part under [if persist:], which always returns. *)
Definition configure_parallel (rt : PyRuntime) (environ : gmap string string)
    (num_parallel : Z) (max_models : option Z) (persist : bool)
    (persisted : bool * string) : (bool * string) * gmap string string :=
  let max_models := py_or max_models num_parallel in
  match py_str_int rt num_parallel with
  | None => ((false, "配置失败: " +:+ int_limit_message rt), environ)
  | Some sn =>
      let environ1 := <["OLLAMA_NUM_PARALLEL" := sn]> environ in
      match py_str_int rt max_models with
      | None => ((false, "配置失败: " +:+ int_limit_message rt), environ1)
      | Some sm =>
          let environ2 := <["OLLAMA_MAX_LOADED_MODELS" := sm]> environ1 in
          if persist then (persisted, environ2)
          else ((true, "并发配置已临时设置: " +:+ sn +:+ "并行/" +:+ sm +:+ "模型"),
                environ2)
      end
  end.

(** ** [OllamaConcurrencySettings] *)

Record ConcurrencySettings := mkConcurrencySettings {
  max_concurrent_users : Z;
  max_in_memory_models : Z
}.

(** The constructor.  [client_config]: [None] without a client,
    [Some None] when [get_current_config] raises. *)
Definition new_settings (client_config : option (option ParallelConfig))
    : ConcurrencySettings :=
  match client_config with
  | Some (Some config) =>
      if parallel_enabled config then
        mkConcurrencySettings (py_or (num_parallel config) 3) (py_or (max_models config) 1)
      else mkConcurrencySettings 3 1
  | _ => mkConcurrencySettings 3 1
  end.

(** The two setters. *)
Definition set_max_concurrent_users (value : Z) (s : ConcurrencySettings)
    : ConcurrencySettings :=
  mkConcurrencySettings (if (value <? 1)%Z then 1 else value) (max_in_memory_models s).

Definition set_max_in_memory_models (value : Z) (s : ConcurrencySettings)
    : ConcurrencySettings :=
  mkConcurrencySettings (max_concurrent_users s) (if (value <? 1)%Z then 1 else value).

(** [ConcurrencySettingsDialog._save_settings] with the values of the
    two spin boxes. *)
Definition save_settings (users models : Z) (s : ConcurrencySettings)
    : ConcurrencySettings :=
  set_max_in_memory_models models (set_max_concurrent_users users s).

(** [ConcurrencySettingsDialog._get_latest_settings]. *)
Definition get_latest_settings (config : option ParallelConfig)
    (s : ConcurrencySettings) : ConcurrencySettings :=
  match config with
  | Some config =>
      if parallel_enabled config then
        let s1 := set_max_concurrent_users
                    (py_or (num_parallel config) (max_concurrent_users s)) s in
        set_max_in_memory_models (py_or (max_models config) (max_in_memory_models s1)) s1
      else s
  | None => s
  end.

(** ** [custom_round] *)

(** [int(x)] for a number: towards zero. *)
Definition py_trunc (x : Q) : Z := Z.quot (Qnum x) (Zpos (Qden x)).

Definition custom_round (x : Q) : Z :=
  let integer_part := py_trunc x in
  let decimal_part := (x - inject_Z integer_part)%Q in
  (integer_part + if Qgt_bool decimal_part (1 # 2) then 1 else 0)%Z.

(** ** [PerformanceTester.test_model] *)

(** A value of the response object: a string or anything else. *)
Inductive JVal :=
| JStr (s : string)
| JOther.

(** What [next(response_gen)] returns: a JSON object, with the four
    keys that are looked at and its [str()], or another value, with its
    [str()]. *)
Inductive Reply :=
| reply_dict (err resp cont compl : option JVal) (as_str : string)
| reply_other (as_str : string).

(** How one attempt to get the reply ends, and the time it took. *)
Inductive Attempt :=
| attempt_reply (r : Reply) (elapsed : Q)
| attempt_timeout
| attempt_stop_iteration
| attempt_raised (msg : string).

Definition lower_ascii (a : ascii) : ascii :=
  let n := nat_of_ascii a in
  if (65 <=? n)%nat && (n <=? 90)%nat then ascii_of_nat (n + 32) else a.

Fixpoint py_lower_ascii (s : string) : string :=
  match s with
  | EmptyString => EmptyString
  | String a s' => String (lower_ascii a) (py_lower_ascii s')
  end.

(** ["pong" in text.lower()].  Lower-casing turns no character outside
    ASCII into one of the letters of the word, so it is enough to
    lower-case the ASCII letters. *)
Definition says_pong (text : string) : bool :=
  bool_decide (is_Some (String.index 0 "pong" (py_lower_ascii text))).

(** [response_content], or [None] when the attempt fails before the
    test for ["pong"]: the reply carries an [error] key, or the content
    is not a string and has no [lower]. *)
Definition response_content (r : Reply) : option string :=
  match r with
  | reply_dict (Some _) _ _ _ _ => None
  | reply_dict None (Some v) _ _ _
  | reply_dict None None (Some v) _ _
  | reply_dict None None None (Some v) _ =>
      match v with
      | JStr s => Some s
      | JOther => None
      end
  | reply_dict None None None None as_str => Some as_str
  | reply_other as_str => Some as_str
  end.

(** [Some t]: the attempt returns [(True, t)]. *)
Definition attempt_succeeds (a : Attempt) : option Q :=
  match a with
  | attempt_reply r elapsed =>
      match response_content r with
      | Some text => if says_pong text then Some elapsed else None
      | None => None
      end
  | _ => None
  end.

Definition max_retries : nat := 5.

Record ModelTest := mkModelTest {
  mt_success : bool;
  mt_response_time : Q;
  (** how many attempts were made, and how many times it slept *)
  mt_attempts : nat;
  mt_sleeps : nat
}.

(** [for attempt in range(max_retries)], from [attempt] on. *)
Fixpoint test_model_from (outcome : nat -> Attempt) (attempt todo : nat) : ModelTest :=
  match todo with
  | 0 => mkModelTest false 0 0 0
  | S todo' =>
      match attempt_succeeds (outcome attempt) with
      | Some t => mkModelTest true t 1 0
      | None =>
          let slept := if (attempt <? max_retries - 1)%nat then 1 else 0 in
          let r := test_model_from outcome (S attempt) todo' in
          mkModelTest (mt_success r) (mt_response_time r) (S (mt_attempts r))
            (slept + mt_sleeps r)
      end
  end.

Definition test_model (outcome : nat -> Attempt) : ModelTest :=
  test_model_from outcome 0 max_retries.

(* ================================================================== *)
(** * Part II: properties                                               *)
(* ================================================================== *)

(** ** Comparisons *)

Lemma Qgt_bool_true a b : Qgt_bool a b = true <-> (b < a)%Q.
Proof.
  unfold Qgt_bool. rewrite negb_true_iff. split.
  - intros H. apply Qnot_le_lt. intros Hle.
    apply Qle_bool_iff in Hle. congruence.
  - intros H. destruct (Qle_bool a b) eqn:E; [|reflexivity].
    apply Qle_bool_iff in E. exfalso. exact (Qlt_not_le _ _ H E).
Qed.

Lemma Qgt_bool_false a b : Qgt_bool a b = false <-> (a <= b)%Q.
Proof.
  unfold Qgt_bool. rewrite negb_false_iff. apply Qle_bool_iff.
Qed.

Lemma py_max0_nonneg x : (0 <= py_max0 x)%Q.
Proof.
  unfold py_max0. destruct (Qgt_bool x 0) eqn:E.
  - apply Qgt_bool_true in E. apply Qlt_le_weak, E.
  - apply Qle_refl.
Qed.

Lemma py_max0_is_max x : py_max0 x == Qmax 0 x.
Proof.
  unfold py_max0. destruct (Qgt_bool x 0) eqn:E.
  - apply Qgt_bool_true in E. symmetry. apply Q.max_r, Qlt_le_weak, E.
  - apply Qgt_bool_false in E. symmetry. apply Q.max_l, E.
Qed.

(** ** [test_case] *)

(** Whatever the client does, an exception in the streaming loop ends in
    an error result with all four metrics at zero. *)
Lemma test_case_exception prompt_text ptype timeout cr ck msg :
  stream timeout cr ck = inl msg ->
  let r := test_case prompt_text ptype timeout cr ck in
  error r = Some msg /\ first_token_latency r = 0%Q /\
  tokens_per_second r = 0%Q /\ total_tokens r = 0%Z /\ total_time r = 0%Q.
Proof.
  intros H. unfold test_case. rewrite H. simpl. repeat split; reflexivity.
Qed.

(** The timeout condition of the loop is such an exception. *)
Lemma consume_timeout timeout ck i c rest a :
  consume timeout ck i ((true, c) :: rest) a = inl (timeout_message timeout).
Proof. reflexivity. Qed.

Lemma throughput_many tokens gen :
  (1 < tokens)%Z -> (0 < gen)%Q ->
  throughput tokens gen = (inject_Z (tokens - 1) / gen)%Q.
Proof.
  intros Ht Hg. unfold throughput.
  apply Z.ltb_lt in Ht. apply Qgt_bool_true in Hg. rewrite Ht, Hg. reflexivity.
Qed.

Lemma throughput_one gen :
  (0 < gen)%Q -> throughput 1 gen = (1 / gen)%Q.
Proof.
  intros Hg. unfold throughput. apply Qgt_bool_true in Hg. rewrite Hg. reflexivity.
Qed.

Lemma throughput_zero tokens gen :
  ~ ((1 <= tokens)%Z /\ (0 < gen)%Q) -> throughput tokens gen = 0%Q.
Proof.
  intros H. unfold throughput.
  destruct (Qgt_bool gen 0) eqn:Eg.
  - apply Qgt_bool_true in Eg.
    destruct (1 <? tokens)%Z eqn:E1; [apply Z.ltb_lt in E1; exfalso; apply H; split; [lia|exact Eg]|].
    destruct (tokens =? 1)%Z eqn:E2; [apply Z.eqb_eq in E2; exfalso; apply H; split; [lia|exact Eg]|].
    reflexivity.
  - rewrite !andb_false_r. reflexivity.
Qed.

(** C4. For every executed test case the throughput of the returned
    result is [(tokens - 1) / duration] when more than one token was
    counted and the generation duration is positive, [1 / duration] for
    exactly one token and a positive duration, and [0] in every other
    case; when an exception ends the request both the throughput and the
    token count are [0].  No division by a non-positive duration is ever
    evaluated. *)
Theorem test_case_tokens_per_second prompt_text ptype timeout cr ck :
  let r := test_case prompt_text ptype timeout cr ck in
  match stream timeout cr ck with
  | inr a =>
      let gen := generation_time ck a in
      let n := total_tokens r in
      ((1 < n)%Z /\ (0 < gen)%Q ->
         tokens_per_second r = (inject_Z (n - 1) / gen)%Q) /\
      (n = 1%Z /\ (0 < gen)%Q -> tokens_per_second r = (1 / gen)%Q) /\
      (~ ((1 <= n)%Z /\ (0 < gen)%Q) -> tokens_per_second r = 0%Q)
  | inl _ => tokens_per_second r = 0%Q /\ total_tokens r = 0%Z
  end.
Proof.
  unfold test_case. destruct (stream timeout cr ck) as [msg|a]; simpl.
  - split; reflexivity.
  - split; [|split].
    + intros [Hn Hg]. apply throughput_many; assumption.
    + intros [Hn Hg]. rewrite Hn. apply throughput_one; assumption.
    + apply throughput_zero.
Qed.

(** C4, at a request of three tokens that the server reports to have
    taken two seconds: one token per second. *)
Lemma test_case_tokens_per_second_witness :
  let cr := mkClientRun
              [(false, mkChunk (Some "a") None None None);
               (false, mkChunk (Some "b") None None None);
               (false, mkChunk (Some "c") (Some 3%Z) (Some 2000000000%Z) None)]
              None in
  let ck := mkClock 10 10 11 14 "2025-01-01 00:00:00" in
  let r := test_case "ping" "demo" 600 cr ck in
  ((1 < total_tokens r)%Z /\ (0 < 2)%Q) /\
  tokens_per_second r = (inject_Z (3 - 1) / (inject_Z 2000000000 / 1000000000))%Q.
Proof.
  intros cr ck r.
  assert (H : (1 < total_tokens r)%Z /\ (0 < 2)%Q) by (split; reflexivity).
  split; [exact H|].
  exact (proj1 (test_case_tokens_per_second "ping" "demo" 600 cr ck) H).
Defined.

(** C5 (what the code does with a reported error).  The client reports a
    failed request by yielding the single chunk [{"error": msg}].
    [test_case] never looks at that key: the loop ends normally and the
    result has no [error] and a non-zero [total_time]. *)
Theorem test_case_ignores_client_error :
  let cr := mkClientRun
              [(false, mkChunk None None None (Some "Connection refused"))]
              None in
  let ck := mkClock 100 100 101 102 "2025-01-01 00:00:00" in
  let r := test_case "ping" "demo" 600 cr ck in
  error r = None /\ total_time r = 2000%Q /\ ~ (total_time r == 0)%Q.
Proof.
  simpl. split; [reflexivity|]. split; [reflexivity|]. intros H. discriminate H.
Qed.

(** ** Ratings *)

Lemma worker_rating_thresholds avg :
  ((60 < avg)%Q -> worker_rating avg = rating_excellent) /\
  ((30 < avg)%Q /\ (avg <= 60)%Q -> worker_rating avg = rating_good) /\
  ((10 < avg)%Q /\ (avg <= 30)%Q -> worker_rating avg = rating_fair) /\
  ((avg <= 10)%Q -> worker_rating avg = rating_poor).
Proof.
  unfold worker_rating. repeat split.
  - intros H. apply Qgt_bool_true in H. rewrite H. reflexivity.
  - intros [H1 H2]. apply Qgt_bool_true in H1. apply Qgt_bool_false in H2.
    rewrite H2, H1. reflexivity.
  - intros [H1 H2]. apply Qgt_bool_true in H1.
    assert (H3 : (avg <= 60)%Q) by (eapply Qle_trans; [exact H2|discriminate]).
    apply Qgt_bool_false in H2. apply Qgt_bool_false in H3.
    rewrite H3, H2, H1. reflexivity.
  - intros H.
    assert (H2 : (avg <= 30)%Q) by (eapply Qle_trans; [exact H|discriminate]).
    assert (H3 : (avg <= 60)%Q) by (eapply Qle_trans; [exact H|discriminate]).
    apply Qgt_bool_false in H. apply Qgt_bool_false in H2. apply Qgt_bool_false in H3.
    rewrite H3, H2, H. reflexivity.
Qed.

(** C6 (what the code does at the boundaries).  A report constructed
    with one result at exactly 60, 30 or 10 tokens per second is rated by
    [__post_init__] as excellent, good and fair, because its comparisons
    are inclusive; the worker rates the same averages as good, fair and
    poor, as the legend of the reports says. *)
Theorem post_init_rating_boundaries :
  let rated tps :=
    performance_rating
      (new_PerformanceReport "llama3:8b" "host" ∅
         [mkTestResult "p" "p" "demo" "ok" 100 tps 10 1000
            "2025-01-01 00:00:00" None]) in
  (rated 60%Q = rating_excellent /\ rated 30%Q = rating_good /\
   rated 10%Q = rating_fair) /\
  (worker_rating 60 = rating_good /\ worker_rating 30 = rating_fair /\
   worker_rating 10 = rating_poor).
Proof. vm_compute. repeat split. Qed.

(** ** The random source *)

Lemma nth_mod_lookup {A} (l : list A) (d : A) r :
  l <> [] -> l !! (r mod length l) = Some (nth (r mod length l) l d).
Proof.
  intros Hl. rewrite nth_lookup.
  destruct (l !! (r mod length l)) eqn:E; [reflexivity|].
  apply lookup_ge_None in E.
  assert (length l <> 0) by (destruct l; simpl; congruence).
  pose proof (Nat.mod_upper_bound r (length l)). lia.
Qed.

Lemma choice_elem {A} (d : A) l g : l <> [] -> fst (choice d l g) ∈ l.
Proof.
  intros Hl. unfold choice. destruct (draw g) as [r g1]. simpl.
  eapply list_elem_of_lookup_2, nth_mod_lookup, Hl.
Qed.

Lemma sample_length {A} k : forall (l : list A) g,
  length (fst (sample l k g)) = Nat.min k (length l).
Proof.
  induction k as [|k IH]; intros l g; [reflexivity|].
  destruct l as [|d l]; [reflexivity|]. cbn [sample].
  destruct (draw g) as [r g1].
  set (i := r mod length (d :: l)).
  specialize (IH (delete i (d :: l)) g1).
  destruct (sample (delete i (d :: l)) k g1) as [rest g2]. simpl in IH |- *.
  rewrite IH, length_delete.
  - simpl. lia.
  - apply lookup_lt_is_Some_2. apply Nat.mod_upper_bound. simpl. lia.
Qed.

Lemma sample_elem {A} k : forall (l : list A) g x,
  x ∈ fst (sample l k g) -> x ∈ l.
Proof.
  induction k as [|k IH]; intros l g x; [intros H; inversion H|].
  destruct l as [|d l]; [intros H; inversion H|]. cbn [sample].
  destruct (draw g) as [r g1].
  set (i := r mod length (d :: l)).
  assert (Hi : (d :: l) !! i = Some (nth i (d :: l) d))
    by (apply nth_mod_lookup; discriminate).
  revert Hi. generalize (nth i (d :: l) d). intros y Hi.
  specialize (IH (delete i (d :: l)) g1 x).
  destruct (sample (delete i (d :: l)) k g1) as [rest g2]. cbn [fst] in IH |- *.
  intros H. apply elem_of_cons in H as [->|H].
  - eapply list_elem_of_lookup_2, Hi.
  - eapply list_elem_of_delete_inv, IH, H.
Qed.

Lemma sample_all_Permutation {A} k : forall (l : list A) g,
  length l = k -> fst (sample l k g) ≡ₚ l.
Proof.
  induction k as [|k IH]; intros l g Hl.
  - destruct l; [reflexivity|discriminate].
  - destruct l as [|d l]; [discriminate|]. cbn [sample].
    destruct (draw g) as [r g1].
    set (i := r mod length (d :: l)).
    assert (Hi : (d :: l) !! i = Some (nth i (d :: l) d))
      by (apply nth_mod_lookup; discriminate).
    revert Hi. generalize (nth i (d :: l) d). intros y Hi.
    specialize (IH (delete i (d :: l)) g1).
    destruct (sample (delete i (d :: l)) k g1) as [rest g2]. cbn [fst] in IH |- *.
    rewrite IH.
    + symmetry. apply delete_Permutation, Hi.
    + rewrite length_delete by (rewrite Hi; eauto). simpl in Hl |- *. lia.
Qed.

Lemma shuffle_Permutation {A} (l : list A) g : fst (shuffle l g) ≡ₚ l.
Proof. apply sample_all_Permutation. reflexivity. Qed.

(** ** The catalogue *)

Lemma remove_first_notin x l : x ∉ l -> remove_first x l = l.
Proof.
  induction l as [|y l IH]; intros H; [reflexivity|]. simpl.
  destruct (String.eqb y x) eqn:E.
  - apply String.eqb_eq in E. subst. exfalso. apply H. left.
  - f_equal. apply IH. intros Hin. apply H. right. exact Hin.
Qed.

Lemma remove_first_subset x l k : k ∈ remove_first x l -> k ∈ l.
Proof.
  induction l as [|y l IH]; simpl; [auto|].
  destruct (String.eqb y x).
  - intros H. right. exact H.
  - intros H. apply elem_of_cons in H as [->|H]; [left|right; auto].
Qed.

Lemma available_nonempty c k : k ∈ available_categories c -> cat_get c k <> [].
Proof.
  unfold available_categories. rewrite list_elem_of_In, filter_In.
  intros [_ H]. destruct (cat_get c k); [discriminate|discriminate].
Qed.

Lemma all_available_elem c cats k x :
  k ∈ cats -> x ∈ cat_get c k -> x ∈ all_available c cats.
Proof.
  intros Hk Hx. unfold all_available.
  apply list_elem_of_In, in_concat. exists (cat_get c k). split.
  - apply in_map, list_elem_of_In, Hk.
  - apply list_elem_of_In, Hx.
Qed.

Lemma all_available_subset c cats cats' x :
  (forall k, k ∈ cats -> k ∈ cats') ->
  x ∈ all_available c cats -> x ∈ all_available c cats'.
Proof.
  intros Hsub. unfold all_available.
  rewrite !list_elem_of_In, !in_concat.
  intros (l & Hl & Hx). apply in_map_iff in Hl as (k & <- & Hk).
  exists (cat_get c k). split; [|exact Hx].
  apply in_map, list_elem_of_In, Hsub, list_elem_of_In, Hk.
Qed.

(** ** The passes of the selection *)

Lemma adds_refl pool sel : adds pool sel sel 0.
Proof. exists []. rewrite app_nil_r. split; [reflexivity|]. split; [reflexivity|]. intros x H; inversion H. Qed.

Lemma adds_trans pool s1 s2 s3 n m :
  adds pool s1 s2 n -> adds pool s2 s3 m -> adds pool s1 s3 (n + m).
Proof.
  intros (a1 & -> & <- & H1) (a2 & -> & <- & H2).
  exists (a1 ++ a2). rewrite app_assoc, length_app. split; [reflexivity|].
  split; [reflexivity|]. intros x Hx. apply elem_of_app in Hx as [Hx|Hx]; auto.
Qed.

Lemma adds_length pool sel sel' n : adds pool sel sel' n -> length sel' = length sel + n.
Proof. intros (a & -> & <- & _). apply length_app. Qed.

Lemma first_pass_adds c per cats0 cats : forall sel g,
  (forall k, k ∈ cats -> k ∈ cats0) ->
  exists n, adds (all_available c cats0) sel (fst (first_pass c per cats sel g)) n /\
            n <= per * length cats.
Proof.
  induction cats as [|k cats IH]; intros sel g Hsub.
  - exists 0. split; [apply adds_refl|]. lia.
  - assert (Hsub' : forall k', k' ∈ cats -> k' ∈ cats0)
      by (intros k' Hk'; apply Hsub; right; exact Hk').
    cbn [first_pass].
    destruct (cat_lookup c k) as [[|p cps]|] eqn:El;
      try (destruct (IH sel g Hsub') as (n & Hn & Hle); exists n; split; [exact Hn|simpl; lia]).
    destruct (0 <? Nat.min per (length (p :: cps)))%nat eqn:E0;
      [|destruct (IH sel g Hsub') as (n & Hn & Hle); exists n; split; [exact Hn|simpl; lia]].
    pose proof (sample_length (Nat.min per (length (p :: cps))) (p :: cps) g) as Hlen.
    pose proof (sample_elem (Nat.min per (length (p :: cps))) (p :: cps) g) as Hel.
    destruct (sample (p :: cps) (Nat.min per (length (p :: cps))) g) as [s g1].
    simpl fst in Hlen, Hel.
    destruct (IH (sel ++ s) g1 Hsub') as (n & Hn & Hle).
    exists (length s + n). split.
    + eapply adds_trans; [|exact Hn]. exists s. split; [reflexivity|].
      split; [reflexivity|]. intros x Hx.
      apply (all_available_elem c cats0 k); [apply Hsub; left|].
      unfold cat_get. rewrite El. simpl. apply Hel, Hx.
    + rewrite Hlen. simpl length. lia.
Qed.

Lemma unused_prompts_elem c m k x : x ∈ unused_prompts c m k -> x ∈ cat_get c k.
Proof.
  unfold unused_prompts. rewrite !list_elem_of_In, filter_In. tauto.
Qed.

Lemma second_pass_adds c cats0 remaining : forall cycle sel m g,
  (forall k, k ∈ cycle -> k ∈ cats0) ->
  let '(remaining', sel', _) := second_pass c remaining cycle sel m g in
  exists n, adds (all_available c cats0) sel sel' n /\ n + remaining' = remaining.
Proof.
  induction remaining as [|rem IH]; intros cycle sel m g Hsub.
  - simpl. exists 0. split; [apply adds_refl|reflexivity].
  - revert sel m g Hsub. induction cycle as [|k cycle IHc]; intros sel m g Hsub.
    + simpl. exists 0. split; [apply adds_refl|reflexivity].
    + assert (Hsub' : forall k', k' ∈ cycle -> k' ∈ cats0)
        by (intros k' Hk'; apply Hsub; right; exact Hk').
      cbn [second_pass].
      destruct (unused_prompts c m k) as [|d more] eqn:Eu.
      * apply IHc, Hsub'.
      * pose proof (choice_elem d (d :: more) g) as Hch.
        destruct (choice d (d :: more) g) as [p g1]. simpl fst in Hch.
        set (cycle1 := if nonempty more && (0 <? rem)%nat then cycle ++ [k] else cycle).
        assert (Hsub1 : forall k', k' ∈ cycle1 -> k' ∈ cats0).
        { subst cycle1. intros k' Hk'. destruct (nonempty more && (0 <? rem)%nat).
          - apply elem_of_app in Hk' as [Hk'|Hk']; [apply Hsub'; exact Hk'|].
            apply list_elem_of_singleton in Hk' as ->. apply Hsub. left.
          - apply Hsub', Hk'. }
        specialize (IH cycle1 (sel ++ [p])
                      (<[k:=default [] (m !! k) ++ [p]]> m) g1 Hsub1).
        destruct (second_pass c rem cycle1 (sel ++ [p]) _ g1) as [[rem' sel'] g'].
        destruct IH as (n & Hn & Hrem).
        exists (1 + n). split; [|lia].
        eapply adds_trans; [|exact Hn].
        exists [p]. split; [reflexivity|]. split; [reflexivity|].
        intros x Hx. apply list_elem_of_singleton in Hx as ->.
        apply (all_available_elem c cats0 k); [apply Hsub; left|].
        apply unused_prompts_elem with m. rewrite Eu. apply Hch. discriminate.
Qed.

Lemma refill_adds pool remaining : forall sel g,
  pool <> [] -> adds pool sel (fst (refill pool remaining sel g)) remaining.
Proof.
  induction remaining as [|rem IH]; intros sel g Hp; [apply adds_refl|].
  destruct pool as [|d pool]; [contradiction|]. cbn [refill].
  pose proof (choice_elem d (d :: pool) g Hp) as Hch.
  destruct (choice d (d :: pool) g) as [p g1]. simpl fst in Hch.
  change (S rem) with (1 + rem). eapply adds_trans; [|apply IH, Hp].
  exists [p]. split; [reflexivity|]. split; [reflexivity|].
  intros x Hx. apply list_elem_of_singleton in Hx as ->. exact Hch.
Qed.

(** ** The selection as a whole *)

Lemma custom_count_le customs n : 1 <= n -> custom_count customs n <= n.
Proof.
  intros Hn. unfold custom_count.
  assert (n / 5 <= n) by (apply Nat.Div0.div_le_upper_bound; lia). lia.
Qed.

Lemma reserved_custom_le c n : 1 <= n -> reserved_custom c n <= n.
Proof.
  intros Hn. unfold reserved_custom.
  destruct (cat_lookup c custom_key) as [[|p ps]|]; try lia.
  apply custom_count_le, Hn.
Qed.

Lemma custom_phase_spec c n g :
  let '(cs, cats, _) := custom_phase c n g in
  cats = remove_first custom_key (available_categories c) /\
  length cs = reserved_custom c n /\
  forall x, x ∈ cs -> x ∈ cat_get c custom_key.
Proof.
  unfold custom_phase, reserved_custom, cat_get.
  destruct (cat_lookup c custom_key) as [[|p ps]|] eqn:El.
  - split; [|split; [reflexivity|intros x H; inversion H]].
    symmetry. apply remove_first_notin. intros H. apply available_nonempty in H.
    unfold cat_get in H. rewrite El in H. contradiction.
  - pose proof (sample_length (custom_count (p :: ps) n) (p :: ps) g) as Hlen.
    pose proof (sample_elem (custom_count (p :: ps) n) (p :: ps) g) as Hel.
    destruct (sample (p :: ps) (custom_count (p :: ps) n) g) as [cs g1].
    cbn [fst] in Hlen, Hel. split; [reflexivity|]. split; [|exact Hel].
    rewrite Hlen. unfold custom_count. lia.
  - split; [|split; [reflexivity|intros x H; inversion H]].
    symmetry. apply remove_first_notin. intros H. apply available_nonempty in H.
    unfold cat_get in H. rewrite El in H. contradiction.
Qed.

Lemma nonempty_false {A} (l : list A) : nonempty l = false -> l = [].
Proof. destruct l; [reflexivity|discriminate]. Qed.

(** Before the final shuffle the selection is the reserved custom prompts
    followed by prompts of the other non-empty categories, [n] in all. *)
Lemma balanced_selection_spec c n g :
  1 <= n -> fallback_pool c <> [] ->
  exists customs others,
    fst (balanced_selection c n g) = customs ++ others /\
    length customs = reserved_custom c n /\
    (forall x, x ∈ customs -> x ∈ cat_get c custom_key) /\
    (forall x, x ∈ others -> x ∈ fallback_pool c) /\
    length (customs ++ others) = n.
Proof.
  intros Hn Hpool. unfold balanced_selection.
  pose proof (custom_phase_spec c n g) as Hc.
  destruct (custom_phase c n g) as [[cs cats] g0].
  destruct Hc as (Hcats & Hlen & Hel).
  pose proof (reserved_custom_le c n Hn) as Hle.
  assert (Hp : all_available c cats = fallback_pool c)
    by (rewrite Hcats; reflexivity).
  assert (Hfin : forall sel k, adds (fallback_pool c) cs sel k ->
                 length cs + k = n ->
                 exists customs others, sel = customs ++ others /\
                   length customs = reserved_custom c n /\
                   (forall x, x ∈ customs -> x ∈ cat_get c custom_key) /\
                   (forall x, x ∈ others -> x ∈ fallback_pool c) /\
                   length (customs ++ others) = n).
  { intros sel k (added & -> & Hk & Ha) Hsum.
    exists cs, added. rewrite length_app. repeat split; auto. lia. }
  destruct ((0 <? n - length cs)%nat) eqn:E0; simpl.
  2:{ apply Nat.ltb_ge in E0. apply (Hfin cs 0); [apply adds_refl|lia]. }
  apply Nat.ltb_lt in E0.
  destruct (nonempty cats) eqn:En.
  2:{ apply nonempty_false in En. exfalso. apply Hpool. rewrite <- Hp, En. reflexivity. }
  assert (Hlc : length cats <> 0) by (destruct cats; simpl; [discriminate|lia]).
  destruct (first_pass_adds c ((n - length cs) / length cats) cats cats cs g0)
    as (n1 & H1 & Hn1); [auto|].
  rewrite Hp in H1.
  assert (Hn1' : n1 <= n - length cs).
  { pose proof (Nat.Div0.mul_div_le (n - length cs) (length cats)). lia. }
  pose proof (adds_length _ _ _ _ H1) as Hl1.
  destruct (first_pass c ((n - length cs) / length cats) cats cs g0) as [sel1 g1].
  cbn [fst] in H1, Hl1.
  destruct ((0 <? n - length sel1)%nat) eqn:E1.
  2:{ apply Nat.ltb_ge in E1. cbn [fst]. apply (Hfin sel1 n1 H1). lia. }
  apply Nat.ltb_lt in E1.
  pose proof (shuffle_Permutation cats g1) as Hperm.
  destruct (shuffle cats g1) as [cycle g2]. cbn [fst] in Hperm.
  pose proof (second_pass_adds c cats (n - length sel1) cycle sel1
                (selected_by_category0 cats sel1) g2) as H2.
  destruct (second_pass c (n - length sel1) cycle sel1 _ g2) as [[rem2 sel2] g3].
  destruct H2 as (n2 & H2 & Hn2).
  { intros k Hk. rewrite <- Hperm. exact Hk. }
  rewrite Hp in H2 |- *.
  pose proof (refill_adds (fallback_pool c) rem2 sel2 g3 Hpool) as H3.
  apply (Hfin _ (n1 + n2 + rem2)).
  - eapply adds_trans; [eapply adds_trans|]; eassumption.
  - lia.
Qed.

Lemma select_balanced_prompts_empty c n g :
  available_categories c = [] -> fst (select_balanced_prompts c n g) = [].
Proof. intros H. unfold select_balanced_prompts. rewrite H. reflexivity. Qed.

Lemma fallback_pool_available c :
  fallback_pool c <> [] -> available_categories c <> [].
Proof.
  unfold fallback_pool. intros H E. rewrite E in H. apply H. reflexivity.
Qed.

Lemma select_balanced_prompts_spec c n g :
  1 <= n -> fallback_pool c <> [] ->
  length (fst (select_balanced_prompts c n g)) = n /\
  exists customs others,
    fst (select_balanced_prompts c n g) ≡ₚ customs ++ others /\
    length customs = reserved_custom c n /\
    (forall x, x ∈ customs -> x ∈ cat_get c custom_key) /\
    (forall x, x ∈ others -> x ∈ fallback_pool c).
Proof.
  intros Hn Hpool. unfold select_balanced_prompts.
  pose proof (fallback_pool_available c Hpool) as Hav.
  destruct (available_categories c) as [|k0 av]; [contradiction|].
  destruct (balanced_selection_spec c n g Hn Hpool)
    as (customs & others & Hsel & Hlc & Hc & Ho & Hlen).
  destruct (balanced_selection c n g) as [sel g1]. cbn [fst] in Hsel. subst sel.
  pose proof (shuffle_Permutation (customs ++ others) g1) as Hperm.
  destruct (shuffle (customs ++ others) g1) as [mixed g2]. cbn [fst] in Hperm |- *.
  assert (Hm : length mixed = n) by (rewrite Hperm; exact Hlen).
  rewrite take_ge by lia. split; [exact Hm|].
  exists customs, others. auto.
Qed.

(** ** The catalogue of a tester *)

Lemma cat_lookup_touch c k k' l :
  cat_lookup c k = Some l -> cat_lookup (cat_touch c k') k = Some l.
Proof.
  induction c as [|[k0 ps] c IH]; simpl; [discriminate|].
  destruct (String.eqb k0 k) eqn:E.
  - intros H. destruct (String.eqb k0 k'); simpl; rewrite E; exact H.
  - intros H. destruct (String.eqb k0 k'); simpl; rewrite E; auto.
Qed.

Lemma cat_lookup_touch_same c k : exists l, cat_lookup (cat_touch c k) k = Some l.
Proof.
  induction c as [|[k0 ps] c IH]; simpl.
  - rewrite String.eqb_refl. eauto.
  - destruct (String.eqb k0 k) eqn:E; simpl; rewrite E; eauto.
Qed.

Lemma cat_lookup_push c k k' q p ps :
  cat_lookup c k = Some (p :: ps) ->
  exists ps', cat_lookup (cat_push c k' q) k = Some (p :: ps').
Proof.
  induction c as [|[k0 l] c IH]; simpl; [discriminate|].
  destruct (String.eqb k0 k) eqn:E.
  - intros H. injection H as ->. destruct (String.eqb k0 k'); simpl; rewrite E; eauto.
  - intros H. destruct (String.eqb k0 k'); simpl; rewrite E; auto. eauto.
Qed.

Lemma cat_lookup_push_same c k q l :
  cat_lookup c k = Some l -> cat_lookup (cat_push c k q) k = Some (l ++ [q]).
Proof.
  induction c as [|[k0 l0] c IH]; simpl; [discriminate|].
  destruct (String.eqb k0 k) eqn:E; simpl; rewrite E.
  - intros H. injection H as ->. reflexivity.
  - exact IH.
Qed.

Lemma has_fallback_append c k q : has_fallback c -> has_fallback (cat_append c k q).
Proof.
  intros (k0 & p & ps & H & Hk). unfold cat_append.
  apply (cat_lookup_touch _ _ k) in H.
  apply (cat_lookup_push _ _ k q) in H as (ps' & H).
  exists k0, p, ps'. auto.
Qed.

Lemma append_has_fallback c k q : k <> custom_key -> has_fallback (cat_append c k q).
Proof.
  intros Hk. unfold cat_append.
  destruct (cat_lookup_touch_same c k) as (l & H).
  apply (cat_lookup_push_same _ _ q) in H.
  destruct l as [|p ps]; [exists k, q, []|exists k, p, (ps ++ [q])]; auto.
Qed.

Lemma has_fallback_touch c k : has_fallback c -> has_fallback (cat_touch c k).
Proof.
  intros (k0 & p & ps & H & Hk). exists k0, p, ps. split; [|exact Hk].
  apply cat_lookup_touch, H.
Qed.

Lemma has_fallback_add_custom nm cont cat c :
  has_fallback c -> has_fallback (add_custom_prompt nm cont cat c).
Proof. apply has_fallback_append. Qed.

(** The built-in prompts, none of which is custom, make sure of it, and
    nothing a tester does to its catalogue afterwards undoes it. *)
Lemma init_default_prompts_has_fallback defaults : forall c,
  (has_fallback c \/ exists p, p ∈ defaults /\ category p <> custom_key) ->
  has_fallback (init_default_prompts defaults c).
Proof.
  induction defaults as [|d defaults IH]; intros c H; simpl.
  - destruct H as [H|(p & Hp & _)]; [exact H|inversion Hp].
  - apply IH. destruct H as [H|(p & Hp & Hc)].
    + left. apply has_fallback_append, H.
    + apply elem_of_cons in Hp as [->|Hp].
      * left. apply append_has_fallback, Hc.
      * right. eauto.
Qed.

Lemma has_fallback_push c k q : has_fallback c -> has_fallback (cat_push c k q).
Proof.
  intros (k0 & p & ps & H & Hk).
  apply (cat_lookup_push _ _ k q) in H as (ps' & H).
  exists k0, p, ps'. auto.
Qed.

Lemma has_fallback_load ls : forall cur c,
  has_fallback c -> has_fallback (load_lines ls cur c).
Proof.
  induction ls as [|[k|nm cont] ls IH]; intros cur c H; simpl.
  - exact H.
  - apply IH, has_fallback_touch, H.
  - destruct (cat_lookup c cur); [|exact H].
    apply IH, has_fallback_push, H.
Qed.

Lemma new_catalog_has_fallback defaults file :
  (exists p, p ∈ defaults /\ category p <> custom_key) ->
  has_fallback (new_catalog defaults file).
Proof.
  intros H. unfold new_catalog.
  assert (H0 : has_fallback (init_default_prompts defaults []))
    by (apply init_default_prompts_has_fallback; right; exact H).
  destruct file; [apply has_fallback_load|]; exact H0.
Qed.

Lemma cat_lookup_key c k l : cat_lookup c k = Some l -> k ∈ map fst c.
Proof.
  induction c as [|[k0 ps] c IH]; simpl; [discriminate|].
  destruct (String.eqb k0 k) eqn:E.
  - apply String.eqb_eq in E. subst. intros _. left.
  - intros H. right. auto.
Qed.

Lemma remove_first_other x l k : k ∈ l -> k <> x -> k ∈ remove_first x l.
Proof.
  induction l as [|y l IH]; intros Hin Hk; [inversion Hin|]. simpl.
  destruct (String.eqb y x) eqn:E.
  - apply String.eqb_eq in E. subst.
    apply elem_of_cons in Hin as [->|Hin]; [contradiction|exact Hin].
  - apply elem_of_cons in Hin as [->|Hin]; [left|right; auto].
Qed.

Lemma has_fallback_pool c : has_fallback c -> fallback_pool c <> [].
Proof.
  intros (k & p & ps & H & Hk).
  assert (Hp : p ∈ fallback_pool c).
  { unfold fallback_pool. apply (all_available_elem c _ k).
    - apply remove_first_other; [|exact Hk].
      unfold available_categories. apply list_elem_of_In, filter_In. split.
      + apply list_elem_of_In, (cat_lookup_key _ _ _ H).
      + unfold cat_get. rewrite H. reflexivity.
    - unfold cat_get. rewrite H. left. }
  intros E. rewrite E in Hp. inversion Hp.
Qed.

(** With nothing but custom prompts the fallback has nothing to draw
    from, and the selection is the reserved custom prompts alone. *)
Lemma select_balanced_prompts_only_custom c n g :
  fallback_pool c = [] ->
  length (fst (select_balanced_prompts c n g)) = Nat.min n (reserved_custom c n).
Proof.
  intros Hpool. unfold select_balanced_prompts.
  destruct (available_categories c) as [|k0 av] eqn:Eav.
  { unfold reserved_custom.
    destruct (cat_lookup c custom_key) as [[|p ps]|] eqn:El; simpl; try lia.
    exfalso.
    assert (Hin : custom_key ∈ available_categories c).
    { unfold available_categories. apply list_elem_of_In, filter_In. split.
      - apply list_elem_of_In, (cat_lookup_key _ _ _ El).
      - unfold cat_get. rewrite El. reflexivity. }
    rewrite Eav in Hin. inversion Hin. }
  clear Eav.
  unfold balanced_selection.
  pose proof (custom_phase_spec c n g) as Hc.
  destruct (custom_phase c n g) as [[cs cats] g0].
  destruct Hc as (Hcats & Hlen & _).
  assert (Hnil : cats = []).
  { destruct cats as [|k cats']; [reflexivity|]. exfalso.
    assert (Hk : k ∈ available_categories c)
      by (apply (remove_first_subset custom_key); rewrite <- Hcats; left).
    apply available_nonempty in Hk.
    unfold fallback_pool in Hpool. rewrite <- Hcats in Hpool.
    unfold all_available in Hpool. simpl in Hpool.
    destruct (cat_get c k); [contradiction|discriminate]. }
  rewrite Hnil, andb_false_r.
  pose proof (shuffle_Permutation cs g0) as Hperm.
  destruct (shuffle cs g0) as [mixed g2]. cbn [fst] in Hperm |- *.
  rewrite length_take, Hperm, Hlen. reflexivity.
Qed.

(** C3.  When no category holds a prompt the selection is empty.
    Otherwise, for every [n >= 1] and every catalogue in which the
    with-replacement fallback has something to draw from (some category
    other than the custom one holds a prompt), the selection has exactly
    [n] prompts: [min(customCount, max(1, n / 5))] of them are custom
    prompts and the others come from the other non-empty categories. *)
Theorem select_balanced_prompts_exact c n g :
  (available_categories c = [] -> fst (select_balanced_prompts c n g) = []) /\
  (1 <= n -> fallback_pool c <> [] ->
   length (fst (select_balanced_prompts c n g)) = n /\
   exists customs others,
     fst (select_balanced_prompts c n g) ≡ₚ customs ++ others /\
     length customs = reserved_custom c n /\
     (forall x, x ∈ customs -> x ∈ cat_get c custom_key) /\
     (forall x, x ∈ others -> x ∈ fallback_pool c)).
Proof.
  split.
  - apply select_balanced_prompts_empty.
  - apply select_balanced_prompts_spec.
Qed.

(** C3, at a catalogue of three categories, for seven prompts. *)
Lemma select_balanced_prompts_exact_witness :
  (1 <= 7 /\ fallback_pool demo_catalog <> []) /\
  length (fst (select_balanced_prompts demo_catalog 7 [3; 1; 4; 1; 5; 9; 2; 6])) = 7.
Proof.
  assert (H1 : 1 <= 7) by lia.
  assert (H2 : fallback_pool demo_catalog <> []) by (vm_compute; discriminate).
  split; [auto|].
  exact (proj1 (proj2 (select_balanced_prompts_exact demo_catalog 7
                         [3; 1; 4; 1; 5; 9; 2; 6]) H1 H2)).
Defined.

(** ** Control flags *)

Lemma arrive_nil f : arrive [] f = f.
Proof. reflexivity. Qed.

Lemma arrive_app cs1 cs2 f : arrive (cs1 ++ cs2) f = arrive cs2 (arrive cs1 f).
Proof. unfold arrive. apply foldl_app. Qed.

Lemma arrive_cancelled cs f :
  is_cancelled f = true -> is_cancelled (arrive cs f) = true.
Proof.
  revert f. induction cs as [|c cs IH]; intros f H; [exact H|].
  simpl. apply IH. destruct c; simpl; auto.
Qed.

Lemma arrive_cancel_free cs f :
  cancel_test ∉ cs -> is_cancelled (arrive cs f) = is_cancelled f.
Proof.
  revert f. induction cs as [|c cs IH]; intros f H; [reflexivity|].
  simpl. rewrite IH.
  - destruct c; simpl; try reflexivity. exfalso. apply H. left.
  - intros Hin. apply H. right. exact Hin.
Qed.


Lemma arrive_take_S n (s : Schedule) f :
  arrive (concat (take (S n) s)) f =
  arrive (concat (take n (tail s))) (arrive (default [] (head s)) f).
Proof.
  destruct s as [|cs s]; simpl.
  - rewrite take_nil. reflexivity.
  - apply arrive_app.
Qed.

Lemma arrive_take_drop n (s : Schedule) f :
  arrive (concat (drop n s)) (arrive (concat (take n s)) f) = arrive (concat s) f.
Proof.
  rewrite <- arrive_app, <- concat_app, take_drop. reflexivity.
Qed.

Lemma drop_S_tail {A} n (l : list A) : drop (S n) l = drop n (tail l).
Proof. destruct l; simpl; [rewrite drop_nil|]; reflexivity. Qed.

(** ** Traces *)

Lemma round_signals_app tr1 tr2 :
  round_signals (tr1 ++ tr2) = round_signals tr1 ++ round_signals tr2.
Proof. unfold round_signals. apply omap_app. Qed.

Lemma round_signals_outcomes outs :
  round_signals (map (fun o => test_round_completed (fst o) (snd o)) outs) = outs.
Proof.
  induction outs as [|[r l] outs IH]; [reflexivity|].
  simpl. unfold round_signals in *. simpl. rewrite IH. reflexivity.
Qed.

Lemma nonterminal_outcomes (outs : list (TestResult * string)) :
  forallb (fun e => negb (is_terminal e))
    (map (fun o => test_round_completed (fst o) (snd o)) outs) = true.
Proof. induction outs as [|o outs IH]; [reflexivity|simpl; exact IH]. Qed.

Lemma forallb_app_true {A} (p : A -> bool) l1 l2 :
  forallb p l1 = true -> forallb p l2 = true -> forallb p (l1 ++ l2) = true.
Proof. intros H1 H2. rewrite forallb_app, H1, H2. reflexivity. Qed.

(** ** The continuation relation *)

Lemma grows_refl st : grows st st [].
Proof.
  unfold grows. simpl. rewrite app_nil_r. split; [reflexivity|].
  split; [exists []; rewrite app_nil_r; auto|]. auto 10.
Qed.

Lemma grows_trans st1 st2 st3 o1 o2 :
  grows st1 st2 o1 -> grows st2 st3 o2 -> grows st1 st3 (o1 ++ o2).
Proof.
  intros (R1 & (t1 & T1 & S1 & N1) & M1 & I1 & L1 & P1 & G1 & K1)
         (R2 & (t2 & T2 & S2 & N2) & M2 & I2 & L2 & P2 & G2 & K2).
  unfold grows. rewrite R2, R1, map_app, app_assoc. split; [reflexivity|].
  split.
  { exists (t1 ++ t2). rewrite T2, T1, app_assoc, round_signals_app, S1, S2.
    split; [reflexivity|]. split; [reflexivity|]. apply forallb_app_true; assumption. }
  rewrite M2, I2, L2, P2, G2. repeat (split; [assumption|]).
  intros k Hk1 Hk2. rewrite K2, K1; auto.
Qed.

Lemma grows_after_outcomes outs n st : grows st (after_outcomes outs n st) outs.
Proof.
  unfold grows, after_outcomes. simpl. split; [reflexivity|]. split.
  { eexists. split; [reflexivity|]. split;
      [apply round_signals_outcomes|apply nonterminal_outcomes]. }
  auto 10.
Qed.

Lemma set_results_same rep : set_results (results rep ++ []) rep = rep.
Proof. destruct rep. unfold set_results. simpl. rewrite app_nil_r. reflexivity. Qed.

Lemma read_after st : read st = after_outcomes [] 1 st.
Proof.
  unfold read, after_outcomes. destruct st as [f s rep tr c]. simpl.
  rewrite set_results_same, app_nil_r, Nat.add_0_r.
  destruct s as [|cs s]; simpl; [reflexivity|].
  rewrite app_nil_r, drop_0. reflexivity.
Qed.

Lemma grows_read st : grows st (read st) [].
Proof. rewrite read_after. apply grows_after_outcomes. Qed.

Lemma record_after r l outs m st :
  after_outcomes outs m (record_result r l (read st)) =
  after_outcomes ((r, l) :: outs) (S m) st.
Proof.
  unfold after_outcomes, record_result, append_result, read.
  destruct st as [f s rep tr c]. simpl.
  rewrite <- !app_assoc. simpl.
  rewrite <- arrive_take_S, <- drop_S_tail.
  destruct rep. unfold set_results. simpl. rewrite <- ?app_assoc. simpl.
  f_equal. lia.
Qed.

(** ** Collecting the futures of a round *)

Lemma outcomes_from_length env users round slot ps :
  length (outcomes_from env users round slot ps) = length ps.
Proof.
  revert slot. induction ps as [|p ps IH]; intros slot; [reflexivity|].
  simpl. rewrite IH. reflexivity.
Qed.

(** The loop records the outcomes of the first [collected] futures and
    stops at the read that sees the cancellation. *)
Lemma collect_spec env users round slot ps st :
  let j := collected (flags st) (sched st) (length ps) in
  collect env users round slot ps st =
  after_outcomes (take j (outcomes_from env users round slot ps))
    (Nat.min (S j) (length ps)) st.
Proof.
  revert slot st. induction ps as [|p ps IH]; intros slot st.
  - simpl. unfold after_outcomes. destruct st as [f s rep tr c]. simpl.
    rewrite set_results_same, app_nil_r, Nat.add_0_r, drop_0. reflexivity.
  - cbn [collect collected length outcomes_from].
    change (arrive (default [] (head (sched st))) (flags st)) with (flags (read st)).
    change (tail (sched st)) with (sched (read st)).
    destruct (is_cancelled (flags (read st))) eqn:E.
    + simpl. apply read_after.
    + rewrite IH. cbn [flags sched record_result append_result].
      rewrite record_after. reflexivity.
Qed.

Lemma collected_le f s n : collected f s n <= n.
Proof.
  revert f s. induction n as [|n IH]; intros f s; simpl; [lia|].
  destruct (is_cancelled _); [lia|]. specialize (IH (arrive (default [] (head s)) f) (tail s)). lia.
Qed.

Lemma cancel_free_take_S n (s : Schedule) :
  cancel_free (take (S n) s) ->
  (cancel_test ∉ default [] (head s)) /\ cancel_free (take n (tail s)).
Proof.
  destruct s as [|cs s]; simpl.
  - intros _. split; [apply not_elem_of_nil|]. rewrite take_nil. constructor.
  - intros H. inversion H; subst. split; assumption.
Qed.

Lemma collected_cancel_free f s n :
  is_cancelled f = false -> cancel_free (take n s) -> collected f s n = n.
Proof.
  revert f s. induction n as [|n IH]; intros f s Hf Hs; [reflexivity|].
  apply cancel_free_take_S in Hs as [H1 H2]. simpl.
  rewrite (arrive_cancel_free _ _ H1), Hf. f_equal. apply IH; [|exact H2].
  rewrite (arrive_cancel_free _ _ H1). exact Hf.
Qed.

Lemma tick_S n (s : Schedule) : tick (S n) s = tick n (tail s).
Proof. unfold tick. destruct s; reflexivity. Qed.

(** ** Submitting the tasks of a round *)

Lemma submit_all_spec round slot nclients ps st :
  exists tr,
    submit_all round slot nclients ps st =
      mkLoop (flags st) (sched st) (report st) (trace st ++ tr) (completed st) /\
    round_signals tr = [] /\
    forallb (fun e => negb (is_terminal e)) tr = true.
Proof.
  revert slot st. induction ps as [|p ps IH]; intros slot st.
  - exists []. simpl. rewrite app_nil_r. destruct st; auto.
  - simpl. destruct (IH (S slot) (emit (task_submitted round slot ((slot - 1) mod nclients)) st))
      as (tr & E & S & N).
    exists (task_submitted round slot ((slot - 1) mod nclients) :: tr).
    rewrite E. simpl. rewrite <- app_assoc. simpl. auto.
Qed.

Lemma grows_submit_all round slot nclients ps st :
  grows st (submit_all round slot nclients ps st) [].
Proof.
  destruct (submit_all_spec round slot nclients ps st) as (tr & E & S & N).
  rewrite E. unfold grows. simpl. rewrite app_nil_r.
  split; [reflexivity|]. split; [exists tr; auto|]. auto 10.
Qed.

(** ** The pause loop *)

Lemma list_ind2 {A} (P : list A -> Prop) :
  P [] -> (forall x, P [x]) -> (forall x y l, P l -> P (x :: y :: l)) ->
  forall l, P l.
Proof.
  intros H0 H1 H2.
  assert (H : forall l, P l /\ forall x, P (x :: l)).
  { induction l as [|y l [IH1 IH2]]; split; auto. }
  intros l. apply H.
Qed.

Lemma same_but_pause_mark tp tp' :
  same_but_pause (mark_paused tp) tp' -> same_but_pause tp tp'.
Proof.
  intros H k H1 H2. rewrite (H k H1 H2). unfold mark_paused.
  rewrite !lookup_insert_ne by congruence. reflexivity.
Qed.

(** When the loop ends it has consumed some reads, it has touched only
    the two pause entries, and its last read found the worker resumed or
    cancelled. *)
Lemma pause_wait_spec s : forall f tp f' tp' s',
  pause_wait s f tp = Some (f', tp', s') ->
  (exists m, s' = drop m s /\ f' = arrive (concat (take m s)) f) /\
  same_but_pause tp tp' /\
  (is_paused f' = false \/ is_cancelled f' = true).
Proof.
  induction s as [|cs|cs cs2 s2 IH] using list_ind2; intros f tp f' tp' s' H.
  - simpl in H. destruct (is_paused f) eqn:Ep; destruct (is_cancelled f) eqn:Ec;
      simpl in H; try discriminate; injection H as <- <- <-;
      (split; [exists 0; auto|]; split; [intros k _ _; reflexivity|]; auto).
  - simpl in H. destruct (is_paused (arrive cs f)) eqn:Ep.
    + destruct (is_cancelled (arrive cs f)) eqn:Ec; [|discriminate].
      injection H as <- <- <-.
      split; [exists 1; simpl; rewrite ?app_nil_r; auto|].
      split; [intros k _ _; reflexivity|]. auto.
    + injection H as <- <- <-.
      split; [exists 1; simpl; rewrite ?app_nil_r; auto|].
      split; [intros k _ _; reflexivity|]. auto.
  - simpl in H. destruct (is_paused (arrive cs f)) eqn:Ep.
    + destruct (is_cancelled (arrive cs2 (arrive cs f))) eqn:Ec.
      * injection H as <- <- <-.
        split; [exists 2; simpl; rewrite ?app_nil_r, ?drop_0, ?arrive_app; auto|].
        split; [intros k _ _; reflexivity|]. auto.
      * apply IH in H as ((m & -> & ->) & Hk & Hx).
        split; [exists (S (S m)); simpl; rewrite ?arrive_app; auto|].
        split; [apply same_but_pause_mark, Hk|exact Hx].
    + injection H as <- <- <-.
      split; [exists 1; simpl; rewrite ?app_nil_r, ?drop_0; auto|].
      split; [intros k _ _; reflexivity|]. auto.
Qed.

(** The loop waits forever only if the GUI thread leaves the worker
    paused and not cancelled. *)
Lemma pause_wait_None s : forall f tp,
  pause_wait s f tp = None ->
  is_paused (arrive (concat s) f) = true /\
  is_cancelled (arrive (concat s) f) = false.
Proof.
  induction s as [|cs|cs cs2 s2 IH] using list_ind2; intros f tp H.
  - simpl in H. destruct (is_paused f) eqn:Ep; destruct (is_cancelled f) eqn:Ec;
      simpl in H; try discriminate. simpl. auto.
  - simpl in H. simpl. rewrite app_nil_r.
    destruct (is_paused (arrive cs f)) eqn:Ep; [|discriminate].
    destruct (is_cancelled (arrive cs f)) eqn:Ec; [discriminate|]. auto.
  - simpl in H. simpl. rewrite !arrive_app.
    destruct (is_paused (arrive cs f)) eqn:Ep; [|discriminate].
    destruct (is_cancelled (arrive cs2 (arrive cs f))) eqn:Ec; [discriminate|].
    apply IH in H. exact H.
Qed.

(** ** Schedules *)

Lemma quiet_cancel_free s : quiet s -> cancel_free s.
Proof.
  unfold quiet, cancel_free. intros H. eapply Forall_impl; [exact H|].
  intros cs ->. apply not_elem_of_nil.
Qed.

Lemma quiet_concat s : quiet s -> concat s = [].
Proof.
  induction 1 as [|cs s Hcs _ IH]; [reflexivity|]. simpl. rewrite Hcs, IH. reflexivity.
Qed.

Lemma cancel_free_concat s : cancel_free s -> cancel_test ∉ concat s.
Proof.
  induction 1 as [|cs s Hcs _ IH]; simpl; [apply not_elem_of_nil|].
  rewrite elem_of_app. tauto.
Qed.

Lemma cancel_free_take n s : cancel_free s -> cancel_free (take n s).
Proof. apply Forall_take. Qed.

Lemma cancel_free_drop n s : cancel_free s -> cancel_free (drop n s).
Proof. apply Forall_drop. Qed.

(** ** One round *)

Lemma take_all_outcomes env users round slot ps :
  take (length ps) (outcomes_from env users round slot ps) =
  outcomes_from env users round slot ps.
Proof. apply take_ge. rewrite outcomes_from_length. lia. Qed.

Lemma run_round_spec env users nclients round_num prompts st :
  users <> 0 ->
  let ps := current_prompts users round_num prompts in
  let j := collected (flags st) (sched st) (length ps) in
  let m := Nat.min (S j) (length ps) in
  exists st',
    run_round env users nclients round_num prompts st = finished st' /\
    grows st st' (take j (round_outcomes env users prompts round_num)) /\
    flags st' = arrive (concat (take m (sched st))) (flags st) /\
    sched st' = drop m (sched st) /\
    test_params (report st') = test_params (report st).
Proof.
  intros Hu ps j m. unfold run_round. fold ps.
  destruct (users =? 0)%nat eqn:E; [apply Nat.eqb_eq in E; contradiction|].
  eexists. split; [reflexivity|].
  destruct (submit_all_spec (S round_num) 1 nclients ps st) as (tr & Es & Ss & Ns).
  pose proof (grows_submit_all (S round_num) 1 nclients ps st) as G.
  rewrite collect_spec. rewrite Es in *. cbn [flags sched]. fold j. fold m.
  split; [|split; [|split]]; try reflexivity.
  replace (take j (round_outcomes env users prompts round_num)) with
    ([] ++ take j (round_outcomes env users prompts round_num)) by reflexivity.
  eapply grows_trans; [exact G|]. apply grows_after_outcomes.
Qed.

Lemma grows_with_control f tp s st :
  same_but_pause (test_params (report st)) tp ->
  grows st (with_control f tp s st) [].
Proof.
  intros H. unfold grows, with_control. simpl. rewrite app_nil_r.
  split; [reflexivity|]. split; [exists []; rewrite app_nil_r; auto|]. auto 10.
Qed.

(** ** The round loop, for any schedule *)

Lemma final_flags_read st : final_flags (read st) = final_flags st.
Proof.
  unfold final_flags, read. simpl. destruct (sched st) as [|cs s]; simpl; [reflexivity|].
  rewrite arrive_app. reflexivity.
Qed.

(** Whatever the GUI thread does, the loop only appends: results,
    their signals, and no terminal signal. *)
Lemma rounds_grows env users nclients prompts todo : forall round_num st out,
  rounds env users nclients prompts todo round_num st = Some out ->
  match out with
  | finished st' => exists outs, grows st st' outs
  | raised _ tr =>
      exists tr', tr = trace st ++ tr' /\
                  forallb (fun e => negb (is_terminal e)) tr' = true
  end.
Proof.
  induction todo as [|todo IH]; intros round_num st out H.
  - simpl in H. injection H as <-. exists []. apply grows_refl.
  - cbn [rounds] in H. destruct (is_cancelled (flags (read st))) eqn:Ec.
    { injection H as <-. exists []. apply grows_read. }
    destruct (pause_wait _ _ _) as [[[f tp] s]|] eqn:Ep; [|discriminate].
    apply pause_wait_spec in Ep as (_ & Hk & _).
    pose proof (grows_read st) as G1.
    pose proof (grows_with_control f tp s (read st) Hk) as G2.
    destruct (Nat.eq_dec users 0) as [->|Hu].
    + unfold run_round in H. simpl in H. injection H as <-.
      exists []. rewrite app_nil_r. split; reflexivity.
    + destruct (run_round_spec env users nclients round_num prompts
                  (with_control f tp s (read st)) Hu) as (st2 & E & G3 & _).
      rewrite E in H. apply IH in H.
      pose proof (grows_trans _ _ _ _ _ (grows_trans _ _ _ _ _ G1 G2) G3) as G.
      destruct out as [st'|e tr].
      * destruct H as (outs & G4). eexists. eapply grows_trans; eassumption.
      * destruct H as (tr' & -> & N).
        destruct G as (_ & (t & -> & _ & Nt) & _).
        exists (t ++ tr'). rewrite app_assoc. split; [reflexivity|].
        apply forallb_app_true; assumption.
Qed.

(** The loop fails to return only if the worker is left paused. *)
Lemma rounds_None env users nclients prompts todo : forall round_num st,
  rounds env users nclients prompts todo round_num st = None ->
  is_paused (final_flags st) = true /\ is_cancelled (final_flags st) = false.
Proof.
  induction todo as [|todo IH]; intros round_num st H; [discriminate|].
  cbn [rounds] in H. rewrite <- final_flags_read.
  destruct (is_cancelled (flags (read st))) eqn:Ec; [discriminate|].
  destruct (pause_wait _ _ _) as [[[f tp] s]|] eqn:Ep.
  - apply pause_wait_spec in Ep as ((m & -> & ->) & _ & _).
    destruct (Nat.eq_dec users 0) as [->|Hu].
    + unfold run_round in H. simpl in H. discriminate.
    + destruct (run_round_spec env users nclients round_num prompts
                  (with_control (arrive (concat (take m (sched (read st)))) (flags (read st)))
                     tp (drop m (sched (read st))) (read st)) Hu)
        as (st2 & E & _ & Ef & Es & _).
      rewrite E in H. apply IH in H.
      unfold final_flags in *. rewrite Ef, Es in H. cbn [flags sched with_control] in H.
      rewrite !arrive_take_drop in H. exact H.
  - apply pause_wait_None in Ep. exact Ep.
Qed.

(** ** The round loop when nobody cancels *)

Lemma rounds_cancel_free env users nclients prompts todo : forall round_num st out,
  users <> 0 -> cancel_free (sched st) -> is_cancelled (flags st) = false ->
  rounds env users nclients prompts todo round_num st = Some out ->
  exists st', out = finished st' /\
    grows st st' (rounds_outcomes env users prompts round_num todo) /\
    is_cancelled (flags st') = false.
Proof.
  induction todo as [|todo IH]; intros round_num st out Hu Hs Hf H.
  - simpl in H. injection H as <-. exists st. split; [reflexivity|].
    split; [apply grows_refl|exact Hf].
  - cbn [rounds] in H.
    assert (Hs1 : cancel_free (sched (read st))).
    { unfold read. simpl. destruct (sched st); [constructor|]. inversion Hs; assumption. }
    assert (Hf1 : is_cancelled (flags (read st)) = false).
    { unfold read. simpl. rewrite arrive_cancel_free; [exact Hf|].
      destruct (sched st); simpl; [apply not_elem_of_nil|]. inversion Hs; assumption. }
    rewrite Hf1 in H.
    destruct (pause_wait _ _ _) as [[[f tp] s]|] eqn:Ep; [|discriminate].
    apply pause_wait_spec in Ep as ((m & -> & ->) & Hk & _).
    set (stc := with_control _ tp _ (read st)) in H.
    destruct (run_round_spec env users nclients round_num prompts stc Hu)
      as (st2 & E & G3 & Ef & Es & _).
    rewrite E in H.
    assert (Hfc : is_cancelled (flags stc) = false).
    { subst stc. cbn [flags with_control]. rewrite arrive_cancel_free; [exact Hf1|].
      apply cancel_free_concat, cancel_free_take, Hs1. }
    assert (Hsc : cancel_free (sched stc)).
    { subst stc. cbn [sched with_control]. apply cancel_free_drop, Hs1. }
    rewrite (collected_cancel_free _ _ _ Hfc (cancel_free_take _ _ Hsc)) in G3, Ef, Es.
    unfold round_outcomes in G3 at 1. rewrite take_all_outcomes in G3.
    fold (round_outcomes env users prompts round_num) in G3.
    apply IH in H as (st' & -> & G4 & Hf'); [|exact Hu| |].
    + exists st'. split; [reflexivity|]. split; [|exact Hf'].
      pose proof (grows_trans _ _ _ _ _
                    (grows_trans _ _ _ _ _ (grows_read st)
                       (grows_with_control _ tp _ (read st) Hk)) G3) as G.
      exact (grows_trans _ _ _ _ _ G G4).
    + rewrite Es. apply cancel_free_drop, Hsc.
    + rewrite Ef. rewrite arrive_cancel_free; [exact Hfc|].
      apply cancel_free_concat, cancel_free_take, Hsc.
Qed.

(** ** The prompts of a round; ticks *)

Lemma current_prompts_length users round_num (prompts : list TestPrompt) :
  S round_num * users <= length prompts ->
  length (current_prompts users round_num prompts) = users.
Proof.
  intros H. unfold current_prompts. rewrite length_take, length_drop. simpl in H. lia.
Qed.

Lemma head_tick (s : Schedule) : default [] (head s) = tick 0 s.
Proof. destruct s; reflexivity. Qed.

Lemma tail_drop {A} (l : list A) : tail l = drop 1 l.
Proof. destruct l; simpl; [|rewrite drop_0]; reflexivity. Qed.

Lemma tick_drop n i (s : Schedule) : tick i (drop n s) = tick (n + i) s.
Proof. unfold tick. f_equal. apply lookup_drop. Qed.

Lemma rounds_outcomes_S env users prompts round_num n :
  rounds_outcomes env users prompts round_num (S n) =
  round_outcomes env users prompts round_num ++
  rounds_outcomes env users prompts (S round_num) n.
Proof. reflexivity. Qed.

(** ** The final aggregation *)

Lemma load_time_step_results rep : results (load_time_step rep) = results rep.
Proof. unfold load_time_step. destruct (other_latencies _); reflexivity. Qed.

Lemma averages_step_results rep : results (averages_step rep) = results rep.
Proof. unfold averages_step. destruct (valid_results _); reflexivity. Qed.

Lemma finalize_results rep : results (finalize rep) = results rep.
Proof.
  unfold finalize. destruct (1 <? length (results rep))%nat; [|reflexivity].
  rewrite averages_step_results. apply load_time_step_results.
Qed.

Lemma short_results_tail (rs : list TestResult) :
  (1 <? length rs)%nat = false -> tail rs = [].
Proof.
  intros H. apply Nat.ltb_ge in H. destruct rs as [|r [|r' rs]]; simpl in *; try reflexivity. lia.
Qed.

Lemma finalize_averages rep :
  let v := valid_results (results rep) in
  (v <> [] ->
     avg_first_token_latency (finalize rep) = Qmean (map first_token_latency v) /\
     avg_tokens_per_second (finalize rep) = Qmean (map tokens_per_second v) /\
     performance_rating (finalize rep) =
       worker_rating (avg_tokens_per_second (finalize rep))) /\
  (v = [] ->
     avg_first_token_latency (finalize rep) = avg_first_token_latency rep /\
     avg_tokens_per_second (finalize rep) = avg_tokens_per_second rep /\
     performance_rating (finalize rep) = performance_rating rep).
Proof.
  intros v. unfold finalize.
  destruct (1 <? length (results rep))%nat eqn:E.
  - unfold averages_step. rewrite load_time_step_results. fold v.
    destruct v as [|r v'] eqn:Ev.
    + split; [intros H; contradiction|]. intros _.
      unfold load_time_step. destruct (other_latencies _); auto.
    + split; [|discriminate]. intros _. simpl. auto.
  - assert (Hv : v = []).
    { unfold v, valid_results. rewrite (short_results_tail _ E). reflexivity. }
    split; [intros H; contradiction|]. auto.
Qed.

Lemma finalize_load_time rep :
  let lat := other_latencies (results rep) in
  (lat <> [] ->
     test_params (finalize rep) !! "model_load_time" =
       Some (VNum (model_load_time (results rep)))) /\
  (lat = [] ->
     test_params (finalize rep) !! "model_load_time" =
       test_params rep !! "model_load_time").
Proof.
  intros lat. unfold finalize.
  assert (Ha : forall r, test_params (averages_step r) = test_params r).
  { intros r. unfold averages_step. destruct (valid_results _); reflexivity. }
  destruct (1 <? length (results rep))%nat eqn:E.
  - rewrite Ha. unfold load_time_step. fold lat.
    destruct lat as [|q lat'] eqn:El.
    + split; [intros H; contradiction|]. auto.
    + split; [|discriminate]. intros _. simpl.
      rewrite lookup_insert_ne by discriminate. apply lookup_insert_eq.
  - assert (Hl : lat = []).
    { unfold lat, other_latencies. rewrite (short_results_tail _ E). reflexivity. }
    split; [intros H; contradiction|]. auto.
Qed.

Lemma model_load_time_spec rs :
  (model_load_time rs ==
     Qmax 0 (warmup_latency rs - Qmean (other_latencies rs)) / 1000)%Q /\
  (0 <= model_load_time rs)%Q.
Proof.
  unfold model_load_time. split.
  - rewrite py_max0_is_max. reflexivity.
  - apply Qle_shift_div_l; [reflexivity|]. rewrite Qmult_0_l. apply py_max0_nonneg.
Qed.

(** ** The set-up *)

Lemma prepare_parallel_users env users o u nc w o' :
  prepare_parallel env users o = inr (u, nc, w, o') ->
  (u = users \/ u = 1) /\ (1 <= users -> 1 <= u /\ u <= users).
Proof.
  unfold prepare_parallel. intros H.
  destruct (1 <? users)%nat eqn:E1.
  - apply Nat.ltb_lt in E1.
    destruct (unpack2 (env_version env)) as [e|[version err]]; [discriminate|].
    destruct (env_check_parallel_support env version);
      destruct (env_num_parallel env) as [np|]; try discriminate;
      match type of H with context [(np <? ?x)%Z] => destruct (np <? x)%Z end;
      try (injection H as <- <- <- <-; split; [auto|lia]);
      match type of H with
        context [config_restart_ollama_service ?a ?b ?c] =>
          destruct (config_restart_ollama_service a b c) as [[ok message] o1]
      end;
      destruct ok; destruct (env_test_model env);
      injection H as <- <- <- <-; (split; [auto|lia]).
  - apply Nat.ltb_ge in E1. injection H as <- <- <- <-. split; [auto|lia].
Qed.

Lemma run_cases env model rounds_n users tp0 s :
  (exists e tr sp,
     setup_exception env users = Some e /\
     run env model rounds_n users tp0 s =
       Some (mkRunResult (tr ++ [error_occurred e]) sp) /\
     forallb (fun x => negb (is_terminal x)) tr = true) \/
  (exists u nc w o st0,
     setup_exception env users = None /\
     prepare_parallel env users (service_after_startup env) = inr (u, nc, w, o) /\
     fresh_start env model rounds_n users tp0 s st0 /\
     run env model rounds_n users tp0 s =
       conclude rounds_n users (store_warning w (init_test_params tp0 rounds_n users))
         (rounds env u nc (run_prompts env rounds_n users) rounds_n 0 st0)).
Proof.
  unfold run, startup, setup_exception, service_after_startup.
  destruct (env_system_info env) as [e|info].
  { left. exists e, [progress_updated 0 (rounds_n * users)], (init_test_params tp0 rounds_n users).
    auto. }
  destruct (env_original_config env) as [e|].
  { left. exists e, [progress_updated 0 (rounds_n * users)], (init_test_params tp0 rounds_n users).
    auto. }
  destruct (config_restart_ollama_service env None (env_service env)) as [[ok message] o1].
  cbn [snd].
  destruct (prepare_parallel env users o1) as [e|[[[u nc] w] o]].
  - left. eexists e, _, _. split; [reflexivity|]. split; [reflexivity|]. reflexivity.
  - right. eexists u, nc, w, o, _. split; [reflexivity|]. split; [reflexivity|].
    split; [|reflexivity].
    unfold fresh_start, warm_up, append_result. simpl. repeat split; reflexivity.
Qed.

Lemma rounds_finished env users nclients prompts todo : forall round_num st out,
  users <> 0 ->
  rounds env users nclients prompts todo round_num st = Some out ->
  exists st', out = finished st'.
Proof.
  induction todo as [|todo IH]; intros round_num st out Hu H.
  - simpl in H. injection H as <-. eauto.
  - cbn [rounds] in H. destruct (is_cancelled (flags (read st))).
    { injection H as <-. eauto. }
    destruct (pause_wait _ _ _) as [[[f tp] s]|]; [|discriminate].
    destruct (run_round_spec env users nclients round_num prompts
                (with_control f tp s (read st)) Hu) as (st2 & E & _).
    rewrite E in H. eapply IH; eassumption.
Qed.

Lemma rounds_outcomes_length env users prompts round_num n :
  (round_num + n) * users <= length prompts ->
  length (rounds_outcomes env users prompts round_num n) = n * users.
Proof.
  revert round_num. induction n as [|n IH]; intros round_num H; [reflexivity|].
  rewrite rounds_outcomes_S, length_app, IH by lia.
  unfold round_outcomes. rewrite outcomes_from_length, current_prompts_length by lia.
  simpl. lia.
Qed.

Lemma outcomes_from_labels env users round slot ps :
  map snd (outcomes_from env users round slot ps) =
  map (round_label users round) (seq slot (length ps)).
Proof.
  revert slot. induction ps as [|p ps IH]; intros slot; [reflexivity|].
  simpl. rewrite IH. reflexivity.
Qed.

(** The labels continue from round to round: round [k], slots [1..users]. *)
Lemma rounds_outcomes_labels env users prompts round_num n :
  (round_num + n) * users <= length prompts ->
  map snd (rounds_outcomes env users prompts round_num n) =
  flat_map (fun k => map (round_label users (S k)) (seq 1 users)) (seq round_num n).
Proof.
  revert round_num. induction n as [|n IH]; intros round_num H; [reflexivity|].
  rewrite rounds_outcomes_S, map_app, IH by lia. simpl. f_equal.
  unfold round_outcomes. rewrite outcomes_from_labels, current_prompts_length by lia.
  reflexivity.
Qed.

Lemma run_prompts_enough env rounds_n users u :
  fallback_pool (env_catalog env) <> [] -> u <= users ->
  rounds_n * u <= length (run_prompts env rounds_n users).
Proof.
  intros Hpool Hu. unfold run_prompts.
  destruct (Nat.eq_dec (rounds_n * users) 0) as [E|E].
  - assert (rounds_n * u = 0) by nia. lia.
  - destruct (select_balanced_prompts_spec (env_catalog env) (rounds_n * users)
                (env_rng env)) as [-> _]; [lia|exact Hpool|]. nia.
Qed.

(** ** Whole runs *)

Lemma final_report_conclude rounds_n users sp st' rep :
  final_report
    (mkRunResult
       (trace st' ++ [progress_updated (rounds_n * users) (rounds_n * users);
                      test_completed (finalize (report st'))]) sp) = Some rep ->
  rep = finalize (report st').
Proof.
  unfold final_report. cbn [emitted].
  rewrite last_app. simpl. intros H. injection H as <-. reflexivity.
Qed.

Lemma final_report_error tr e sp :
  final_report (mkRunResult (tr ++ [error_occurred e]) sp) = None.
Proof. unfold final_report. cbn [emitted]. rewrite last_snoc. reflexivity. Qed.

(** What every completed run looks like: the loop started from the
    state after round 0 and the report is the aggregation of what it
    left. *)
Lemma run_completed env model rounds_n users tp0 s rr rep :
  run env model rounds_n users tp0 s = Some rr ->
  final_report rr = Some rep ->
  exists u nc w o st0 st',
    setup_exception env users = None /\
    prepare_parallel env users (service_after_startup env) = inr (u, nc, w, o) /\
    fresh_start env model rounds_n users tp0 s st0 /\
    rounds env u nc (run_prompts env rounds_n users) rounds_n 0 st0 = Some (finished st') /\
    rr = mkRunResult
           (trace st' ++ [progress_updated (rounds_n * users) (rounds_n * users);
                          test_completed (finalize (report st'))])
           (store_warning w (init_test_params tp0 rounds_n users)) /\
    rep = finalize (report st').
Proof.
  intros Hrun Hrep.
  destruct (run_cases env model rounds_n users tp0 s)
    as [(e & tr & sp & _ & E & _)|(u & nc & w & o & st0 & Hs & Hp & Hst & E)].
  - rewrite E in Hrun. injection Hrun as <-. rewrite final_report_error in Hrep. discriminate.
  - rewrite E in Hrun. unfold conclude in Hrun.
    destruct (rounds env u nc _ rounds_n 0 st0) as [[st'|e tr]|] eqn:Er; try discriminate.
    + injection Hrun as <-. exists u, nc, w, o, st0, st'.
      repeat (split; [assumption || reflexivity|]).
      eapply final_report_conclude, Hrep.
    + injection Hrun as <-. rewrite final_report_error in Hrep. discriminate.
Qed.

Lemma effective_users_prepare env users u nc w o :
  prepare_parallel env users (service_after_startup env) = inr (u, nc, w, o) ->
  effective_users env users = Some u.
Proof. intros H. unfold effective_users. rewrite H. reflexivity. Qed.

Lemma fresh_start_final_flags env model rounds_n users tp0 s st0 :
  fresh_start env model rounds_n users tp0 s st0 ->
  final_flags st0 = arrive (concat s) flags0.
Proof. intros (Hf & Hs & _). unfold final_flags. rewrite Hf, Hs. reflexivity. Qed.

(** C1 (as amended).  Take a run with at least one user during which
    the GUI thread requests nothing, over a catalogue that holds a prompt
    outside the custom category.  If no collaborator raises during the
    set-up the run completes; and the report of a completed run holds
    exactly [1 + R * u] results, where [u] is the number of users the
    round loop works with: the requested number, or 1 when the set-up
    falls back to single-user mode.  The first result is that of round 0,
    the others are one per (round, slot) pair in order, whatever the
    individual requests do. *)
Theorem run_results_count env model rounds_n users tp0 s :
  1 <= users -> quiet s -> fallback_pool (env_catalog env) <> [] ->
  (setup_exception env users = None ->
   exists rr rep, run env model rounds_n users tp0 s = Some rr /\
                  final_report rr = Some rep) /\
  (forall rr rep,
     run env model rounds_n users tp0 s = Some rr ->
     final_report rr = Some rep ->
     exists u, effective_users env users = Some u /\ (u = users \/ u = 1) /\
       results rep =
         warmup_result env model ::
         map fst (rounds_outcomes env u (run_prompts env rounds_n users) 0 rounds_n) /\
       length (results rep) = 1 + rounds_n * u).
Proof.
  intros Hu Hq Hpool.
  assert (Hmain : forall u nc w o st0 out,
    prepare_parallel env users (service_after_startup env) = inr (u, nc, w, o) ->
    fresh_start env model rounds_n users tp0 s st0 ->
    rounds env u nc (run_prompts env rounds_n users) rounds_n 0 st0 = Some out ->
    exists st', out = finished st' /\
      results (finalize (report st')) =
        warmup_result env model ::
        map fst (rounds_outcomes env u (run_prompts env rounds_n users) 0 rounds_n) /\
      length (results (finalize (report st'))) = 1 + rounds_n * u).
  { intros u nc w o st0 out Hp Hst Hr.
    destruct (prepare_parallel_users _ _ _ _ _ _ _ Hp) as [_ Hu1].
    destruct (Hu1 Hu) as [Hu2 Hu3].
    destruct Hst as (Hf & Hs & Hres & _).
    destruct (rounds_cancel_free env u nc (run_prompts env rounds_n users) rounds_n 0 st0 out)
      as (st' & -> & G & _);
      [lia|rewrite Hs; apply quiet_cancel_free, Hq|rewrite Hf; reflexivity|exact Hr|].
    exists st'. split; [reflexivity|].
    destruct G as (Hr' & _). rewrite finalize_results, Hr', Hres.
    split; [reflexivity|]. simpl. rewrite length_map, rounds_outcomes_length; [lia|].
    simpl. apply run_prompts_enough; assumption. }
  split.
  - intros Hs.
    destruct (run_cases env model rounds_n users tp0 s)
      as [(e & tr & sp & He & _)|(u & nc & w & o & st0 & _ & Hp & Hst & E)];
      [congruence|].
    destruct (rounds env u nc (run_prompts env rounds_n users) rounds_n 0 st0) as [out|] eqn:Er.
    + destruct (Hmain _ _ _ _ _ _ Hp Hst Er) as (st' & -> & _).
      rewrite E. simpl. eexists _, _. split; [reflexivity|].
      unfold final_report. cbn [emitted]. rewrite last_app. reflexivity.
    + apply rounds_None in Er. rewrite (fresh_start_final_flags _ _ _ _ _ _ _ Hst) in Er.
      rewrite (quiet_concat _ Hq) in Er. destruct Er as [Er _]. discriminate.
  - intros rr rep Hrun Hrep.
    destruct (run_completed _ _ _ _ _ _ _ _ Hrun Hrep)
      as (u & nc & w & o & st0 & st' & _ & Hp & Hst & Hr & _ & ->).
    destruct (Hmain _ _ _ _ _ _ Hp Hst Hr) as (st'' & Heq & H1 & H2).
    injection Heq as <-.
    exists u. split; [eapply effective_users_prepare, Hp|].
    split; [apply (prepare_parallel_users _ _ _ _ _ _ _ Hp)|]. auto.
Qed.

(** C1, counterexample.  Two users are requested and the version of the
    server is unknown: the set-up falls back to one user, the run of one
    round completes normally and holds 2 results, not [1 + 1 * 2]. *)
Lemma run_results_count_counterexample :
  exists rr rep,
    run (demo_env "未知" false io_ok) "llama3:8b" 1 2 ∅ [] = Some rr /\
    final_report rr = Some rep /\
    length (results rep) = 2 /\ length (results rep) <> 1 + 1 * 2.
Proof.
  eexists _, _. split; [vm_compute; reflexivity|].
  split; [vm_compute; reflexivity|]. split; [reflexivity|]. vm_compute. lia.
Qed.

(** C1 (as amended), at two rounds with one user. *)
Lemma run_results_count_witness :
  let env := demo_env "未知" false io_ok in
  (1 <= 1 /\ quiet [] /\ fallback_pool (env_catalog env) <> []) /\
  exists rr rep,
    run env "llama3:8b" 2 1 ∅ [] = Some rr /\ final_report rr = Some rep /\
    length (results rep) = 1 + 2 * 1.
Proof.
  intros env.
  assert (H1 : 1 <= 1) by lia.
  assert (H2 : quiet []) by constructor.
  assert (H3 : fallback_pool (env_catalog env) <> []) by (vm_compute; discriminate).
  split; [auto|].
  destruct (run_results_count env "llama3:8b" 2 1 ∅ [] H1 H2 H3) as [A B].
  assert (H4 : setup_exception env 1 = None) by (vm_compute; reflexivity).
  destruct (A H4) as (rr & rep & Hr & Hf).
  exists rr, rep. split; [exact Hr|]. split; [exact Hf|].
  destruct (B rr rep Hr Hf) as (u & Hu & _ & _ & Hl).
  vm_compute in Hu. injection Hu as <-. exact Hl.
Defined.

(** ** The round loop read by read, and [rounds] *)

Section ReadByRead.
Variables (env : Env) (rounds_n users nclients : nat) (prompts : list TestPrompt).

Local Notation "'stp'" := (step env rounds_n users nclients prompts) (only parsing).

Lemma iter_add {A} (f : A -> A) a b x :
  Nat.iter (a + b) f x = Nat.iter b f (Nat.iter a f x).
Proof.
  rewrite Nat.add_comm. induction b as [|b IH]; [reflexivity|]. simpl. rewrite IH. reflexivity.
Qed.

Lemma iter_first {A} (f : A -> A) n x : Nat.iter (S n) f x = Nat.iter n f (f x).
Proof. change (S n) with (1 + n). apply iter_add. Qed.

Lemma iter_1 {A} (f : A -> A) x : Nat.iter 1 f x = f x.
Proof. reflexivity. Qed.

Lemma iter_ended n st : Nat.iter n stp (loop_ended, st) = (loop_ended, st).
Proof. induction n as [|n IH]; [reflexivity|]. simpl. rewrite IH. reflexivity. Qed.

Lemma set_test_params_same rep : set_test_params (test_params rep) rep = rep.
Proof. destruct rep. reflexivity. Qed.

(** The futures of a round, one read each. *)
Lemma collect_steps k : forall ps p slot st,
  exists m,
    Nat.iter m stp (at_future k slot p ps, st) =
    (next_round rounds_n (S k), collect env users (S k) slot (p :: ps) st).
Proof.
  induction ps as [|p' ps IH]; intros p slot st.
  - exists 1. cbn [Nat.iter nat_rect step collect].
    destruct (is_cancelled (flags (read st))); reflexivity.
  - cbn [collect]. destruct (is_cancelled (flags (read st))) eqn:E.
    + exists 1. cbn [Nat.iter nat_rect step]. rewrite E. reflexivity.
    + destruct (IH p' (S slot)
                  (record_result (future_result p (env_task env (S k) slot))
                     (round_label users (S k) slot) (read st))) as (m & Hm).
      exists (S m). rewrite iter_first. cbn [step]. rewrite E. exact Hm.
Qed.

Lemma read_cons f cs s rep tr c :
  read (mkLoop f (cs :: s) rep tr c) = mkLoop (arrive cs f) s rep tr c.
Proof. reflexivity. Qed.

Lemma read_nil f rep tr c : read (mkLoop f [] rep tr c) = mkLoop f [] rep tr c.
Proof. reflexivity. Qed.

(** The pause loop, one or two reads per iteration. *)
Lemma pause_steps k s : forall f tp f' tp' s' rep tr c,
  pause_wait s f tp = Some (f', tp', s') ->
  test_params rep = tp ->
  exists m,
    Nat.iter m stp (at_pause_check k, mkLoop f s rep tr c) =
    start_round rounds_n users nclients prompts k
      (mkLoop f' s' (set_test_params tp' rep) tr c).
Proof.
  induction s as [|cs|cs cs2 s2 IH] using list_ind2; intros f tp f' tp' s' rep tr c H Ht.
  - simpl in H.
    destruct (is_paused f) eqn:Ep; destruct (is_cancelled f) eqn:Ec;
      simpl in H; try discriminate; injection H as <- <- <-;
      rewrite <- Ht, set_test_params_same.
    + exists 2. rewrite iter_first. cbn [step]. rewrite read_nil. cbn [flags].
      rewrite Ep. cbn [Nat.iter nat_rect step]. rewrite read_nil. cbn [flags].
      rewrite Ec. reflexivity.
    + exists 1. cbn [Nat.iter nat_rect step]. rewrite read_nil. cbn [flags].
      rewrite Ep. reflexivity.
    + exists 1. cbn [Nat.iter nat_rect step]. rewrite read_nil. cbn [flags].
      rewrite Ep. reflexivity.
  - simpl in H.
    destruct (is_paused (arrive cs f)) eqn:Ep.
    + destruct (is_cancelled (arrive cs f)) eqn:Ec; [|discriminate].
      injection H as <- <- <-. rewrite <- Ht, set_test_params_same.
      exists 2. rewrite iter_first. cbn [step]. rewrite read_cons. cbn [flags].
      rewrite Ep. cbn [Nat.iter nat_rect step]. rewrite read_nil. cbn [flags].
      rewrite Ec. reflexivity.
    + injection H as <- <- <-. rewrite <- Ht, set_test_params_same.
      exists 1. cbn [Nat.iter nat_rect step]. rewrite read_cons. cbn [flags].
      rewrite Ep. reflexivity.
  - simpl in H.
    destruct (is_paused (arrive cs f)) eqn:Ep.
    + destruct (is_cancelled (arrive cs2 (arrive cs f))) eqn:Ec.
      * injection H as <- <- <-. rewrite <- Ht, set_test_params_same.
        exists 2. rewrite iter_first. cbn [step]. rewrite read_cons. cbn [flags].
        rewrite Ep. cbn [Nat.iter nat_rect step]. rewrite read_cons. cbn [flags].
        rewrite Ec. reflexivity.
      * destruct (IH _ _ _ _ _ (set_test_params (mark_paused tp) rep) tr c H eq_refl)
          as (m & Hm).
        exists (S (S m)). rewrite !iter_first. cbn [step]. rewrite read_cons. cbn [flags].
        rewrite Ep. cbn [step]. rewrite read_cons. cbn [flags].
        rewrite Ec. unfold with_control.
        cbn [flags sched report trace completed]. rewrite Ht, Hm.
        destruct rep. reflexivity.
    + injection H as <- <- <-. rewrite <- Ht, set_test_params_same.
      exists 1. cbn [Nat.iter nat_rect step]. rewrite read_cons. cbn [flags].
      rewrite Ep. reflexivity.
Qed.

(** The round loop as [rounds] runs it ends where the read-by-read
    account ends. *)
Lemma rounds_steps : forall todo k st st',
  k + todo = rounds_n ->
  rounds env users nclients prompts todo k st = Some (finished st') ->
  exists m, Nat.iter m stp (next_round rounds_n k, st) = (loop_ended, st').
Proof.
  induction todo as [|todo IH]; intros k st st' Hk H.
  - simpl in H. injection H as <-. exists 0. simpl. unfold next_round.
    replace (k <? rounds_n)%nat with false by (symmetry; apply Nat.ltb_ge; lia).
    reflexivity.
  - cbn [rounds] in H. unfold next_round.
    replace (k <? rounds_n)%nat with true by (symmetry; apply Nat.ltb_lt; lia).
    destruct (is_cancelled (flags (read st))) eqn:Ec.
    { injection H as <-. exists 1. rewrite iter_1. cbn [step]. rewrite Ec. reflexivity. }
    destruct (pause_wait _ _ _) as [[[f tp] s]|] eqn:Ep; [|discriminate].
    destruct (pause_steps k _ _ _ _ _ _ (report (read st)) (trace (read st))
                (completed (read st)) Ep eq_refl) as (m1 & Hm1).
    assert (Eeta : mkLoop (flags (read st)) (sched (read st)) (report (read st))
                     (trace (read st)) (completed (read st)) = read st) by reflexivity.
    rewrite Eeta in Hm1.
    change (mkLoop f s (set_test_params tp (report (read st))) (trace (read st))
              (completed (read st))) with (with_control f tp s (read st)) in Hm1.
    unfold run_round in H. unfold start_round in Hm1.
    destruct (users =? 0)%nat; [discriminate|].
    destruct (current_prompts users k prompts) as [|p ps] eqn:Eps.
    + cbn [collect] in H.
      destruct (IH (S k) _ _ ltac:(lia) H) as (m2 & Hm2).
      exists (1 + (m1 + m2)). rewrite iter_add, iter_1. cbn [step]. rewrite Ec.
      rewrite iter_add, Hm1. exact Hm2.
    + destruct (collect_steps k ps p 1
                  (submit_all (S k) 1 nclients (p :: ps) (with_control f tp s (read st))))
        as (m3 & Hm3).
      destruct (IH (S k) _ _ ltac:(lia) H) as (m2 & Hm2).
      exists (1 + (m1 + (m3 + m2))). rewrite iter_add, iter_1. cbn [step]. rewrite Ec.
      rewrite iter_add, Hm1, iter_add, Hm3. exact Hm2.
Qed.

End ReadByRead.

Lemma submitted_app tr1 tr2 : submitted (tr1 ++ tr2) = submitted tr1 ++ submitted tr2.
Proof. unfold submitted. apply omap_app. Qed.

Lemma submitted_submit_all round nclients ps : forall slot st,
  submitted (trace (submit_all round slot nclients ps st)) =
  submitted (trace st) ++ map (fun sl => (round, sl)) (seq slot (length ps)).
Proof.
  induction ps as [|p ps IH]; intros slot st; simpl.
  - rewrite app_nil_r. reflexivity.
  - rewrite IH. cbn [emit trace]. rewrite submitted_app. simpl.
    rewrite <- app_assoc. reflexivity.
Qed.

Lemma submit_all_frame round nclients ps : forall slot st,
  flags (submit_all round slot nclients ps st) = flags st /\
  sched (submit_all round slot nclients ps st) = sched st /\
  report (submit_all round slot nclients ps st) = report st.
Proof.
  induction ps as [|p ps IH]; intros slot st; simpl; [auto|].
  destruct (IH (S slot) (emit (task_submitted round slot ((slot - 1) mod nclients)) st))
    as (-> & -> & ->). auto.
Qed.

Lemma tasks_of_S users k :
  tasks_of users (S k) = tasks_of users k ++ map (fun sl => (S k, sl)) (seq 1 users).
Proof.
  unfold tasks_of. rewrite seq_S, flat_map_app. simpl. rewrite app_nil_r. reflexivity.
Qed.

Lemma rounds_outcomes_snoc env users prompts k : forall r,
  rounds_outcomes env users prompts r (S k) =
  rounds_outcomes env users prompts r k ++ round_outcomes env users prompts (r + k).
Proof.
  intros r. unfold rounds_outcomes. rewrite seq_S, map_app, concat_app. simpl.
  rewrite app_nil_r. reflexivity.
Qed.

Lemma outcomes_from_lookup env users round ps : forall slot i p,
  ps !! i = Some p ->
  outcomes_from env users round slot ps !! i =
  Some (future_result p (env_task env round (slot + i)), round_label users round (slot + i)).
Proof.
  induction ps as [|q ps IH]; intros slot i p H; [discriminate|].
  destruct i as [|i]; simpl in *.
  - injection H as ->. rewrite Nat.add_0_r. reflexivity.
  - rewrite (IH (S slot) i p H). replace (S slot + i) with (slot + S i) by lia. reflexivity.
Qed.

Lemma take_S_tick n (s : Schedule) :
  concat (take (S n) s) = concat (take n s) ++ tick n s.
Proof.
  revert s. induction n as [|n IH]; intros s.
  - destruct s as [|cs s]; [reflexivity|]. unfold tick. simpl.
    rewrite app_nil_r. reflexivity.
  - destruct s as [|cs s]; [reflexivity|].
    rewrite tick_S. cbn [take concat tail]. rewrite IH, app_assoc. reflexivity.
Qed.

Lemma head_drop_tick n (s : Schedule) : default [] (head (drop n s)) = tick n s.
Proof. rewrite head_tick, tick_drop, Nat.add_0_r. reflexivity. Qed.

Lemma tail_drop_S {A} n (l : list A) : tail (drop n l) = drop (S n) l.
Proof. rewrite tail_drop, drop_drop. f_equal. lia. Qed.

Section InStep.
Variables (env : Env) (rounds_n users nclients : nat) (prompts : list TestPrompt).
Variable st0 : Loop.

Local Notation "'stp'" := (step env rounds_n users nclients prompts) (only parsing).
Local Notation "'at_read' n" := (Nat.iter n (step env rounds_n users nclients prompts)
                                   (next_round rounds_n 0, st0))
  (at level 10, only parsing).

Lemma start_round_frame k st :
  flags (snd (start_round rounds_n users nclients prompts k st)) = flags st /\
  sched (snd (start_round rounds_n users nclients prompts k st)) = sched st /\
  report (snd (start_round rounds_n users nclients prompts k st)) = report st.
Proof.
  unfold start_round. destruct (users =? 0)%nat; [auto|].
  destruct (current_prompts users k prompts); cbn [snd]; apply submit_all_frame.
Qed.

(** Every step from a point inside the loop makes one read. *)
Lemma step_read pt st :
  in_loop pt = true ->
  flags (snd (stp (pt, st))) = flags (read st) /\
  sched (snd (stp (pt, st))) = sched (read st).
Proof.
  intros Hr. destruct pt as [k|k|k|k slot p ps| |msg]; try discriminate; cbn [step].
  - destruct (is_cancelled (flags (read st))); auto.
  - destruct (is_paused (flags (read st))); [auto|].
    destruct (start_round_frame k (read st)) as (-> & -> & _). auto.
  - destruct (is_cancelled (flags (read st))); [|auto].
    destruct (start_round_frame k (read st)) as (-> & -> & _). auto.
  - destruct (is_cancelled (flags (read st))); [auto|].
    destruct ps; auto.
Qed.

Lemma step_stays pt st : in_loop pt = false -> stp (pt, st) = (pt, st).
Proof. destruct pt; try discriminate; reflexivity. Qed.

Lemma running_step pt st : in_loop (fst (stp (pt, st))) = true -> in_loop pt = true.
Proof. destruct pt; try reflexivity; simpl; auto. Qed.

(** Before read number [n], the calls of the first [n] ticks have taken
    effect, and only they. *)
Lemma at_read_flags n :
  in_loop (fst (at_read n)) = true ->
  flags (snd (at_read n)) = arrive (concat (take n (sched st0))) (flags st0) /\
  sched (snd (at_read n)) = drop n (sched st0).
Proof.
  induction n as [|n IH]; intros Hr.
  - simpl. rewrite drop_0. auto.
  - rewrite Nat.iter_succ in *. destruct (Nat.iter n _ _) as [pt st] eqn:E.
    apply running_step in Hr as Hr'. cbn [fst snd] in IH.
    destruct (IH Hr') as [Hf Hs].
    destruct (step_read pt st Hr') as [-> ->].
    unfold read. cbn [flags sched]. rewrite Hf, Hs, head_drop_tick, tail_drop_S.
    rewrite take_S_tick, arrive_app. auto.
Qed.

(** *** What a step never does *)

(** A read that finds the worker paused and not cancelled is followed
    by no submission. *)
Lemma step_paused pt st :
  is_paused (flags (read st)) = true -> is_cancelled (flags (read st)) = false ->
  submitted (trace (snd (stp (pt, st)))) = submitted (trace st) /\
  match pt with
  | at_pause_check k | at_pause_cancel k =>
      fst (stp (pt, st)) = at_pause_check k \/ fst (stp (pt, st)) = at_pause_cancel k
  | _ => True
  end.
Proof.
  intros Hp Hc. destruct pt as [k|k|k|k slot p ps| |msg]; cbn [step]; rewrite ?Hp, ?Hc;
    cbn [fst snd]; auto.
  destruct ps; cbn [snd record_result append_result trace read];
    rewrite submitted_app; simpl; rewrite app_nil_r; auto.
Qed.

(** A step only appends, to the trace and to the results. *)
Lemma step_extends cfg :
  exists tr rs,
    trace (snd (stp cfg)) = trace (snd cfg) ++ tr /\
    results (report (snd (stp cfg))) = results (report (snd cfg)) ++ rs.
Proof.
  assert (Hs : forall k st, exists tr rs,
             trace (snd (start_round rounds_n users nclients prompts k st)) = trace st ++ tr /\
             results (report (snd (start_round rounds_n users nclients prompts k st))) =
               results (report st) ++ rs).
  { intros k st. unfold start_round. destruct (users =? 0)%nat.
    { exists [], []. rewrite !app_nil_r. auto. }
    assert (exists tr, trace (submit_all (S k) 1 nclients (current_prompts users k prompts) st)
                       = trace st ++ tr) as (tr & Htr).
    { destruct (submit_all_spec (S k) 1 nclients (current_prompts users k prompts) st)
        as (tr & -> & _). exists tr. reflexivity. }
    destruct (submit_all_frame (S k) nclients (current_prompts users k prompts) 1 st)
      as (_ & _ & Hr).
    exists tr, []. rewrite app_nil_r.
    destruct (current_prompts users k prompts); cbn [snd]; rewrite Htr, Hr; auto. }
  destruct cfg as [pt st].
  destruct pt as [k|k|k|k slot p ps| |msg]; cbn [step snd].
  - exists [], []. rewrite !app_nil_r. destruct (is_cancelled _); auto.
  - destruct (is_paused _); [exists [], []; rewrite !app_nil_r; auto|]. apply (Hs k (read st)).
  - destruct (is_cancelled _); [apply (Hs k (read st))|].
    exists [], []. rewrite !app_nil_r. auto.
  - destruct (is_cancelled _); [exists [], []; rewrite !app_nil_r; auto|].
    eexists [_], [_]. destruct ps; cbn [snd]; split; reflexivity.
  - exists [], []. rewrite !app_nil_r. auto.
  - exists [], []. rewrite !app_nil_r. auto.
Qed.

Lemma iter_extends m cfg :
  exists tr rs,
    trace (snd (Nat.iter m stp cfg)) = trace (snd cfg) ++ tr /\
    results (report (snd (Nat.iter m stp cfg))) = results (report (snd cfg)) ++ rs.
Proof.
  induction m as [|m (tr & rs & Ht & Hr)].
  - exists [], []. rewrite !app_nil_r. auto.
  - rewrite Nat.iter_succ. destruct (step_extends (Nat.iter m stp cfg)) as (tr' & rs' & Ht' & Hr').
    exists (tr ++ tr'), (rs ++ rs'). rewrite Ht', Hr', Ht, Hr, !app_assoc. auto.
Qed.

(** Whatever the worker has recorded and emitted before some read is
    still there, in place, when the loop has ended. *)
Lemma at_read_kept n m st' :
  at_read m = (loop_ended, st') ->
  exists tr rs,
    trace st' = trace (snd (at_read n)) ++ tr /\
    results (report st') = results (report (snd (at_read n))) ++ rs.
Proof.
  intros E. destruct (Nat.le_ge_cases n m) as [H|H].
  - replace m with (n + (m - n)) in E by lia. rewrite iter_add in E.
    destruct (iter_extends (m - n) (at_read n)) as (tr & rs & Ht & Hr).
    rewrite E in Ht, Hr. eauto.
  - replace n with (m + (n - m)) by lia. rewrite iter_add, E, iter_ended.
    exists [], []. rewrite !app_nil_r. auto.
Qed.


Hypothesis Husers : users <> 0.
Hypothesis Hprompts : rounds_n * users <= length prompts.

Lemma current_prompts_users k :
  k < rounds_n -> length (current_prompts users k prompts) = users.
Proof. intros Hk. apply current_prompts_length. nia. Qed.

Lemma next_round_in_step k st :
  k <= rounds_n -> is_cancelled (flags st) = false ->
  results (report st) =
    results (report st0) ++ map fst (rounds_outcomes env users prompts 0 k) ->
  submitted (trace st) = submitted (trace st0) ++ tasks_of users k ->
  in_step env rounds_n users prompts st0 (next_round rounds_n k, st).
Proof.
  intros Hk Hc Hr Ht. unfold next_round.
  destruct (k <? rounds_n)%nat eqn:E.
  - apply Nat.ltb_lt in E. unfold in_step. cbn [rounds_done collected_so_far rounds_submitted].
    rewrite take_0, app_nil_r. auto.
  - apply Nat.ltb_ge in E. assert (k = rounds_n) as -> by lia.
    unfold in_step. cbn [rounds_done collected_so_far rounds_submitted].
    rewrite take_0, app_nil_r. auto.
Qed.

Lemma start_round_in_step k st :
  k < rounds_n -> is_cancelled (flags st) = false ->
  results (report st) =
    results (report st0) ++ map fst (rounds_outcomes env users prompts 0 k) ->
  submitted (trace st) = submitted (trace st0) ++ tasks_of users k ->
  in_step env rounds_n users prompts st0
    (start_round rounds_n users nclients prompts k st).
Proof.
  intros Hk Hc Hr Ht. unfold start_round.
  destruct (users =? 0)%nat eqn:E; [apply Nat.eqb_eq in E; contradiction|].
  pose proof (current_prompts_users k Hk) as Hl.
  destruct (current_prompts users k prompts) as [|p ps] eqn:Eps;
    [simpl in Hl; congruence|].
  unfold in_step. cbn [rounds_done collected_so_far rounds_submitted].
  destruct (submit_all_frame (S k) nclients (p :: ps) 1 st) as (-> & _ & ->).
  rewrite submitted_submit_all, Hl, Ht, tasks_of_S, <- app_assoc.
  rewrite Eps. simpl take. rewrite app_nil_r. repeat split; auto.
Qed.

(** A read that finds no cancellation keeps the account in step. *)
Lemma in_step_step pt st :
  in_step env rounds_n users prompts st0 (pt, st) ->
  is_cancelled (flags (read st)) = false ->
  in_step env rounds_n users prompts st0 (stp (pt, st)).
Proof.
  intros (Hc & Hr & Ht & Hw) Hc1.
  destruct pt as [k|k|k|k slot p ps| |msg]; cbn [step]; rewrite ?Hc1;
    cbn [rounds_done collected_so_far rounds_submitted] in *.
  - unfold in_step. cbn [rounds_done collected_so_far rounds_submitted]. auto.
  - destruct (is_paused (flags (read st))).
    + unfold in_step. cbn [rounds_done collected_so_far rounds_submitted]. auto.
    + rewrite take_0, app_nil_r in Hr. apply start_round_in_step; auto.
  - unfold in_step. cbn [rounds_done collected_so_far rounds_submitted]. auto.
  - destruct Hw as (Hk & Hs & Hd).
    pose proof (current_prompts_users k Hk) as Hl.
    set (cps := current_prompts users k prompts) in *.
    assert (Hp : cps !! (slot - 1) = Some p).
    { rewrite <- (Nat.add_0_r (slot - 1)), <- lookup_drop, Hd. reflexivity. }
    assert (Hx : take slot (round_outcomes env users prompts k) =
                 take (slot - 1) (round_outcomes env users prompts k) ++
                 [(future_result p (env_task env (S k) slot), round_label users (S k) slot)]).
    { replace slot with (S (slot - 1)) at 1 by lia. apply take_S_r.
      unfold round_outcomes. fold cps.
      rewrite (outcomes_from_lookup _ _ _ _ _ _ _ Hp).
      replace (1 + (slot - 1)) with slot by lia. reflexivity. }
    set (r := future_result p (env_task env (S k) slot)) in *.
    set (l := round_label users (S k) slot) in *.
    assert (Hr2 : results (report (record_result r l (read st))) =
                  results (report st0) ++
                  map fst (rounds_outcomes env users prompts 0 k ++
                           take slot (round_outcomes env users prompts k))).
    { cbn [record_result append_result report results set_results read].
      rewrite Hr, Hx, !map_app, !app_assoc. reflexivity. }
    assert (Ht2 : submitted (trace (record_result r l (read st))) =
                  submitted (trace st0) ++ tasks_of users (S k)).
    { cbn [record_result append_result trace read]. rewrite submitted_app, Ht.
      simpl. rewrite app_nil_r. reflexivity. }
    destruct ps as [|p' ps'].
    + assert (Hs2 : slot = users).
      { apply (f_equal length) in Hd. rewrite length_drop in Hd. simpl in Hd. lia. }
      apply next_round_in_step; [lia|exact Hc1| |exact Ht2].
      rewrite Hr2, rounds_outcomes_snoc. simpl Nat.add.
      rewrite take_ge; [reflexivity|].
      unfold round_outcomes. rewrite outcomes_from_length. fold cps. lia.
    + unfold in_step. cbn [rounds_done collected_so_far rounds_submitted].
      replace (S slot - 1) with slot by lia.
      repeat split; auto; try lia.
      fold cps. replace slot with (slot - 1 + 1) at 1 by lia.
      rewrite <- drop_drop, Hd. reflexivity.
  - unfold in_step. cbn [rounds_done collected_so_far rounds_submitted]. auto.
  - contradiction.
Qed.

Lemma cancel_free_tick n (s : Schedule) :
  cancel_free (take (S n) s) -> cancel_test ∉ tick n s.
Proof.
  unfold cancel_free, tick. intros H.
  destruct (s !! n) as [cs|] eqn:E; [|apply not_elem_of_nil]. simpl.
  rewrite Forall_lookup in H. apply (H n). rewrite lookup_take_lt by lia. exact E.
Qed.

Lemma cancel_free_take_le n m (s : Schedule) :
  n <= m -> cancel_free (take m s) -> cancel_free (take n s).
Proof.
  intros Hl H. replace (take n s) with (take n (take m s))
    by (rewrite take_take; f_equal; lia).
  apply Forall_take, H.
Qed.

(** As long as no cancellation has arrived the account is in step. *)
Lemma at_read_in_step n :
  is_cancelled (flags st0) = false ->
  cancel_free (take n (sched st0)) ->
  in_step env rounds_n users prompts st0 (at_read n).
Proof.
  intros Hf0. induction n as [|n IH]; intros Hs.
  - simpl. apply next_round_in_step; [lia|exact Hf0| |].
    + simpl. rewrite app_nil_r. reflexivity.
    + simpl. rewrite app_nil_r. reflexivity.
  - rewrite Nat.iter_succ.
    specialize (IH (cancel_free_take_le n (S n) _ ltac:(lia) Hs)).
    pose proof (at_read_flags n) as Hfl.
    destruct (Nat.iter n _ _) as [pt st] eqn:E. cbn [fst snd] in Hfl.
    destruct (in_loop pt) eqn:Er.
    + destruct (Hfl eq_refl) as [Hf Hsc].
      apply in_step_step; [exact IH|].
      unfold read. cbn [flags]. rewrite Hsc, head_drop_tick.
      rewrite arrive_cancel_free by (apply cancel_free_tick, Hs).
      destruct IH as (Hc & _). exact Hc.
    + rewrite step_stays by exact Er. exact IH.
Qed.

(** *** Once the cancellation has arrived *)






End InStep.

(** The set-up either raises, or hands the round loop its first state;
    the read-by-read account starts from the same state. *)
Lemma run_loop env model rounds_n users tp0 s :
  (exists e, setup_exception env users = Some e /\
             forall n, before_read env model rounds_n users tp0 s n = None) \/
  (exists u nc w o st0,
     setup_exception env users = None /\
     prepare_parallel env users (service_after_startup env) = inr (u, nc, w, o) /\
     fresh_start env model rounds_n users tp0 s st0 /\
     run env model rounds_n users tp0 s =
       conclude rounds_n users (store_warning w (init_test_params tp0 rounds_n users))
         (rounds env u nc (run_prompts env rounds_n users) rounds_n 0 st0) /\
     forall n,
       before_read env model rounds_n users tp0 s n =
       Some (Nat.iter n (step env rounds_n u nc (run_prompts env rounds_n users))
               (next_round rounds_n 0, st0))).
Proof.
  unfold run, before_read, startup, setup_exception, service_after_startup.
  destruct (env_system_info env) as [e|info]; [left; eauto|].
  destruct (env_original_config env) as [e|]; [left; eauto|].
  destruct (config_restart_ollama_service env None (env_service env)) as [[ok message] o1].
  cbn [snd].
  destruct (prepare_parallel env users o1) as [e|[[[u nc] w] o]]; [left; eauto|].
  right. eexists u, nc, w, o, _. split; [reflexivity|]. split; [reflexivity|].
  split; [|split; [reflexivity|intros n; reflexivity]].
  unfold fresh_start, warm_up, append_result. simpl. repeat split; reflexivity.
Qed.

Lemma submitted_fresh env model rounds_n users tp0 s st0 :
  fresh_start env model rounds_n users tp0 s st0 -> submitted (trace st0) = [].
Proof. intros (_ & _ & _ & -> & _). reflexivity. Qed.






(** A cancellation that arrives while the worker waits in the pause
    loop before round 1: the report holds the result of round 0 alone,
    and the three tasks of round 1 are submitted all the same. *)
Example run_cancelled_while_paused :
  exists pt st rr rep,
    before_read (demo_env "12" true io_ok) "llama3:8b" 5 3 ∅ cancel_while_paused 5 =
      Some (pt, st) /\
    (exists k, pt = at_pause_check k) /\
    is_paused (seen cancel_while_paused 4) = true /\
    submitted (trace st) = [] /\
    run (demo_env "12" true io_ok) "llama3:8b" 5 3 ∅ cancel_while_paused = Some rr /\
    final_report rr = Some rep /\
    length (results rep) = 1 /\
    submitted (emitted rr) = [(1, 1); (1, 2); (1, 3)].
Proof.
  eexists _, _, _, _. split; [vm_compute; reflexivity|].
  split; [eexists; reflexivity|]. split; [reflexivity|]. split; [reflexivity|].
  split; [vm_compute; reflexivity|]. split; [vm_compute; reflexivity|].
  split; reflexivity.
Qed.

Lemma pause_wait_cancelled s f tp :
  is_cancelled f = true ->
  exists f' s', pause_wait s f tp = Some (f', tp, s') /\ is_cancelled f' = true.
Proof.
  intros Hf. destruct s as [|cs s1]; simpl.
  - rewrite Hf, andb_false_r. eauto.
  - pose proof (arrive_cancelled cs f Hf) as H1.
    destruct (is_paused (arrive cs f)); [|eauto].
    destruct s1 as [|cs2 s2].
    + rewrite H1. eauto.
    + rewrite (arrive_cancelled cs2 _ H1). eauto using arrive_cancelled.
Qed.

Lemma pause_wait_released s f tp :
  is_paused (arrive (concat s) f) = false \/ is_cancelled (arrive (concat s) f) = true ->
  is_Some (pause_wait s f tp).
Proof.
  intros H. destruct (pause_wait s f tp) as [x|] eqn:E; [eauto|].
  apply pause_wait_None in E as [E1 E2]. destruct H; congruence.
Qed.

Lemma round_signals_run env model rounds_n users tp0 s st0 st' outs :
  fresh_start env model rounds_n users tp0 s st0 ->
  grows st0 st' outs ->
  round_signals
    (trace st' ++ [progress_updated (rounds_n * users) (rounds_n * users);
                   test_completed (finalize (report st'))]) =
  (warmup_result env model, "0") :: outs.
Proof.
  intros (_ & _ & _ & Ht & _) (_ & (tr & -> & <- & _) & _).
  rewrite Ht, !round_signals_app. simpl. rewrite app_nil_r. reflexivity.
Qed.

Lemma seen_read n (s : Schedule) st :
  flags st = arrive (concat (take n s)) flags0 -> sched st = drop n s ->
  flags (read st) = seen s n.
Proof.
  intros Hf Hs. unfold read, seen. cbn [flags].
  rewrite Hf, Hs, head_drop_tick, take_S_tick, arrive_app. reflexivity.
Qed.

(** A completed run went through the read-by-read account to its end. *)
Lemma run_completed_steps env model rounds_n users tp0 s rr rep :
  run env model rounds_n users tp0 s = Some rr ->
  final_report rr = Some rep ->
  exists u nc st0 st' m,
    effective_users env users = Some u /\
    fresh_start env model rounds_n users tp0 s st0 /\
    (forall n, before_read env model rounds_n users tp0 s n =
               Some (Nat.iter n (step env rounds_n u nc (run_prompts env rounds_n users))
                       (next_round rounds_n 0, st0))) /\
    Nat.iter m (step env rounds_n u nc (run_prompts env rounds_n users))
      (next_round rounds_n 0, st0) = (loop_ended, st') /\
    emitted rr = trace st' ++ [progress_updated (rounds_n * users) (rounds_n * users);
                               test_completed (finalize (report st'))] /\
    rep = finalize (report st').
Proof.
  intros Hrun Hrep.
  destruct (run_loop env model rounds_n users tp0 s)
    as [(e & He & _)|(u & nc & w & o & st0 & _ & Hp & Hst & E & Hn)].
  - destruct (run_cases env model rounds_n users tp0 s)
      as [(e' & tr & sp & _ & E & _)|(u & nc & w & o & st0 & He' & _)]; [|congruence].
    rewrite E in Hrun. injection Hrun as <-. rewrite final_report_error in Hrep. discriminate.
  - rewrite E in Hrun. unfold conclude in Hrun.
    destruct (rounds env u nc _ rounds_n 0 st0) as [[st'|e tr]|] eqn:Er; try discriminate.
    + injection Hrun as <-.
      destruct (rounds_steps env rounds_n u nc (run_prompts env rounds_n users)
                  rounds_n 0 st0 st' eq_refl Er) as (m & Hm).
      exists u, nc, st0, st', m.
      split; [eapply effective_users_prepare, Hp|].
      repeat (split; [assumption || reflexivity|]).
      eapply final_report_conclude, Hrep.
    + injection Hrun as <-. rewrite final_report_error in Hrep. discriminate.
Qed.

(** C9.  [pause_test] sets the pause flag and [resume_test] clears
    it; neither touches the cancellation flag.  A read that finds the
    worker paused and not cancelled is followed by no submission of a
    task, wherever the worker is, and in the pause loop the worker stays
    in the pause loop of the same round: no new round starts while the
    flag is set.  The flag is not looked at while the futures of a
    round are collected: a read there that finds no cancellation
    records the result of its future.  Whatever was recorded and
    emitted before some read is still there, in place, in the report and
    the signals of the completed run.  When nobody cancels, however
    the calls to [pause_test] and [resume_test] are timed: a run that
    is eventually resumed completes; and every completed run holds the
    result of round 0 followed by all results of rounds 1..R, each round
    complete and in slot order, its tasks are those of the rounds 1..R,
    and its labels are numbered on from round to round exactly as
    without any pause: the round number with one user, and
    ["(round,slot)"] with more.  The pause loop ends only on a read that
    finds the worker resumed or cancelled, it ends whenever the worker
    is eventually resumed or cancelled, and once the cancellation flag
    is set it ends without running its body again. *)
Theorem pause_resume_frame env model rounds_n users tp0 s :
  (forall f,
     control f pause_test = mkFlags (is_cancelled f) true /\
     control f resume_test = mkFlags (is_cancelled f) false) /\
  (forall n pt st pt' st',
     before_read env model rounds_n users tp0 s n = Some (pt, st) ->
     before_read env model rounds_n users tp0 s (S n) = Some (pt', st') ->
     (is_paused (seen s n) = true -> is_cancelled (seen s n) = false ->
      submitted (trace st') = submitted (trace st) /\
      forall k, pt = at_pause_check k \/ pt = at_pause_cancel k ->
                pt' = at_pause_check k \/ pt' = at_pause_cancel k) /\
     (forall k slot p ps,
        pt = at_future k slot p ps -> is_cancelled (seen s n) = false ->
        results (report st') =
          results (report st) ++ [future_result p (env_task env (S k) slot)])) /\
  (forall n pt st rr rep,
     before_read env model rounds_n users tp0 s n = Some (pt, st) ->
     run env model rounds_n users tp0 s = Some rr ->
     final_report rr = Some rep ->
     exists tr rs,
       emitted rr = trace st ++ tr /\ results rep = results (report st) ++ rs) /\
  (cancel_free s -> 1 <= users -> fallback_pool (env_catalog env) <> [] ->
   (released s -> setup_exception env users = None ->
    exists rr rep, run env model rounds_n users tp0 s = Some rr /\
                   final_report rr = Some rep) /\
   forall rr rep,
     run env model rounds_n users tp0 s = Some rr ->
     final_report rr = Some rep ->
     exists u, effective_users env users = Some u /\
       results rep =
         warmup_result env model ::
         map fst (rounds_outcomes env u (run_prompts env rounds_n users) 0 rounds_n) /\
       round_signals (emitted rr) =
         (warmup_result env model, "0") ::
         rounds_outcomes env u (run_prompts env rounds_n users) 0 rounds_n /\
       map snd (round_signals (emitted rr)) =
         "0" :: flat_map
                  (fun k =>
                     map (fun slot =>
                            if (1 <? u)%nat then
                              "(" +:+ pretty (S k) +:+ "," +:+ pretty slot +:+ ")"
                            else pretty (S k))
                       (seq 1 u))
                  (seq 0 rounds_n) /\
       submitted (emitted rr) = tasks_of u rounds_n) /\
  (forall sch f tp f' tp' sch',
     pause_wait sch f tp = Some (f', tp', sch') ->
     is_paused f' = false \/ is_cancelled f' = true) /\
  (forall sch f tp,
     is_paused (arrive (concat sch) f) = false \/
     is_cancelled (arrive (concat sch) f) = true ->
     is_Some (pause_wait sch f tp)) /\
  (forall sch f tp,
     is_cancelled f = true ->
     exists f' sch', pause_wait sch f tp = Some (f', tp, sch') /\
                     is_cancelled f' = true).
Proof.
  split; [|split; [|split; [|split; [|split; [|split]]]]].
  - intros f. split; reflexivity.
  - intros n pt st pt' st' Hb Hb'.
    destruct (run_loop env model rounds_n users tp0 s)
      as [(e & _ & Hn)|(u & nc & w & o & st0 & _ & Hp & Hst & _ & Hn)];
      [rewrite Hn in Hb; discriminate|].
    rewrite Hn in Hb, Hb'. injection Hb as Hb.
    assert (Hstep : step env rounds_n u nc (run_prompts env rounds_n users) (pt, st) =
                    (pt', st')) by (rewrite <- Hb; injection Hb' as Hb'; exact Hb').
    clear Hb'. rename Hstep into Hb'.
    pose proof (at_read_flags env rounds_n u nc (run_prompts env rounds_n users) st0 n) as Hfl.
    rewrite Hb in Hfl. cbn [fst snd] in Hfl.
    destruct Hst as (Hf0 & Hs0 & _). rewrite Hf0, Hs0 in Hfl.
    split.
    + intros Hp1 Hc1. destruct (in_loop pt) eqn:Er.
      * destruct (Hfl eq_refl) as [Hf Hs]. rewrite <- (seen_read n s st Hf Hs) in Hp1, Hc1.
        destruct (step_paused env rounds_n u nc (run_prompts env rounds_n users) pt st Hp1 Hc1)
          as [Ht Hpt].
        rewrite Hb' in Ht, Hpt. cbn [fst snd] in Ht, Hpt. split; [exact Ht|].
        intros k [->| ->]; exact Hpt.
      * rewrite step_stays in Hb' by exact Er. injection Hb' as <- <-.
        split; [reflexivity|]. intros k H; exact H.
    + intros k slot p ps -> Hc1. destruct (Hfl eq_refl) as [Hf Hs].
      rewrite <- (seen_read n s st Hf Hs) in Hc1.
      cbn [step] in Hb'. rewrite Hc1 in Hb'.
      destruct ps; injection Hb' as _ <-; reflexivity.
  - intros n pt st rr rep Hb Hrun Hrep.
    destruct (run_completed_steps _ _ _ _ _ _ _ _ Hrun Hrep)
      as (u & nc & st0 & st' & m & _ & _ & Hn & Hm & -> & ->).
    rewrite Hn in Hb. injection Hb as Hb.
    destruct (at_read_kept env rounds_n u nc (run_prompts env rounds_n users) st0 n m st' Hm)
      as (tr & rs & Ht & Hr).
    rewrite Hb in Ht, Hr. cbn [snd] in Ht, Hr.
    eexists _, rs. rewrite Ht, finalize_results, Hr, <- app_assoc. split; reflexivity.
  - intros Hs Hu Hpool. split.
    + intros Hrel Hset.
      destruct (run_cases env model rounds_n users tp0 s)
        as [(e & tr & sp & He & _)|(u & nc & w & o & st0 & _ & Hp & Hst & E)];
        [congruence|].
      destruct (prepare_parallel_users _ _ _ _ _ _ _ Hp) as [_ Hu1].
      destruct (Hu1 Hu) as [Hu2 _].
      destruct (rounds env u nc (run_prompts env rounds_n users) rounds_n 0 st0)
        as [out|] eqn:Er.
      * apply rounds_finished in Er as Hfin; [|lia]. destruct Hfin as (st' & ->).
        rewrite E. simpl. eexists _, _. split; [reflexivity|].
        unfold final_report. cbn [emitted]. rewrite last_app. reflexivity.
      * apply rounds_None in Er.
        rewrite (fresh_start_final_flags _ _ _ _ _ _ _ Hst) in Er.
        destruct Er as [E1 E2]. destruct Hrel; congruence.
    + intros rr rep Hrun Hrep.
      destruct (run_completed _ _ _ _ _ _ _ _ Hrun Hrep)
        as (u & nc & w & o & st0 & st' & _ & Hp & Hst & Hr & -> & ->).
      destruct (prepare_parallel_users _ _ _ _ _ _ _ Hp) as [_ Hu1].
      destruct (Hu1 Hu) as [Hu2 Hu3].
      pose proof Hst as (Hf & Hsch & Hres & _).
      destruct (rounds_cancel_free env u nc (run_prompts env rounds_n users) rounds_n 0 st0
                  (finished st')) as (st'' & Heq & G & _);
        [lia|rewrite Hsch; exact Hs|rewrite Hf; reflexivity|exact Hr|].
      injection Heq as <-.
      exists u. split; [eapply effective_users_prepare, Hp|].
      pose proof G as (Hr' & _).
      split; [rewrite finalize_results, Hr', Hres; reflexivity|].
      cbn [emitted]. rewrite (round_signals_run _ _ _ _ _ _ _ _ _ Hst G).
      split; [reflexivity|].
      pose proof (run_prompts_enough env rounds_n users u Hpool Hu3) as Hen.
      split.
      * simpl. f_equal. rewrite rounds_outcomes_labels by exact Hen. reflexivity.
      * destruct (rounds_steps env rounds_n u nc (run_prompts env rounds_n users)
                    rounds_n 0 st0 st' eq_refl Hr) as (m & Hm).
        assert (Hin : in_step env rounds_n u (run_prompts env rounds_n users) st0
                        (loop_ended, st')).
        { rewrite <- Hm. apply at_read_in_step; [lia|exact Hen|rewrite Hf; reflexivity|].
          rewrite Hsch. apply cancel_free_take, Hs. }
        destruct Hin as (_ & _ & Ht & _). cbn [rounds_submitted rounds_done] in Ht.
        rewrite submitted_app, Ht, (submitted_fresh _ _ _ _ _ _ _ Hst). simpl.
        apply app_nil_r.
  - intros sch f tp f' tp' sch' H. apply pause_wait_spec in H. tauto.
  - intros sch f tp. apply pause_wait_released.
  - intros sch f tp. apply pause_wait_cancelled.
Qed.

(** C9, at a run of two rounds with one user that is paused before
    round 1 and resumed four reads later: nothing is submitted between
    read 3 and read 4, and the labels are ["0"], ["1"], ["2"]. *)
Lemma pause_resume_frame_witness :
  let env := demo_env "未知" false io_ok in
  let s := pause_then_resume in
  (is_paused (seen s 3) = true /\ is_cancelled (seen s 3) = false /\
   cancel_free s /\ 1 <= 1 /\ fallback_pool (env_catalog env) <> [] /\
   released s /\ setup_exception env 1 = None) /\
  (exists pt st pt' st',
     before_read env "llama3:8b" 2 1 ∅ s 3 = Some (pt, st) /\
     before_read env "llama3:8b" 2 1 ∅ s 4 = Some (pt', st') /\
     submitted (trace st') = submitted (trace st) /\
     submitted (trace st) = []) /\
  exists rr rep,
    run env "llama3:8b" 2 1 ∅ s = Some rr /\
    final_report rr = Some rep /\
    map snd (round_signals (emitted rr)) = ["0"; "1"; "2"] /\
    submitted (emitted rr) = [(1, 1); (2, 1)].
Proof.
  intros env s.
  assert (H1 : cancel_free s).
  { unfold cancel_free, s, pause_then_resume.
    repeat (constructor;
            [intros H; repeat (apply elem_of_cons in H as [H|H]; [discriminate|]);
             inversion H|]).
    constructor. }
  assert (H2 : 1 <= 1) by lia.
  assert (H3 : fallback_pool (env_catalog env) <> []) by (vm_compute; discriminate).
  assert (H4 : released s) by (left; reflexivity).
  assert (H5 : setup_exception env 1 = None) by (vm_compute; reflexivity).
  assert (H6 : is_paused (seen s 3) = true) by reflexivity.
  assert (H7 : is_cancelled (seen s 3) = false) by reflexivity.
  split; [auto 10|].
  destruct (pause_resume_frame env "llama3:8b" 2 1 ∅ s) as (_ & P & _ & F & _).
  split.
  - destruct (before_read env "llama3:8b" 2 1 ∅ s 3) as [[pt st]|] eqn:E3;
      [|vm_compute in E3; discriminate].
    destruct (before_read env "llama3:8b" 2 1 ∅ s 4) as [[pt' st']|] eqn:E4;
      [|vm_compute in E4; discriminate].
    exists pt, st, pt', st'. split; [reflexivity|]. split; [reflexivity|].
    destruct (P 3 pt st pt' st' E3 E4) as [Q _]. destruct (Q H6 H7) as [Ht _].
    split; [exact Ht|]. vm_compute in E3. injection E3 as _ <-. reflexivity.
  - destruct (F H1 H2 H3) as [A B].
    destruct (A H4 H5) as (rr & rep & Hr & Hf).
    exists rr, rep. split; [exact Hr|]. split; [exact Hf|].
    destruct (B rr rep Hr Hf) as (u & Hu & _ & _ & Hl & Ht).
    vm_compute in Hu. injection Hu as <-. split; [exact Hl|exact Ht].
Defined.




Lemma grows_defaults env model rounds_n users tp0 s st0 st' outs :
  fresh_start env model rounds_n users tp0 s st0 ->
  grows st0 st' outs ->
  avg_first_token_latency (report st') = 0%Q /\
  avg_tokens_per_second (report st') = 0%Q /\
  performance_rating (report st') = rating_unrated /\
  test_params (report st') !! "model_load_time" = tp0 !! "model_load_time".
Proof.
  intros (_ & _ & _ & _ & H1 & H2 & H3 & H4) (_ & _ & _ & _ & G1 & G2 & G3 & G4).
  rewrite G1, G2, G3, G4, H4 by discriminate.
  unfold init_test_params. rewrite !lookup_insert_ne by discriminate. auto.
Qed.

(** C7 (as amended).  In the report of every completed run the two
    averages are the arithmetic means over the results after the first
    whose [error] is unset and whose [tokens_per_second] is positive, and
    the rating is the worker's rating of that average; when no result
    qualifies both averages are 0 and the rating is the unrated default. *)
Theorem run_averages env model rounds_n users tp0 s rr rep :
  run env model rounds_n users tp0 s = Some rr ->
  final_report rr = Some rep ->
  let valid := valid_results (results rep) in
  (valid <> [] ->
     avg_first_token_latency rep = Qmean (map first_token_latency valid) /\
     avg_tokens_per_second rep = Qmean (map tokens_per_second valid) /\
     performance_rating rep = worker_rating (avg_tokens_per_second rep)) /\
  (valid = [] ->
     avg_first_token_latency rep = 0%Q /\ avg_tokens_per_second rep = 0%Q /\
     performance_rating rep = rating_unrated).
Proof.
  intros Hrun Hrep.
  destruct (run_completed _ _ _ _ _ _ _ _ Hrun Hrep)
    as (u & nc & w & o & st0 & st' & _ & Hp & Hst & Hr & _ & ->).
  apply rounds_grows in Hr as (outs & G).
  destruct (grows_defaults _ _ _ _ _ _ _ _ _ Hst G) as (D1 & D2 & D3 & _).
  rewrite finalize_results.
  destruct (finalize_averages (report st')) as [Ha Hb].
  split; [exact Ha|]. intros Hv. destruct (Hb Hv) as (-> & -> & ->). auto.
Qed.

(** C7, counterexample.  The client reports an error for the request of
    round 1; the result has no [error] and zero throughput.  The report
    averages the latency over round 2 alone (1000 ms), not over the two
    results without error. *)
Lemma run_averages_counterexample :
  exists rr rep,
    run (demo_env "未知" false io_error_chunk) "llama3:8b" 2 1 ∅ [] = Some rr /\
    final_report rr = Some rep /\
    map error (results rep) = [None; None; None] /\
    avg_first_token_latency rep = 1000%Q /\
    ~ (avg_first_token_latency rep ==
       Qmean (map first_token_latency (non_error_results (results rep))))%Q.
Proof.
  eexists _, _. split; [vm_compute; reflexivity|].
  split; [vm_compute; reflexivity|]. split; [reflexivity|].
  split; [vm_compute; reflexivity|]. vm_compute. intros H. discriminate H.
Qed.

(** C7 (as amended), at the same run. *)
Lemma run_averages_witness :
  exists rr rep,
    run (demo_env "未知" false io_error_chunk) "llama3:8b" 2 1 ∅ [] = Some rr /\
    final_report rr = Some rep /\
    valid_results (results rep) <> [] /\
    avg_first_token_latency rep =
      Qmean (map first_token_latency (valid_results (results rep))).
Proof.
  eexists _, _.
  split; [vm_compute; reflexivity|]. split; [vm_compute; reflexivity|].
  split; [vm_compute; discriminate|].
  refine (proj1 (proj1 (run_averages (demo_env "未知" false io_error_chunk)
                          "llama3:8b" 2 1 ∅ [] _ _ _ _) _));
    [vm_compute; reflexivity|vm_compute; reflexivity|vm_compute; discriminate].
Defined.

(** C8 (as amended).  In the report of every completed run, when some
    result after the first has a positive first-token latency, the entry
    ["model_load_time"] is [max(0, warm-up latency - mean) / 1000] with
    the mean taken over those positive latencies, and it is not negative;
    when there is none the entry is left as it was in the parameters the
    worker was given. *)
Theorem run_model_load_time env model rounds_n users tp0 s rr rep :
  run env model rounds_n users tp0 s = Some rr ->
  final_report rr = Some rep ->
  let lat := other_latencies (results rep) in
  (lat <> [] ->
     exists v, test_params rep !! "model_load_time" = Some (VNum v) /\
       (v == Qmax 0 (warmup_latency (results rep) - Qmean lat) / 1000)%Q /\
       (0 <= v)%Q) /\
  (lat = [] ->
     test_params rep !! "model_load_time" = tp0 !! "model_load_time").
Proof.
  intros Hrun Hrep.
  destruct (run_completed _ _ _ _ _ _ _ _ Hrun Hrep)
    as (u & nc & w & o & st0 & st' & _ & Hp & Hst & Hr & _ & ->).
  apply rounds_grows in Hr as (outs & G).
  destruct (grows_defaults _ _ _ _ _ _ _ _ _ Hst G) as (_ & _ & _ & D4).
  rewrite finalize_results.
  destruct (finalize_load_time (report st')) as [Ha Hb].
  split.
  - intros Hl. exists (model_load_time (results (report st'))).
    split; [apply Ha, Hl|]. apply model_load_time_spec.
  - intros Hl. rewrite (Hb Hl). exact D4.
Qed.

(** C8, counterexample.  The request of round 1 fails (latency 0), that
    of round 2 takes 1000 ms and the warm-up 5000 ms.  The report stores
    4 s, the mean being taken over round 2 alone, not
    [(5000 - mean(0, 1000)) / 1000]. *)
Lemma run_model_load_time_counterexample :
  exists rr rep v,
    run (demo_env "未知" false io_raises) "llama3:8b" 2 1 ∅ [] = Some rr /\
    final_report rr = Some rep /\
    length (results rep) = 3 /\
    test_params rep !! "model_load_time" = Some (VNum v) /\
    ~ (v == Qmax 0 (warmup_latency (results rep) -
                    Qmean (non_warmup_latencies (results rep))) / 1000)%Q.
Proof.
  eexists _, _, _. split; [vm_compute; reflexivity|].
  split; [vm_compute; reflexivity|]. split; [reflexivity|].
  split; [vm_compute; reflexivity|]. vm_compute. intros H. discriminate H.
Qed.

(** C8 (as amended), at the same run. *)
Lemma run_model_load_time_witness :
  exists rr rep,
    run (demo_env "未知" false io_raises) "llama3:8b" 2 1 ∅ [] = Some rr /\
    final_report rr = Some rep /\
    other_latencies (results rep) <> [] /\
    exists v, test_params rep !! "model_load_time" = Some (VNum v) /\
      (v == Qmax 0 (warmup_latency (results rep) -
                    Qmean (other_latencies (results rep))) / 1000)%Q /\
      (0 <= v)%Q.
Proof.
  eexists _, _.
  split; [vm_compute; reflexivity|]. split; [vm_compute; reflexivity|].
  split; [vm_compute; discriminate|].
  refine (proj1 (run_model_load_time (demo_env "未知" false io_raises)
                   "llama3:8b" 2 1 ∅ [] _ _ _ _) _);
    [vm_compute; reflexivity|vm_compute; reflexivity|vm_compute; discriminate].
Defined.

(** ** [PerformanceTestWorker.run]: signals and the parameters of the report *)

Lemma progress_signals_app tr1 tr2 :
  progress_signals (tr1 ++ tr2) = progress_signals tr1 ++ progress_signals tr2.
Proof. apply omap_app. Qed.

Lemma progress_signals_outcomes (outs : list (TestResult * string)) :
  progress_signals (map (fun o => test_round_completed (fst o) (snd o)) outs) = [].
Proof. induction outs; simpl; auto. Qed.

Lemma progress_submit_all round nclients ps : forall slot st,
  progress_signals (trace (submit_all round slot nclients ps st)) =
  progress_signals (trace st).
Proof.
  induction ps as [|p ps IH]; intros slot st; simpl; [reflexivity|].
  rewrite IH. unfold emit. simpl. rewrite progress_signals_app. simpl.
  apply app_nil_r.
Qed.

Lemma progress_collect env users round slot ps st :
  progress_signals (trace (collect env users round slot ps st)) =
  progress_signals (trace st).
Proof.
  rewrite collect_spec. unfold after_outcomes. simpl.
  rewrite progress_signals_app, progress_signals_outcomes. apply app_nil_r.
Qed.

Lemma mark_paused_idem tp : mark_paused (mark_paused tp) = mark_paused tp.
Proof.
  unfold mark_paused. apply map_eq. intros k.
  destruct (decide (k = "completion_status")) as [->|H1].
  { rewrite !lookup_insert_eq. reflexivity. }
  destruct (decide (k = "paused")) as [->|H2].
  { repeat (rewrite lookup_insert_eq || rewrite lookup_insert_ne by discriminate).
    reflexivity. }
  repeat (rewrite lookup_insert_ne by congruence). reflexivity.
Qed.

Lemma marked_mark tp : marked_paused (mark_paused tp).
Proof.
  unfold marked_paused, mark_paused. split.
  - rewrite lookup_insert_ne by discriminate. apply lookup_insert_eq.
  - apply lookup_insert_eq.
Qed.

(** The pause loop leaves [test_params] alone or marks it. *)
Lemma pause_wait_params s : forall f tp f' tp' s',
  pause_wait s f tp = Some (f', tp', s') -> tp' = tp \/ tp' = mark_paused tp.
Proof.
  induction s as [| |cs cs2 s IH] using list_ind2; intros f tp f' tp' s' H.
  - simpl in H. destruct (is_paused f && negb (is_cancelled f)); [discriminate|].
    injection H as <- <- <-. auto.
  - simpl in H. destruct (is_paused (arrive x f)).
    + destruct (is_cancelled (arrive x f)); [|discriminate]. injection H as <- <- <-. auto.
    + injection H as <- <- <-. auto.
  - cbn [pause_wait] in H. destruct (is_paused (arrive cs f)).
    + destruct (is_cancelled (arrive cs2 (arrive cs f))).
      * injection H as <- <- <-. auto.
      * apply IH in H as [->| ->]; [auto|]. rewrite mark_paused_idem. auto.
    + injection H as <- <- <-. auto.
Qed.

(** When the worker is found paused and is not cancelled at the next
    read, the body runs. *)
Lemma pause_wait_marks cs cs2 s f tp f' tp' s' :
  is_paused (arrive cs f) = true ->
  is_cancelled (arrive cs2 (arrive cs f)) = false ->
  pause_wait (cs :: cs2 :: s) f tp = Some (f', tp', s') ->
  tp' = mark_paused tp.
Proof.
  intros Hp Hc H. cbn [pause_wait] in H. rewrite Hp, Hc in H.
  apply pause_wait_params in H as [->| ->]; [reflexivity|apply mark_paused_idem].
Qed.

(** What the round loop does to the progress signals and to
    [test_params]. *)
Lemma rounds_frame env users nclients prompts todo : forall round_num st out,
  rounds env users nclients prompts todo round_num st = Some out ->
  match out with
  | finished st' =>
      progress_signals (trace st') = progress_signals (trace st) /\
      (test_params (report st') = test_params (report st) \/
       test_params (report st') = mark_paused (test_params (report st)))
  | raised _ tr => progress_signals tr = progress_signals (trace st)
  end.
Proof.
  induction todo as [|todo IH]; intros round_num st out H.
  - simpl in H. injection H as <-. auto.
  - cbn [rounds] in H. destruct (is_cancelled (flags (read st))) eqn:Ec.
    { injection H as <-. auto. }
    destruct (pause_wait _ _ _) as [[[f tp] s]|] eqn:Ep; [|discriminate].
    apply pause_wait_params in Ep. cbn [read report] in Ep.
    unfold run_round in H. destruct (users =? 0)%nat.
    + injection H as <-. reflexivity.
    + apply IH in H.
      rewrite progress_collect, progress_submit_all in H.
      assert (Et : test_params (report (collect env users (S round_num) 1
                     (current_prompts users round_num prompts)
                     (submit_all (S round_num) 1 nclients
                        (current_prompts users round_num prompts)
                        (with_control f tp s (read st))))) = tp).
      { rewrite collect_spec. unfold after_outcomes. cbn [report set_results test_params].
        destruct (submit_all_spec (S round_num) 1 nclients
                    (current_prompts users round_num prompts)
                    (with_control f tp s (read st))) as (tr & -> & _).
        reflexivity. }
      rewrite Et in H. cbn [with_control trace read] in H.
      destruct out as [st'|e tr]; [|exact H].
      destruct H as [H1 H2]. split; [exact H1|].
      destruct Ep as [->| ->]; [exact H2|].
      right. destruct H2 as [->| ->]; [reflexivity|apply mark_paused_idem].
Qed.

Lemma finalize_params_other rep k :
  k <> "avg_latency" -> k <> "model_load_time" ->
  test_params (finalize rep) !! k = test_params rep !! k.
Proof.
  intros H1 H2. unfold finalize. destruct (1 <? length (results rep))%nat; [|reflexivity].
  assert (E : test_params (load_time_step rep) !! k = test_params rep !! k).
  { unfold load_time_step. destruct (other_latencies (results rep)); [reflexivity|].
    cbn [set_test_params test_params]. rewrite !lookup_insert_ne by congruence. reflexivity. }
  unfold averages_step. destruct (valid_results _); exact E.
Qed.

(** A run returns when the GUI thread does not leave it paused and no
    collaborator raises during the set-up. *)
Lemma run_returns env model rounds_n users tp0 s :
  released s -> setup_exception env users = None -> 1 <= users ->
  exists rr rep, run env model rounds_n users tp0 s = Some rr /\
                 final_report rr = Some rep.
Proof.
  intros Hrel Hset Hu.
  destruct (run_cases env model rounds_n users tp0 s)
    as [(e & tr & sp & He & _)|(u & nc & w & o & st0 & _ & Hp & Hst & E)];
    [congruence|].
  destruct (prepare_parallel_users _ _ _ _ _ _ _ Hp) as [_ Hu1].
  destruct (Hu1 Hu) as [Hu2 _].
  destruct (rounds env u nc (run_prompts env rounds_n users) rounds_n 0 st0)
    as [out|] eqn:Er.
  - apply rounds_finished in Er as Hfin; [|lia]. destruct Hfin as (st' & ->).
    rewrite E. simpl. eexists _, _. split; [reflexivity|].
    unfold final_report. cbn [emitted]. rewrite last_app. reflexivity.
  - apply rounds_None in Er.
    rewrite (fresh_start_final_flags _ _ _ _ _ _ _ Hst) in Er.
    destruct Er as [E1 E2]. destruct Hrel; congruence.
Qed.

(** X1.  Every run that hands over a report has emitted exactly two
    progress signals, whatever happened in between: [(0, total)] first
    and [(total, total)] at the end, where [total] is the number of
    rounds times the number of users that was asked for, also when the
    run fell back to a single user or was cancelled. *)
Theorem run_progress_signals env model rounds_n users tp0 s rr rep :
  run env model rounds_n users tp0 s = Some rr ->
  final_report rr = Some rep ->
  progress_signals (emitted rr) =
    [(0, rounds_n * users); (rounds_n * users, rounds_n * users)].
Proof.
  intros Hrun Hrep.
  destruct (run_completed _ _ _ _ _ _ _ _ Hrun Hrep)
    as (u & nc & w & o & st0 & st' & _ & _ & Hst & Hr & -> & _).
  apply rounds_frame in Hr as [Hp _]. cbn [emitted].
  rewrite progress_signals_app, Hp.
  destruct Hst as (_ & _ & _ & -> & _). reflexivity.
Qed.

Lemma run_progress_signals_witness :
  let env := demo_env "12" true io_ok in
  exists rr rep,
    run env "llama3:8b" 5 3 ∅ cancel_mid_round = Some rr /\
    final_report rr = Some rep /\
    progress_signals (emitted rr) = [(0, 5 * 3); (5 * 3, 5 * 3)].
Proof.
  intros env.
  destruct (run_returns env "llama3:8b" 5 3 ∅ cancel_mid_round) as (rr & rep & Hr & Hf);
    [right; reflexivity|vm_compute; reflexivity|lia|].
  exists rr, rep. split; [exact Hr|]. split; [exact Hf|].
  exact (run_progress_signals env "llama3:8b" 5 3 ∅ cancel_mid_round rr rep Hr Hf).
Defined.

(** X2.  In every run that hands over a report, the
    [test_round_completed] signals carry exactly the results of the
    report, in the same order, and the first of them is labelled
    ["0"]. *)
Theorem run_signals_match_results env model rounds_n users tp0 s rr rep :
  run env model rounds_n users tp0 s = Some rr ->
  final_report rr = Some rep ->
  map fst (round_signals (emitted rr)) = results rep /\
  head (map snd (round_signals (emitted rr))) = Some "0".
Proof.
  intros Hrun Hrep.
  destruct (run_completed _ _ _ _ _ _ _ _ Hrun Hrep)
    as (u & nc & w & o & st0 & st' & _ & _ & Hst & Hr & -> & ->).
  apply rounds_grows in Hr as (outs & G). cbn [emitted].
  rewrite (round_signals_run _ _ _ _ _ _ _ _ _ Hst G).
  destruct G as (Hres & _). destruct Hst as (_ & _ & Hr0 & _).
  rewrite finalize_results, Hres, Hr0. split; reflexivity.
Qed.

Lemma run_signals_match_results_witness :
  let env := demo_env "12" true io_ok in
  exists rr rep,
    run env "llama3:8b" 5 3 ∅ cancel_mid_round = Some rr /\
    final_report rr = Some rep /\
    map fst (round_signals (emitted rr)) = results rep.
Proof.
  intros env.
  destruct (run_returns env "llama3:8b" 5 3 ∅ cancel_mid_round) as (rr & rep & Hr & Hf);
    [right; reflexivity|vm_compute; reflexivity|lia|].
  exists rr, rep. split; [exact Hr|]. split; [exact Hf|].
  exact (proj1 (run_signals_match_results env "llama3:8b" 5 3 ∅ cancel_mid_round rr rep Hr Hf)).
Defined.

Lemma lookup_init_params_other tp0 rounds_n users k :
  k <> "rounds" -> k <> "concurrent_users" ->
  init_test_params tp0 rounds_n users !! k = tp0 !! k.
Proof.
  intros H1 H2. unfold init_test_params.
  rewrite !lookup_insert_ne by congruence. reflexivity.
Qed.

Lemma mark_paused_other tp k :
  k <> "paused" -> k <> "completion_status" -> mark_paused tp !! k = tp !! k.
Proof.
  intros H1 H2. unfold mark_paused. rewrite !lookup_insert_ne by congruence. reflexivity.
Qed.

(** The [test_params] of the report of a completed run: the copy made
    at the start, marked or not by the pause loop, and then what the
    final aggregation adds. *)
Lemma run_completed_params env model rounds_n users tp0 s rr rep :
  run env model rounds_n users tp0 s = Some rr ->
  final_report rr = Some rep ->
  exists tp,
    (tp = <["test_date" := VStr (env_date env)]> (init_test_params tp0 rounds_n users) \/
     tp = mark_paused
            (<["test_date" := VStr (env_date env)]> (init_test_params tp0 rounds_n users))) /\
    forall k, k <> "avg_latency" -> k <> "model_load_time" ->
              test_params rep !! k = tp !! k.
Proof.
  intros Hrun Hrep.
  destruct (run_completed _ _ _ _ _ _ _ _ Hrun Hrep)
    as (u & nc & w & o & st0 & st' & _ & _ & Hst & Hr & _ & ->).
  apply rounds_frame in Hr as [_ Hp].
  destruct Hst as (_ & _ & _ & _ & _ & _ & _ & Htp). rewrite Htp in Hp.
  exists (test_params (report st')). split; [exact Hp|].
  intros k H1 H2. apply finalize_params_other; assumption.
Qed.

(** X3.  The [test_params] of the report of a completed run hold the
    number of rounds, the number of users that was asked for (also when
    the run fell back to one user) and the date; apart from these, the
    two pause entries and the two entries of the final aggregation, they
    are the caller's.  In particular the report never carries the
    [parallel_warning], which is written to the worker's own dict after
    the copy for the report was made. *)
Theorem run_report_params env model rounds_n users tp0 s rr rep :
  run env model rounds_n users tp0 s = Some rr ->
  final_report rr = Some rep ->
  test_params rep !! "rounds" = Some (VInt (Z.of_nat rounds_n)) /\
  test_params rep !! "concurrent_users" = Some (VInt (Z.of_nat users)) /\
  test_params rep !! "test_date" = Some (VStr (env_date env)) /\
  (forall k,
     k ∉ ["rounds"; "concurrent_users"; "test_date"; "paused";
          "completion_status"; "avg_latency"; "model_load_time"] ->
     test_params rep !! k = tp0 !! k).
Proof.
  intros Hrun Hrep.
  destruct (run_completed_params _ _ _ _ _ _ _ _ Hrun Hrep) as (tp & Htp & Hk).
  assert (Hin : forall k,
    k <> "paused" -> k <> "completion_status" ->
    tp !! k = (<["test_date" := VStr (env_date env)]>
                 (init_test_params tp0 rounds_n users)) !! k).
  { intros k H1 H2. destruct Htp as [->| ->]; [reflexivity|].
    apply mark_paused_other; assumption. }
  split; [|split; [|split]].
  - rewrite Hk, Hin by discriminate. unfold init_test_params.
    repeat (rewrite lookup_insert_eq || rewrite lookup_insert_ne by discriminate).
    reflexivity.
  - rewrite Hk, Hin by discriminate. unfold init_test_params.
    repeat (rewrite lookup_insert_eq || rewrite lookup_insert_ne by discriminate).
    reflexivity.
  - rewrite Hk, Hin by discriminate. apply lookup_insert_eq.
  - intros k Hn.
    apply not_elem_of_cons in Hn as [N1 Hn]. apply not_elem_of_cons in Hn as [N2 Hn].
    apply not_elem_of_cons in Hn as [N3 Hn]. apply not_elem_of_cons in Hn as [N4 Hn].
    apply not_elem_of_cons in Hn as [N5 Hn]. apply not_elem_of_cons in Hn as [N6 Hn].
    apply not_elem_of_cons in Hn as [N7 _].
    rewrite Hk, Hin by assumption.
    rewrite lookup_insert_ne by congruence.
    apply lookup_init_params_other; assumption.
Qed.

Lemma run_report_params_witness :
  let env := demo_env "未知" false io_ok in
  exists rr rep,
    run env "llama3:8b" 1 2 ∅ [] = Some rr /\
    final_report rr = Some rep /\
    test_params rep !! "concurrent_users" = Some (VInt 2) /\
    test_params rep !! "parallel_warning" = None.
Proof.
  intros env.
  destruct (run_returns env "llama3:8b" 1 2 ∅ []) as (rr & rep & Hr & Hf);
    [left; reflexivity|vm_compute; reflexivity|lia|].
  exists rr, rep. split; [exact Hr|]. split; [exact Hf|].
  destruct (run_report_params env "llama3:8b" 1 2 ∅ [] rr rep Hr Hf)
    as (_ & H2 & _ & H4).
  split; [exact H2|]. rewrite H4; [reflexivity|].
  intros H. repeat (apply elem_of_cons in H as [H|H]; [discriminate|]). inversion H.
Defined.

Lemma run_report_no_cancelled env model rounds_n users tp0 s rr rep :
  tp0 !! "cancelled" = None ->
  run env model rounds_n users tp0 s = Some rr ->
  final_report rr = Some rep ->
  test_params rep !! "cancelled" = None.
Proof.
  intros H0 Hrun Hrep.
  destruct (run_completed_params _ _ _ _ _ _ _ _ Hrun Hrep) as (tp & Htp & Hk).
  rewrite Hk by discriminate.
  destruct Htp as [->| ->]; [|rewrite mark_paused_other by discriminate];
    rewrite lookup_insert_ne by discriminate;
    rewrite lookup_init_params_other by discriminate; exact H0.
Qed.

(** X4.  A run never marks its report as cancelled: when the caller's
    parameters have no [cancelled] entry, the report of every completed
    run has none either, whether or not [cancel_test] was called, and
    the handler of [test_completed] never shows the text for a
    cancelled test. *)
Theorem run_never_reports_cancelled env model rounds_n users tp0 s rr rep :
  tp0 !! "cancelled" = None ->
  run env model rounds_n users tp0 s = Some rr ->
  final_report rr = Some rep ->
  test_params rep !! "cancelled" = None /\
  operation_status rep <> "测试已取消".
Proof.
  intros H0 Hrun Hrep.
  pose proof (run_report_no_cancelled _ _ _ _ _ _ _ _ H0 Hrun Hrep) as E.
  split; [exact E|].
  unfold operation_status, param_set. rewrite E.
  destruct (test_params rep !! "paused") as [v|]; [destruct (py_truthy v)|]; discriminate.
Qed.

Lemma run_never_reports_cancelled_witness :
  let env := demo_env "12" true io_ok in
  (∅ : gmap string PyVal) !! "cancelled" = None /\
  cancel_test ∈ concat cancel_mid_round /\
  exists rr rep,
    run env "llama3:8b" 5 3 ∅ cancel_mid_round = Some rr /\
    final_report rr = Some rep /\
    operation_status rep <> "测试已取消".
Proof.
  intros env.
  assert (H0 : (∅ : gmap string PyVal) !! "cancelled" = None) by reflexivity.
  split; [exact H0|]. split; [vm_compute; apply list_elem_of_here|].
  destruct (run_returns env "llama3:8b" 5 3 ∅ cancel_mid_round) as (rr & rep & Hr & Hf);
    [right; reflexivity|vm_compute; reflexivity|lia|].
  exists rr, rep. split; [exact Hr|]. split; [exact Hf|].
  exact (proj2 (run_never_reports_cancelled env "llama3:8b" 5 3 ∅ cancel_mid_round
                  rr rep H0 Hr Hf)).
Defined.

Lemma pause_wait_first_marks s f tp f' tp' s' :
  cancel_free s ->
  is_paused (arrive (default [] (head s)) f) = true ->
  is_cancelled f = false ->
  pause_wait s f tp = Some (f', tp', s') ->
  tp' = mark_paused tp.
Proof.
  intros Hs Hp Hc H. destruct s as [|cs [|cs2 s2]]; simpl in Hp.
  - simpl in H. rewrite Hp, Hc in H. discriminate.
  - inversion Hs; subst. simpl in H. rewrite Hp in H.
    rewrite arrive_cancel_free, Hc in H by assumption. discriminate.
  - inversion Hs as [|? ? H1 H2]; subst. inversion H2; subst.
    eapply pause_wait_marks; [exact Hp| |exact H].
    rewrite !arrive_cancel_free by assumption. exact Hc.
Qed.

(** X5.  Once the pause loop has run its body the report stays marked
    as paused.  Take a run of at least one round and one user over a
    catalogue with a prompt outside the custom category, whose caller
    set no [cancelled] parameter.  When nobody cancels and the worker
    is found paused at the pause check of round 1, the run, once it is
    resumed and has completed all its rounds, hands over a report with
    every result, with [paused] set and [completion_status] at its
    pause text, and the handler of [test_completed] shows the text for
    a paused test. *)
Theorem run_paused_then_completed env model rounds_n users tp0 s rr rep :
  cancel_free s -> 1 <= users -> 1 <= rounds_n ->
  fallback_pool (env_catalog env) <> [] ->
  tp0 !! "cancelled" = None ->
  is_paused (arrive (tick 0 s ++ tick 1 s) flags0) = true ->
  run env model rounds_n users tp0 s = Some rr ->
  final_report rr = Some rep ->
  (exists u, effective_users env users = Some u /\
             length (results rep) = 1 + rounds_n * u) /\
  test_params rep !! "paused" = Some (VBool true) /\
  test_params rep !! "completion_status" = Some (VStr "暂停完成") /\
  operation_status rep = "测试已暂停".
Proof.
  intros Hs Hu HR Hpool H0 Hp Hrun Hrep.
  destruct (run_completed _ _ _ _ _ _ _ _ Hrun Hrep)
    as (u & nc & w & o & st0 & st' & _ & Hprep & Hst & Hr & _ & ->).
  destruct (prepare_parallel_users _ _ _ _ _ _ _ Hprep) as [_ Hu1].
  destruct (Hu1 Hu) as [Hu2 Hu3].
  pose proof Hst as (Hf & Hsch & Hres & _ & _ & _ & _ & Htp).
  split.
  { exists u. split; [eapply effective_users_prepare, Hprep|].
    destruct (rounds_cancel_free env u nc (run_prompts env rounds_n users) rounds_n 0 st0
                (finished st')) as (st'' & Heq & G & _);
      [lia|rewrite Hsch; exact Hs|rewrite Hf; reflexivity|exact Hr|].
    injection Heq as <-. destruct G as (Hr' & _).
    rewrite finalize_results, Hr', Hres. simpl.
    rewrite length_map, rounds_outcomes_length; [lia|].
    simpl. apply run_prompts_enough; assumption. }
  assert (Hm : marked_paused (test_params (report st'))).
  { destruct rounds_n as [|todo]; [lia|]. cbn [rounds] in Hr.
    assert (Hs1 : cancel_free (sched (read st0))).
    { unfold read. simpl. rewrite Hsch. destruct s; [constructor|].
      inversion Hs; assumption. }
    assert (Hf1 : is_cancelled (flags (read st0)) = false).
    { unfold read. simpl. rewrite Hf, Hsch. rewrite arrive_cancel_free; [reflexivity|].
      destruct s; simpl; [apply not_elem_of_nil|]. inversion Hs; assumption. }
    rewrite Hf1 in Hr.
    destruct (pause_wait _ _ _) as [[[f tp] s1]|] eqn:Ep; [|discriminate].
    apply pause_wait_first_marks in Ep; [|exact Hs1| |exact Hf1].
    2:{ unfold read. cbn [sched flags]. rewrite Hf, Hsch.
        rewrite arrive_app in Hp. rewrite !head_tick.
        replace (tick 0 (tail s)) with (tick 1 s) by apply tick_S.
        exact Hp. }
    cbn [read report] in Ep.
    destruct (run_round_spec env u nc 0 (run_prompts env (S todo) users)
                (with_control f tp s1 (read st0))) as (st2 & E & _ & _ & _ & Et); [lia|].
    rewrite E in Hr. apply rounds_frame in Hr as [_ Hr].
    rewrite Et in Hr. cbn [with_control report set_test_params test_params] in Hr.
    rewrite Ep in Hr. rewrite mark_paused_idem in Hr.
    destruct Hr as [->| ->]; apply marked_mark. }
  destruct Hm as [M1 M2].
  assert (F1 : test_params (finalize (report st')) !! "paused" = Some (VBool true))
    by (rewrite finalize_params_other by discriminate; exact M1).
  split; [exact F1|].
  split; [rewrite finalize_params_other by discriminate; exact M2|].
  pose proof (run_report_no_cancelled _ _ _ _ _ _ _ _ H0 Hrun Hrep) as E.
  unfold operation_status, param_set. rewrite E, F1. reflexivity.
Qed.

Lemma run_paused_then_completed_witness :
  let env := demo_env "未知" false io_ok in
  (cancel_free pause_then_resume /\ 1 <= 1 /\ 1 <= 2 /\
   (fallback_pool (env_catalog env) <> []) /\
   ((∅ : gmap string PyVal) !! "cancelled" = None) /\
   (is_paused (arrive (tick 0 pause_then_resume ++ tick 1 pause_then_resume) flags0)
      = true)) /\
  exists rr rep,
    run env "llama3:8b" 2 1 ∅ pause_then_resume = Some rr /\
    final_report rr = Some rep /\
    length (results rep) = 1 + 2 * 1 /\
    operation_status rep = "测试已暂停".
Proof.
  intros env.
  assert (H1 : cancel_free pause_then_resume).
  { unfold cancel_free, pause_then_resume.
    repeat (constructor;
            [intros H; repeat (apply elem_of_cons in H as [H|H]; [discriminate|]);
             inversion H|]).
    constructor. }
  assert (H2 : 1 <= 1) by lia.
  assert (H3 : 1 <= 2) by lia.
  assert (H4 : fallback_pool (env_catalog env) <> []) by (vm_compute; discriminate).
  assert (H5 : (∅ : gmap string PyVal) !! "cancelled" = None) by reflexivity.
  assert (H6 : is_paused (arrive (tick 0 pause_then_resume ++ tick 1 pause_then_resume)
                            flags0) = true) by reflexivity.
  split; [auto 10|].
  destruct (run_returns env "llama3:8b" 2 1 ∅ pause_then_resume) as (rr & rep & Hr & Hf);
    [left; reflexivity|vm_compute; reflexivity|lia|].
  exists rr, rep. split; [exact Hr|]. split; [exact Hf|].
  destruct (run_paused_then_completed env "llama3:8b" 2 1 ∅ pause_then_resume rr rep
              H1 H2 H3 H4 H5 H6 Hr Hf) as ((u & Hu & Hl) & _ & _ & Hst).
  split; [|exact Hst]. vm_compute in Hu. injection Hu as <-. exact Hl.
Defined.

(** ** [PerformanceTester.test_case]: what a stream gives *)

Lemma append_cons x (a b : string) : String x a +:+ b = String x (a +:+ b).
Proof. reflexivity. Qed.

Lemma append_assoc (a b c : string) : (a +:+ b) +:+ c = a +:+ (b +:+ c).
Proof.
  induction a as [|x a IH]; [reflexivity|]. rewrite !append_cons, IH. reflexivity.
Qed.

Lemma append_nil_r (a : string) : a +:+ "" = a.
Proof.
  induction a as [|x a IH]; [reflexivity|]. rewrite append_cons, IH. reflexivity.
Qed.

Lemma default_last_cons {A} (d x : A) (l : list A) :
  default d (last (x :: l)) = default x (last l).
Proof. rewrite last_cons. destruct (last l); reflexivity. Qed.

Lemma omap_cons_eq {A B} (f : A -> option B) x l :
  omap f (x :: l) = match f x with Some y => y :: omap f l | None => omap f l end.
Proof. reflexivity. Qed.

Lemma default_last_step {A} (d : A) (o : option A) (l : list A) :
  default (default d o) (last l) =
  default d (last (match o with Some y => y :: l | None => l end)).
Proof. destruct o; cbn [default]; [rewrite default_last_cons|]; reflexivity. Qed.

(** The streaming loop when no timeout fires. *)
Lemma consume_undisturbed timeout ck items : forall i a,
  forallb (fun it => negb (fst it)) items = true ->
  exists a',
    consume timeout ck i items a = inr a' /\
    acc_text a' = acc_text a +:+ py_join (responses (map snd items)) /\
    acc_tokens a' = (acc_tokens a + Z.of_nat (length (responses (map snd items))))%Z /\
    token_count_from_api a' =
      default (token_count_from_api a) (last (omap ch_eval_count (map snd items))) /\
    eval_duration_from_api a' =
      default (eval_duration_from_api a) (last (omap ch_eval_duration (map snd items))) /\
    (1 <= i -> first_token_time a' = first_token_time a).
Proof.
  induction items as [|[fired c] items IH]; intros i a H.
  - exists a. simpl. rewrite append_nil_r. repeat split; try reflexivity. lia.
  - simpl in H. apply andb_true_iff in H as [Hf H]. simpl in Hf.
    destruct fired; [discriminate|]. cbn [consume].
    destruct (IH (S i) (step_chunk ck i c a) H) as (a' & E & Ht & Hn & Hc & Hd & Hft).
    exists a'. split; [exact E|].
    unfold responses in *. cbn [map snd]. rewrite !omap_cons_eq.
    rewrite <- !default_last_step.
    assert (Hi : 1 <= i -> first_token_time a' = first_token_time a).
    { intros Hi. rewrite Hft by lia. unfold step_chunk.
      destruct (ch_response c); cbn [first_token_time]; destruct i; try lia; reflexivity. }
    unfold step_chunk in Ht, Hn, Hc, Hd.
    destruct (ch_response c) as [r|] eqn:Er; cbn [acc_text acc_tokens
      token_count_from_api eval_duration_from_api] in *.
    + split; [rewrite Ht; cbn [py_join foldr]; apply append_assoc|].
      split; [rewrite Hn; cbn [length]; lia|].
      split; [exact Hc|]. split; [exact Hd|]. exact Hi.
    + split; [exact Ht|]. split; [exact Hn|].
      split; [exact Hc|]. split; [exact Hd|]. exact Hi.
Qed.

Lemma stream_undisturbed timeout cr ck :
  undisturbed cr ->
  exists a,
    stream timeout cr ck = inr a /\
    acc_text a = py_join (responses (map snd (cr_items cr))) /\
    acc_tokens a = Z.of_nat (length (responses (map snd (cr_items cr)))) /\
    token_count_from_api a = reported_count (map snd (cr_items cr)) /\
    eval_duration_from_api a = reported_duration (map snd (cr_items cr)).
Proof.
  intros [H1 H2]. unfold stream.
  destruct (consume_undisturbed timeout ck (cr_items cr) 0 acc0 H1)
    as (a & E & Ht & Hn & Hc & Hd & _).
  rewrite E, H2. exists a. split; [reflexivity|]. auto.
Qed.



Lemma consume_fired timeout ck items : forall i a,
  existsb fst items = true ->
  consume timeout ck i items a = inl (timeout_message timeout).
Proof.
  induction items as [|[fired c] items IH]; intros i a H; [discriminate|].
  simpl in H. cbn [consume]. destruct fired; [reflexivity|]. apply IH, H.
Qed.

(** X7.  When the timeout is found to have fired at some chunk,
    [test_case] discards what was streamed before: the result is the
    error result with the timeout message, zero metrics and no
    tokens. *)
Theorem test_case_timeout prompt_text ptype timeout cr ck :
  existsb fst (cr_items cr) = true ->
  let r := test_case prompt_text ptype timeout cr ck in
  error r = Some (timeout_message timeout) /\
  response_text r = "测试错误: " +:+ timeout_message timeout /\
  first_token_latency r = 0%Q /\ tokens_per_second r = 0%Q /\
  total_tokens r = 0%Z /\ total_time r = 0%Q.
Proof.
  intros H r. subst r. unfold test_case, stream.
  rewrite (consume_fired _ _ _ _ _ H). cbn. auto 10.
Qed.

Lemma test_case_timeout_witness :
  let cr := mkClientRun
              [(false, mkChunk (Some "a") None None None);
               (false, mkChunk (Some "b") None None None);
               (true, mkChunk (Some "c") (Some 3%Z) (Some 2000000000%Z) None)]
              None in
  existsb fst (cr_items cr) = true /\
  response_text (test_case "ping" "demo" 180 cr (clock 10 11)) =
    "测试错误: " +:+ timeout_message 180 /\
  total_tokens (test_case "ping" "demo" 180 cr (clock 10 11)) = 0%Z.
Proof.
  intros cr.
  assert (H : existsb fst (cr_items cr) = true) by reflexivity.
  split; [exact H|].
  destruct (test_case_timeout "ping" "demo" 180 cr (clock 10 11) H)
    as (_ & H1 & _ & _ & H2 & _).
  split; [exact H1|exact H2].
Defined.

(** The first chunk decides whether a first-token time is taken. *)
Lemma consume_first_token timeout ck c items a a' :
  first_token_time a = None ->
  consume timeout ck 0 ((false, c) :: items) a = inr a' ->
  first_token_time a' =
    match ch_response c with
    | Some _ => Some (t_first ck)
    | None => None
    end.
Proof.
  intros Ha H. cbn [consume] in H.
  assert (Hn : forallb (fun it => negb (fst it)) items = true).
  { clear -H. revert H. generalize (step_chunk ck 0 c a). generalize 1.
    induction items as [|[fired c'] items IH]; intros i b H; [reflexivity|].
    cbn [consume] in H. destruct fired; [discriminate|]. simpl. eapply IH, H. }
  destruct (consume_undisturbed timeout ck items 1 (step_chunk ck 0 c a) Hn)
    as (a2 & E & _ & _ & _ & _ & Hft).
  rewrite E in H. injection H as <-. rewrite Hft by lia.
  unfold step_chunk. rewrite Ha. cbn.
  destruct (ch_response c); reflexivity.
Qed.

(** X8.  The first-token time is taken at the first chunk only.  When
    the stream is empty or its first chunk carries no [response],
    [first_token_latency] is 0 whatever follows; and unless a chunk
    reports a positive [eval_duration], [tokens_per_second] is 0 as
    well. *)
Theorem test_case_first_chunk prompt_text ptype timeout cr ck :
  match cr_items cr with
  | (_, c) :: _ => ch_response c = None
  | [] => True
  end ->
  let r := test_case prompt_text ptype timeout cr ck in
  first_token_latency r = 0%Q /\
  ((reported_duration (map snd (cr_items cr)) <= 0)%Z -> tokens_per_second r = 0%Q).
Proof.
  intros H r. subst r. unfold test_case.
  destruct (stream timeout cr ck) as [msg|a] eqn:E; [split; reflexivity|].
  cbn [first_token_latency tokens_per_second].
  assert (Hu : undisturbed cr).
  { unfold stream in E. split.
    - destruct (consume timeout ck 0 (cr_items cr) acc0) eqn:Ec; [discriminate|].
      clear -Ec. revert Ec. generalize acc0. generalize 0.
      induction (cr_items cr) as [|[fired c'] items IH]; intros i b H; [reflexivity|].
      cbn [consume] in H. destruct fired; [discriminate|]. simpl. eapply IH, H.
    - destruct (consume timeout ck 0 (cr_items cr) acc0); [discriminate|].
      destruct (cr_end cr); [discriminate|reflexivity]. }
  destruct (stream_undisturbed timeout cr ck Hu) as (a2 & E2 & _ & _ & _ & Hd).
  rewrite E in E2. injection E2 as <-.
  assert (Hft : first_token_time a = None).
  { unfold stream in E.
    destruct (consume timeout ck 0 (cr_items cr) acc0) as [|a3] eqn:Ec; [discriminate|].
    destruct (cr_end cr); [discriminate|]. injection E as <-.
    destruct (cr_items cr) as [|[fired c] items]; [injection Ec as <-; reflexivity|].
    destruct fired; [discriminate|].
    rewrite (consume_first_token timeout ck c items acc0 a3 eq_refl Ec), H. reflexivity. }
  unfold latency_ms, generation_time. rewrite Hft. cbn [time_truthy].
  split; [reflexivity|]. intros Hle. rewrite Hd.
  destruct (0 <? reported_duration _)%Z eqn:E0; [apply Z.ltb_lt in E0; lia|].
  unfold throughput. unfold Qgt_bool. cbn. rewrite !andb_false_r. reflexivity.
Qed.

Lemma test_case_first_chunk_witness :
  let cr := mkClientRun
              [(false, mkChunk None None None None);
               (false, mkChunk (Some "a") None None None);
               (false, mkChunk (Some "b") None None None)]
              None in
  ch_response (mkChunk None None None None) = None /\
  (reported_duration (map snd (cr_items cr)) <= 0)%Z /\
  first_token_latency (test_case "ping" "demo" 600 cr (clock 10 11)) = 0%Q /\
  tokens_per_second (test_case "ping" "demo" 600 cr (clock 10 11)) = 0%Q.
Proof.
  intros cr.
  assert (H : ch_response (mkChunk None None None None) = None) by reflexivity.
  assert (H2 : (reported_duration (map snd (cr_items cr)) <= 0)%Z) by (vm_compute; discriminate).
  split; [exact H|]. split; [exact H2|].
  destruct (test_case_first_chunk "ping" "demo" 600 cr (clock 10 11) H) as [A B].
  split; [exact A|exact (B H2)].
Defined.

Lemma throughput_nonneg tokens gen : (0 <= throughput tokens gen)%Q.
Proof.
  unfold throughput.
  destruct ((1 <? tokens)%Z && Qgt_bool gen 0) eqn:E1.
  - apply andb_true_iff in E1 as [Ht Hg]. apply Z.ltb_lt in Ht.
    apply Qgt_bool_true in Hg.
    apply Qle_shift_div_l; [exact Hg|]. rewrite Qmult_0_l.
    unfold Qle. simpl. lia.
  - destruct ((tokens =? 1)%Z && Qgt_bool gen 0) eqn:E2; [|apply Qle_refl].
    apply andb_true_iff in E2 as [_ Hg]. apply Qgt_bool_true in Hg.
    apply Qle_shift_div_l; [exact Hg|]. rewrite Qmult_0_l. discriminate.
Qed.

(** X9.  [test_case] never reports a negative [tokens_per_second]; and
    when the clock does not run backwards, [first_token_latency] and
    [total_time] are not negative either. *)
Theorem test_case_nonnegative prompt_text ptype timeout cr ck :
  let r := test_case prompt_text ptype timeout cr ck in
  (0 <= tokens_per_second r)%Q /\
  ((t_sent ck <= t_first ck)%Q -> (0 <= first_token_latency r)%Q) /\
  ((t_start ck <= t_end ck)%Q -> (0 <= total_time r)%Q).
Proof.
  intros r. subst r. unfold test_case.
  destruct (stream timeout cr ck) as [msg|a] eqn:E;
    cbn [tokens_per_second first_token_latency total_time].
  { repeat split; intros; apply Qle_refl. }
  split; [apply throughput_nonneg|]. split.
  - intros Hc. unfold latency_ms.
    destruct (time_truthy (first_token_time a)) eqn:Et; [|apply Qle_refl].
    assert (Hft : first_token_time a = Some (t_first ck) \/ first_token_time a = None).
    { unfold stream in E.
      destruct (consume timeout ck 0 (cr_items cr) acc0) as [|a3] eqn:Ec; [discriminate|].
      destruct (cr_end cr); [discriminate|]. injection E as <-.
      destruct (cr_items cr) as [|[fired c] items]; [injection Ec as <-; auto|].
      destruct fired; [discriminate|].
      rewrite (consume_first_token timeout ck c items acc0 a3 eq_refl Ec).
      destruct (ch_response c); auto. }
    destruct Hft as [Hft|Hft]; rewrite Hft in *; [|discriminate Et]. cbn [default].
    apply Qmult_le_0_compat; [|unfold Qle; simpl; lia].
    unfold Qminus. rewrite <- (Qplus_opp_r (t_sent ck)).
    apply Qplus_le_l. exact Hc.
  - intros Hc. apply Qmult_le_0_compat; [|unfold Qle; simpl; lia].
    unfold Qminus. rewrite <- (Qplus_opp_r (t_start ck)).
    apply Qplus_le_l. exact Hc.
Qed.

Lemma test_case_nonnegative_witness :
  let r := test_case "ping" "demo" 600 stream_ok (clock 10 11) in
  ((t_sent (clock 10 11) <= t_first (clock 10 11))%Q /\
   (t_start (clock 10 11) <= t_end (clock 10 11))%Q) /\
  (0 <= tokens_per_second r)%Q /\ (0 <= first_token_latency r)%Q /\
  (0 <= total_time r)%Q.
Proof.
  intros r.
  assert (H1 : (t_sent (clock 10 11) <= t_first (clock 10 11))%Q) by (unfold Qle; simpl; lia).
  assert (H2 : (t_start (clock 10 11) <= t_end (clock 10 11))%Q) by (unfold Qle; simpl; lia).
  split; [split; assumption|].
  destruct (test_case_nonnegative "ping" "demo" 600 stream_ok (clock 10 11)) as (A & B & C).
  split; [exact A|]. split; [exact (B H1)|exact (C H2)].
Defined.

(** ** [run]: the version of the server; the two ratings *)

Lemma unpack2_wrong_length s :
  py_len s <> 2 -> exists msg, unpack2 s = inl msg.
Proof.
  unfold py_len, unpack2. intros H.
  destruct (py_chars s) as [|a [|b [|c l]]]; eauto. simpl in H. lia.
Qed.

(** X10.  With more than one user, [run] unpacks the version string
    into two names.  When the system information was obtained and the
    original configuration was read, and unless that string has exactly
    two characters, the run ends right after round 0 with
    [error_occurred] carrying the message of the failed unpacking,
    whatever the server supports and whatever the GUI thread requests:
    no round is run and no report is handed over. *)
Theorem run_version_unpack env model rounds_n users tp0 s info :
  1 < users -> env_system_info env = inr info -> env_original_config env = None ->
  py_len (env_version env) <> 2 ->
  exists msg,
    unpack2 (env_version env) = inl msg /\
    run env model rounds_n users tp0 s =
      Some (mkRunResult
              [progress_updated 0 (rounds_n * users);
               test_round_completed (warmup_result env model) "0";
               error_occurred msg]
              (init_test_params tp0 rounds_n users)).
Proof.
  intros Hu Hi Hc Hv.
  destruct (unpack2_wrong_length _ Hv) as (msg & E). exists msg. split; [exact E|].
  unfold run, startup. rewrite Hi, Hc.
  destruct (config_restart_ollama_service env None (env_service env)) as [[ok m] o1].
  unfold prepare_parallel. rewrite E.
  destruct (1 <? users)%nat eqn:E1; [|apply Nat.ltb_ge in E1; lia].
  reflexivity.
Qed.

Lemma run_version_unpack_witness :
  let env := demo_env "0.5.7" true io_ok in
  (1 < 3 /\ env_system_info env = inr "host" /\ env_original_config env = None /\
   py_len (env_version env) <> 2) /\
  exists msg,
    run env "llama3:8b" 5 3 ∅ [] =
      Some (mkRunResult
              [progress_updated 0 (5 * 3);
               test_round_completed (warmup_result env "llama3:8b") "0";
               error_occurred msg]
              (init_test_params ∅ 5 3)).
Proof.
  intros env.
  assert (H1 : 1 < 3) by lia.
  assert (H2 : env_system_info env = inr "host") by reflexivity.
  assert (H3 : env_original_config env = None) by reflexivity.
  assert (H4 : py_len (env_version env) <> 2) by (vm_compute; lia).
  split; [auto|].
  destruct (run_version_unpack env "llama3:8b" 5 3 ∅ [] "host" H1 H2 H3 H4) as (msg & _ & E).
  exists msg. exact E.
Defined.

(** X11.  The rating of [PerformanceReport.__post_init__] and the
    rating of the worker agree for every average other than 60, 30 and
    10. *)
Theorem ratings_differ_only_at_boundaries avg :
  ~ (avg == 60)%Q -> ~ (avg == 30)%Q -> ~ (avg == 10)%Q ->
  post_init_rating avg = worker_rating avg.
Proof.
  intros H60 H30 H10. unfold post_init_rating, worker_rating, Qge_bool, Qgt_bool.
  assert (E : forall t : Q, ~ (avg == t)%Q -> Qle_bool t avg = negb (Qle_bool avg t)).
  { intros t Ht. destruct (Qle_bool t avg) eqn:E1, (Qle_bool avg t) eqn:E2; try reflexivity.
    - apply Qle_bool_iff in E1, E2. exfalso. apply Ht. apply Qle_antisym; assumption.
    - exfalso. destruct (Qlt_le_dec avg t) as [Hl|Hl].
      + apply Qlt_le_weak, Qle_bool_iff in Hl. congruence.
      + apply Qle_bool_iff in Hl. congruence. }
  rewrite (E 60%Q H60), (E 30%Q H30), (E 10%Q H10). reflexivity.
Qed.

Lemma ratings_differ_only_at_boundaries_witness :
  (~ (45 == 60)%Q /\ ~ (45 == 30)%Q /\ ~ (45 == 10)%Q) /\
  post_init_rating 45 = worker_rating 45.
Proof.
  assert (H1 : ~ (45 == 60)%Q) by discriminate.
  assert (H2 : ~ (45 == 30)%Q) by discriminate.
  assert (H3 : ~ (45 == 10)%Q) by discriminate.
  split; [auto|]. exact (ratings_differ_only_at_boundaries 45 H1 H2 H3).
Defined.

(** ** [select_balanced_prompts] over the catalogue of a tester *)

Lemma cat_lookup_subset c k l x :
  cat_lookup c k = Some l -> x ∈ l -> x ∈ get_prompts c.
Proof.
  unfold get_prompts. induction c as [|[k0 ps] c IH]; simpl; [discriminate|].
  destruct (String.eqb k0 k).
  - intros H Hx. injection H as ->. apply elem_of_app. auto.
  - intros H Hx. apply elem_of_app. auto.
Qed.

Lemma cat_get_subset c k x : x ∈ cat_get c k -> x ∈ get_prompts c.
Proof.
  unfold cat_get. destruct (cat_lookup c k) as [l|] eqn:E; simpl.
  - apply cat_lookup_subset with k. exact E.
  - intros H. inversion H.
Qed.

Lemma all_available_get_prompts c cats x :
  x ∈ all_available c cats -> x ∈ get_prompts c.
Proof.
  unfold all_available. intros H. apply list_elem_of_In, in_concat in H as (l & Hl & Hx).
  apply in_map_iff in Hl as (k & <- & _). apply cat_get_subset with k.
  apply list_elem_of_In, Hx.
Qed.

Lemma adds_elem pool sel sel' n x :
  adds pool sel sel' n -> x ∈ sel' -> x ∈ sel \/ x ∈ pool.
Proof.
  intros (added & -> & _ & H) Hx. apply elem_of_app in Hx as [Hx|Hx]; auto.
Qed.

Lemma refill_adds_any pool remaining sel g :
  exists n, adds pool sel (fst (refill pool remaining sel g)) n.
Proof.
  destruct pool as [|d pool].
  - exists 0. destruct remaining; apply adds_refl.
  - exists remaining. apply refill_adds. discriminate.
Qed.

(** Whatever is selected before the shuffle is a custom prompt or a
    prompt of an available category. *)
Lemma balanced_selection_elem c n g x :
  x ∈ fst (balanced_selection c n g) -> x ∈ get_prompts c.
Proof.
  unfold balanced_selection.
  pose proof (custom_phase_spec c n g) as Hc.
  destruct (custom_phase c n g) as [[cs cats] g0].
  destruct Hc as (_ & _ & Hel).
  assert (H0 : forall y, y ∈ cs -> y ∈ get_prompts c)
    by (intros y Hy; eapply cat_get_subset, Hel, Hy).
  destruct ((0 <? n - length cs)%nat && nonempty cats); [|apply H0].
  destruct (first_pass_adds c ((n - length cs) / length cats) cats cats cs g0)
    as (n1 & H1 & _); [auto|].
  destruct (first_pass c ((n - length cs) / length cats) cats cs g0) as [sel1 g1].
  cbn [fst] in H1.
  assert (H1' : forall y, y ∈ sel1 -> y ∈ get_prompts c).
  { intros y Hy. destruct (adds_elem _ _ _ _ _ H1 Hy) as [Hy'|Hy'];
      [apply H0, Hy'|eapply all_available_get_prompts, Hy']. }
  destruct ((0 <? n - length sel1)%nat); [|apply H1'].
  pose proof (shuffle_Permutation cats g1) as Hperm.
  destruct (shuffle cats g1) as [cycle g2]. cbn [fst] in Hperm.
  pose proof (second_pass_adds c cats (n - length sel1) cycle sel1
                (selected_by_category0 cats sel1) g2) as H2.
  destruct (second_pass c (n - length sel1) cycle sel1 _ g2) as [[rem2 sel2] g3].
  destruct H2 as (n2 & H2 & _).
  { intros k Hk. rewrite <- Hperm. exact Hk. }
  destruct (refill_adds_any (all_available c cats) rem2 sel2 g3) as (n3 & H3).
  intros Hx.
  destruct (adds_elem _ _ _ _ _ H3 Hx) as [Hy|Hy];
    [|eapply all_available_get_prompts, Hy].
  destruct (adds_elem _ _ _ _ _ H2 Hy) as [Hz|Hz];
    [apply H1', Hz|eapply all_available_get_prompts, Hz].
Qed.

(** X12.  [select_balanced_prompts] returns prompts of the catalogue
    only, for every number asked for and every outcome of [random]. *)
Theorem select_balanced_prompts_from_catalog c n g x :
  x ∈ fst (select_balanced_prompts c n g) -> x ∈ get_prompts c.
Proof.
  unfold select_balanced_prompts.
  destruct (available_categories c); [intros H; inversion H|].
  pose proof (balanced_selection_elem c n g) as Hb.
  destruct (balanced_selection c n g) as [sel g1]. cbn [fst] in Hb.
  pose proof (shuffle_Permutation sel g1) as Hperm.
  destruct (shuffle sel g1) as [mixed g2]. cbn [fst] in Hperm |- *.
  intros Hx. apply Hb. rewrite <- Hperm, <- (take_drop n mixed).
  apply elem_of_app. left. exact Hx.
Qed.

Lemma select_balanced_prompts_from_catalog_witness :
  let sel := fst (select_balanced_prompts demo_catalog 7 [3; 1; 4; 1; 5; 9; 2; 6]) in
  exists x, x ∈ sel /\ x ∈ get_prompts demo_catalog.
Proof.
  intros sel. exists (nth 0 sel (demo_prompt "" "")).
  assert (H : nth 0 sel (demo_prompt "" "") ∈ sel) by (vm_compute; left).
  split; [exact H|].
  exact (select_balanced_prompts_from_catalog demo_catalog 7 [3; 1; 4; 1; 5; 9; 2; 6] _ H).
Defined.

Lemma from_category_app c k a b :
  from_category c k (a ++ b) = from_category c k a + from_category c k b.
Proof. unfold from_category. rewrite filter_app, length_app. reflexivity. Qed.

Lemma from_category_all c k s :
  (forall x, x ∈ s -> x ∈ cat_get c k) -> from_category c k s = length s.
Proof.
  unfold from_category. intros H. induction s as [|x s IH]; [reflexivity|].
  rewrite filter_cons_True by (apply H; left). simpl. f_equal.
  apply IH. intros y Hy. apply H. right. exact Hy.
Qed.

Lemma adds_from_category c k pool sel sel' n :
  adds pool sel sel' n -> from_category c k sel <= from_category c k sel'.
Proof. intros (added & -> & _). rewrite from_category_app. lia. Qed.

(** The first pass takes [per] prompts of every category that has as
    many, and all prompts of a smaller one. *)
Lemma first_pass_floor c per k cats : forall sel g,
  k ∈ cats ->
  from_category c k sel + Nat.min per (length (cat_get c k)) <=
  from_category c k (fst (first_pass c per cats sel g)).
Proof.
  induction cats as [|k' cats IH]; intros sel g Hk; [inversion Hk|].
  assert (Hmono : forall sel0 g0,
    from_category c k sel0 <= from_category c k (fst (first_pass c per cats sel0 g0))).
  { intros sel0 g0.
    destruct (first_pass_adds c per cats cats sel0 g0) as (n & Hn & _); [auto|].
    eapply adds_from_category, Hn. }
  cbn [first_pass].
  destruct (decide (k' = k)) as [->|Hne].
  - destruct (cat_lookup c k) as [[|p cps]|] eqn:El.
    + replace (cat_get c k) with (@nil TestPrompt) by (unfold cat_get; rewrite El; reflexivity).
      simpl length. rewrite Nat.min_0_r, Nat.add_0_r. apply Hmono.
    + replace (cat_get c k) with (p :: cps) by (unfold cat_get; rewrite El; reflexivity).
      destruct (0 <? Nat.min per (length (p :: cps)))%nat eqn:E0.
      * pose proof (sample_length (Nat.min per (length (p :: cps))) (p :: cps) g) as Hlen.
        pose proof (sample_elem (Nat.min per (length (p :: cps))) (p :: cps) g) as Hel.
        destruct (sample (p :: cps) (Nat.min per (length (p :: cps))) g) as [s g1].
        cbn [fst] in Hlen, Hel.
        etransitivity; [|apply Hmono].
        rewrite from_category_app, (from_category_all c k s); [lia|].
        intros x Hx. unfold cat_get. rewrite El. apply Hel, Hx.
      * apply Nat.ltb_ge in E0. etransitivity; [|apply Hmono]. lia.
    + replace (cat_get c k) with (@nil TestPrompt) by (unfold cat_get; rewrite El; reflexivity).
      simpl length. rewrite Nat.min_0_r, Nat.add_0_r. apply Hmono.
  - apply elem_of_cons in Hk as [Hk|Hk]; [congruence|].
    destruct (cat_lookup c k') as [[|p cps]|]; try (apply IH, Hk).
    destruct (0 <? Nat.min per (length (p :: cps)))%nat; [|apply IH, Hk].
    destruct (sample (p :: cps) (Nat.min per (length (p :: cps))) g) as [s g1].
    etransitivity; [|apply IH, Hk]. rewrite from_category_app. lia.
Qed.

Lemma balanced_selection_floor c n g k :
  k ∈ remove_first custom_key (available_categories c) ->
  Nat.min (initial_per_category c n) (length (cat_get c k)) <=
  from_category c k (fst (balanced_selection c n g)).
Proof.
  intros Hk. unfold balanced_selection, initial_per_category.
  pose proof (custom_phase_spec c n g) as Hc.
  destruct (custom_phase c n g) as [[cs cats] g0].
  destruct Hc as (Hcats & Hlen & _). rewrite <- Hcats in *. rewrite <- Hlen.
  destruct ((0 <? n - length cs)%nat) eqn:E0; simpl.
  2:{ apply Nat.ltb_ge in E0. replace (n - length cs) with 0 by lia.
      rewrite Nat.Div0.div_0_l. simpl. lia. }
  destruct (nonempty cats) eqn:En; [|destruct cats; [inversion Hk|discriminate]].
  pose proof (first_pass_floor c ((n - length cs) / length cats) k cats cs g0 Hk) as Hf.
  destruct (first_pass c ((n - length cs) / length cats) cats cs g0) as [sel1 g1].
  cbn [fst] in Hf.
  destruct ((0 <? n - length sel1)%nat); [|cbn [fst]; lia].
  pose proof (shuffle_Permutation cats g1) as Hperm.
  destruct (shuffle cats g1) as [cycle g2]. cbn [fst] in Hperm.
  pose proof (second_pass_adds c cats (n - length sel1) cycle sel1
                (selected_by_category0 cats sel1) g2) as H2.
  destruct (second_pass c (n - length sel1) cycle sel1 _ g2) as [[rem2 sel2] g3].
  destruct H2 as (n2 & H2 & _).
  { intros k' Hk'. rewrite <- Hperm. exact Hk'. }
  destruct (refill_adds_any (all_available c cats) rem2 sel2 g3) as (n3 & H3).
  apply (adds_from_category c k) in H2, H3. lia.
Qed.

(** X13.  The selection is balanced from below.  With [n >= 1] and a
    prompt outside the custom category, every category other than the
    custom one that holds a prompt contributes at least
    [initial_per_category] prompts (the prompts left after the reserved
    custom ones, divided by the number of these categories), or all of
    its prompts when it holds fewer. *)
Theorem select_balanced_prompts_floor c n g k :
  1 <= n -> fallback_pool c <> [] ->
  k ∈ remove_first custom_key (available_categories c) ->
  Nat.min (initial_per_category c n) (length (cat_get c k)) <=
  from_category c k (fst (select_balanced_prompts c n g)).
Proof.
  intros Hn Hpool Hk. unfold select_balanced_prompts.
  pose proof (fallback_pool_available c Hpool) as Hav.
  destruct (available_categories c) as [|k0 av] eqn:Eav; [contradiction|].
  rewrite <- Eav in Hk.
  pose proof (balanced_selection_floor c n g k Hk) as Hf.
  destruct (balanced_selection_spec c n g Hn Hpool)
    as (customs & others & Hsel & _ & _ & _ & Hlen).
  destruct (balanced_selection c n g) as [sel g1]. cbn [fst] in Hsel, Hf. subst sel.
  pose proof (shuffle_Permutation (customs ++ others) g1) as Hperm.
  destruct (shuffle (customs ++ others) g1) as [mixed g2]. cbn [fst] in Hperm |- *.
  assert (Hm : length mixed = n) by (rewrite Hperm; exact Hlen).
  rewrite take_ge by lia. unfold from_category in *. rewrite Hperm. exact Hf.
Qed.

Lemma select_balanced_prompts_floor_witness :
  (1 <= 7 /\ fallback_pool demo_catalog <> [] /\
   "编程" ∈ remove_first custom_key (available_categories demo_catalog)) /\
  3 <= from_category demo_catalog "编程"
         (fst (select_balanced_prompts demo_catalog 7 [3; 1; 4; 1; 5; 9; 2; 6])).
Proof.
  assert (H1 : 1 <= 7) by lia.
  assert (H2 : fallback_pool demo_catalog <> []) by (vm_compute; discriminate).
  assert (H3 : "编程" ∈ remove_first custom_key (available_categories demo_catalog))
    by (vm_compute; left).
  split; [auto|].
  exact (select_balanced_prompts_floor demo_catalog 7 [3; 1; 4; 1; 5; 9; 2; 6] "编程"
           H1 H2 H3).
Defined.

(** X14.  With nothing but custom prompts in the catalogue the fallback
    has nothing to draw from.  For [n >= 1] the selection then is the
    reserved custom prompts alone, [min(customCount, max(1, n / 5))] of
    them (none when there is no custom prompt either), and so it falls
    short of [n] whenever [n >= 2]. *)
Theorem select_balanced_prompts_custom_alone c n g :
  fallback_pool c = [] -> 1 <= n ->
  length (fst (select_balanced_prompts c n g)) =
    Nat.min (length (cat_get c custom_key)) (Nat.max 1 (n / 5)) /\
  (2 <= n -> length (fst (select_balanced_prompts c n g)) < n).
Proof.
  intros Hpool Hn.
  rewrite (select_balanced_prompts_only_custom c n g Hpool).
  assert (Hdiv : n / 5 <= n) by (apply Nat.Div0.div_le_upper_bound; lia).
  assert (Hr : reserved_custom c n =
               Nat.min (length (cat_get c custom_key)) (Nat.max 1 (n / 5))).
  { unfold reserved_custom, cat_get, custom_count.
    destruct (cat_lookup c custom_key) as [[|p ps]|]; reflexivity. }
  rewrite Hr. split; [lia|].
  intros H2.
  assert (Hlt : n / 5 < n) by (apply Nat.div_lt; lia).
  lia.
Qed.

Lemma select_balanced_prompts_custom_alone_witness :
  let c := [("自定义", [demo_prompt "自定义" "a"; demo_prompt "自定义" "b"])] in
  (fallback_pool c = [] /\ 1 <= 7) /\
  length (fst (select_balanced_prompts c 7 [3; 1; 4])) = 1.
Proof.
  intros c.
  assert (H : fallback_pool c = []) by reflexivity.
  assert (H1 : 1 <= 7) by lia.
  split; [auto|].
  exact (proj1 (select_balanced_prompts_custom_alone c 7 [3; 1; 4] H H1)).
Defined.


(** ** The catalogue only grows *)

Lemma cat_get_touch c k' k : cat_get (cat_touch c k') k = cat_get c k.
Proof.
  unfold cat_get. induction c as [|[k0 l0] c IH]; simpl.
  - destruct (String.eqb k' k); reflexivity.
  - destruct (String.eqb k0 k') eqn:E'; simpl; destruct (String.eqb k0 k); auto.
Qed.

Lemma cat_get_push c k' q k :
  exists new, cat_get (cat_push c k' q) k = cat_get c k ++ new /\
              forall p, p ∈ new -> p = q /\ k = k'.
Proof.
  unfold cat_get. induction c as [|[k0 l0] c IH]; simpl.
  - exists []. split; [reflexivity|]. intros p H. inversion H.
  - destruct (String.eqb k0 k') eqn:E'; simpl; destruct (String.eqb k0 k) eqn:E.
    + apply String.eqb_eq in E, E'. subst. exists [q]. split; [reflexivity|].
      intros p H. apply list_elem_of_singleton in H. auto.
    + exists []. rewrite app_nil_r. split; [reflexivity|]. intros p H. inversion H.
    + exists []. rewrite app_nil_r. split; [reflexivity|]. intros p H. inversion H.
    + exact IH.
Qed.

Lemma cat_get_append c k' q k :
  cat_get (cat_append c k' q) k = cat_get c k ++ if String.eqb k' k then [q] else [].
Proof.
  unfold cat_append.
  assert (H : forall c0, is_Some (cat_lookup c0 k') ->
    cat_get (cat_push c0 k' q) k = cat_get c0 k ++ if String.eqb k' k then [q] else []).
  { clear c. intros c [l Hl]. unfold cat_get.
    induction c as [|[k0 l0] c IH]; simpl in *; [discriminate|].
    destruct (String.eqb k0 k') eqn:E'; simpl.
    - apply String.eqb_eq in E'. subst k0.
      destruct (String.eqb k' k); simpl; [reflexivity|]. rewrite app_nil_r. reflexivity.
    - destruct (String.eqb k0 k) eqn:E; [|apply IH, Hl].
      apply String.eqb_eq in E. subst k0. rewrite String.eqb_sym, E'.
      simpl. rewrite app_nil_r. reflexivity. }
  rewrite H, cat_get_touch; [reflexivity|].
  destruct (cat_lookup_touch_same c k') as [l Hl]. eauto.
Qed.

Lemma extends_refl P c : extends P c c.
Proof. intros k. exists []. rewrite app_nil_r. split; [reflexivity|]. inversion 1. Qed.

Lemma extends_trans P c1 c2 c3 : extends P c1 c2 -> extends P c2 c3 -> extends P c1 c3.
Proof.
  intros H1 H2 k. destruct (H1 k) as (n1 & E1 & P1). destruct (H2 k) as (n2 & E2 & P2).
  exists (n1 ++ n2). rewrite E2, E1, app_assoc. split; [reflexivity|].
  intros p Hp. apply elem_of_app in Hp as [Hp|Hp]; auto.
Qed.

Lemma extends_touch P c k : extends P c (cat_touch c k).
Proof.
  intros k'. exists []. rewrite cat_get_touch, app_nil_r. split; [reflexivity|]. inversion 1.
Qed.

Lemma extends_push (P : string -> TestPrompt -> Prop) c k q :
  P k q -> extends P c (cat_push c k q).
Proof.
  intros HP k'. destruct (cat_get_push c k q k') as (new & E & Hn).
  exists new. split; [exact E|]. intros p Hp. destruct (Hn p Hp) as [-> ->]. exact HP.
Qed.

Lemma extends_append (P : string -> TestPrompt -> Prop) c k q :
  P k q -> extends P c (cat_append c k q).
Proof.
  intros HP. unfold cat_append. eapply extends_trans; [apply extends_touch|].
  apply extends_push, HP.
Qed.

Lemma extends_load_lines ls : forall cur c,
  extends (fun k p => content p = k) c (load_lines ls cur c).
Proof.
  induction ls as [|[k|nm cont] ls IH]; intros cur c; simpl.
  - apply extends_refl.
  - eapply extends_trans; [apply extends_touch|apply IH].
  - destruct (cat_lookup c cur); [|apply extends_refl].
    eapply extends_trans; [apply extends_push|apply IH]. reflexivity.
Qed.

Lemma extends_apply_op c op : extends (fun k p => content p = k) c (apply_op c op).
Proof.
  destruct op as [n k t|lines]; simpl.
  - unfold tab_add_prompt, add_custom_prompt. apply extends_append. reflexivity.
  - apply extends_load_lines.
Qed.

(** X15.  Adding a prompt through the dialog and importing a prompt
    file only ever append to the catalogue: after any sequence of such
    operations every category holds what it held before, in the same
    order, followed by the new prompts.  Every new prompt has the name
    of the category it is filed under as its [content], since
    [TestPrompt] is built positionally from (name, content, category)
    while its fields are (category, name, content). *)
Theorem catalog_ops_append ops : forall c k,
  exists new,
    cat_get (foldl apply_op c ops) k = cat_get c k ++ new /\
    forall p, p ∈ new -> content p = k.
Proof.
  induction ops as [|op ops IH]; intros c k; simpl.
  - apply (extends_refl (fun k p => content p = k) c k).
  - apply (extends_trans (fun k p => content p = k) c (apply_op c op) _
             (extends_apply_op c op)).
    intros k'. apply IH.
Qed.

(** X16.  [_init_default_prompts] groups the built-in prompts by their
    [category] field: afterwards a category holds what it held before
    followed by the built-in prompts of that category, in the order of
    [DEFAULT_PROMPTS]. *)
Theorem init_default_prompts_groups defaults : forall c k,
  cat_get (init_default_prompts defaults c) k =
  cat_get c k ++ filter (fun p => category p = k) defaults.
Proof.
  unfold init_default_prompts.
  induction defaults as [|d ds IH]; intros c k; cbn [foldl].
  - rewrite app_nil_r. reflexivity.
  - rewrite IH, cat_get_append.
    destruct (String.eqb (category d) k) eqn:E.
    + apply String.eqb_eq in E. rewrite filter_cons_True by exact E.
      rewrite <- app_assoc. reflexivity.
    + apply String.eqb_neq in E. rewrite filter_cons_False by exact E.
      rewrite app_nil_r. reflexivity.
Qed.

(** X17.  A prompt entered in the dialog is filed under its name.  With
    the inputs stripped, [_add_prompt] appends one prompt to the
    category called like the name that was typed, and changes no other
    category; the stored prompt has the typed content as [category], the
    typed category (or the custom one) as [name], and the typed name as
    [content].  In particular it reaches the custom category only when
    it is named like it. *)
Theorem tab_add_prompt_lookup name_input category_input content_input c k :
  let nm := py_strip name_input in
  let cat := if String.eqb (py_strip category_input) "" then custom_key
             else py_strip category_input in
  cat_get (tab_add_prompt name_input category_input content_input c) k =
  cat_get c k ++
    if String.eqb nm k then
      [mkTestPrompt (py_strip content_input) cat nm]
    else [].
Proof.
  intros nm cat. unfold tab_add_prompt, add_custom_prompt, dialog_get_prompt.
  cbn [name content category]. apply cat_get_append.
Qed.

(** X18.  For a tester whose built-in prompts include one outside the
    custom category, whatever file it loaded at construction and
    whatever was added or imported since, [select_balanced_prompts]
    returns exactly [n] prompts for every [n >= 1]. *)
Theorem tester_selection_exact defaults file ops n g :
  (exists p, p ∈ defaults /\ category p <> custom_key) -> 1 <= n ->
  length (fst (select_balanced_prompts
                 (foldl apply_op (new_catalog defaults file) ops) n g)) = n.
Proof.
  intros Hd Hn. apply select_balanced_prompts_spec; [exact Hn|].
  apply has_fallback_pool.
  pose proof (new_catalog_has_fallback defaults file Hd) as H.
  revert H. generalize (new_catalog defaults file).
  induction ops as [|op ops IH]; intros c H; simpl; [exact H|].
  apply IH. destruct op as [nm k t|lines]; simpl.
  - apply has_fallback_add_custom, H.
  - apply has_fallback_load, H.
Qed.

Lemma tester_selection_exact_witness :
  let defaults := [demo_prompt "编程" "代码生成"; demo_prompt "推理" "逻辑推理"] in
  let ops := [op_add_prompt "我的提示词" "" "你好"; op_import_prompts ["[编程]"; "a: b"]] in
  ((exists p, p ∈ defaults /\ category p <> custom_key) /\ 1 <= 6) /\
  length (fst (select_balanced_prompts
                 (foldl apply_op (new_catalog defaults None) ops) 6 [2; 7; 1])) = 6.
Proof.
  intros defaults ops.
  assert (H1 : exists p, p ∈ defaults /\ category p <> custom_key).
  { exists (demo_prompt "编程" "代码生成"). split; [left|discriminate]. }
  assert (H2 : 1 <= 6) by lia.
  split; [auto|].
  exact (tester_selection_exact defaults None ops 6 [2; 7; 1] H1 H2).
Defined.

Lemma find_name_unique text : forall (l : list TestPrompt) p,
  p ∈ l -> content p = text ->
  (forall q, q ∈ l -> content q = text -> name q = name p) ->
  exists q, List.find (fun p => String.eqb (content p) text) l = Some q /\
            name q = name p.
Proof.
  induction l as [|x l IH]; intros p Hp Hc Hu; [inversion Hp|]. simpl.
  destruct (String.eqb (content x) text) eqn:E.
  - exists x. split; [reflexivity|]. apply Hu; [left|]. apply String.eqb_eq, E.
  - apply elem_of_cons in Hp as [->|Hp].
    + apply String.eqb_neq in E. contradiction.
    + apply (IH p Hp Hc). intros q Hq. apply Hu. right. exact Hq.
Qed.

(** X19.  [_get_prompt_name_by_content] returns the name of a prompt of
    the catalogue with the given content, provided all prompts with
    that content have the same name; it returns the empty string when no
    prompt has the content. *)
Theorem get_prompt_name_by_content_spec c text :
  (forall p, p ∈ get_prompts c -> content p = text ->
     (forall q, q ∈ get_prompts c -> content q = text -> name q = name p) ->
     get_prompt_name_by_content c text = name p) /\
  ((forall p, p ∈ get_prompts c -> content p <> text) ->
   get_prompt_name_by_content c text = "").
Proof.
  unfold get_prompt_name_by_content. split.
  - intros p Hp Hc Hu.
    destruct (find_name_unique text _ p Hp Hc Hu) as (q & -> & Hq). exact Hq.
  - intros Hn. destruct (List.find _ _) as [q|] eqn:E; [|reflexivity].
    apply find_some in E as [Hq E]. apply String.eqb_eq in E.
    exfalso. apply (Hn q); [apply list_elem_of_In, Hq|exact E].
Qed.

Lemma cat_lookup_touch_none c k' k :
  k' <> k -> cat_lookup c k = None -> cat_lookup (cat_touch c k') k = None.
Proof.
  intros Hk. induction c as [|[k0 l0] c IH]; simpl.
  - intros _. destruct (String.eqb k' k) eqn:E; [|reflexivity].
    apply String.eqb_eq in E. contradiction.
  - destruct (String.eqb k0 k) eqn:E0; [discriminate|]. intros H.
    destruct (String.eqb k0 k'); simpl; rewrite E0; auto.
Qed.

Lemma cat_lookup_push_none c k' k q :
  cat_lookup c k = None -> cat_lookup (cat_push c k' q) k = None.
Proof.
  induction c as [|[k0 l0] c IH]; simpl; [auto|].
  destruct (String.eqb k0 k) eqn:E0; [discriminate|]. intros H.
  destruct (String.eqb k0 k'); simpl; rewrite E0; auto.
Qed.

Lemma cat_lookup_init_none defaults : forall c k,
  Forall (fun p => category p <> k) defaults ->
  cat_lookup c k = None ->
  cat_lookup (init_default_prompts defaults c) k = None.
Proof.
  unfold init_default_prompts.
  induction defaults as [|p ps IH]; intros c k Hall Hc; [exact Hc|].
  cbn [foldl]. inversion Hall as [|? ? Hp Hps]; subst.
  apply IH; [exact Hps|]. unfold cat_append.
  apply cat_lookup_push_none, cat_lookup_touch_none; [exact Hp|exact Hc].
Qed.

(** X20.  A prompt file whose first line that is neither blank nor a
    comment is a prompt line, before any category line, is not imported
    at all when the catalogue has no category for unfiled prompts: the
    append raises [KeyError], the handler around the loop prints it, and
    the catalogue is left as it was, whatever the rest of the file
    holds.  This is so for every new tester none of whose built-in
    prompts is in that category: it is left with the built-in prompts
    alone. *)
Theorem load_prompts_missing_category lines nm cont rest :
  omap parse_line lines = prompt_line nm cont :: rest ->
  (forall c, cat_lookup c "未分类" = None -> load_prompts_text lines c = c) /\
  (forall defaults,
     Forall (fun p => category p <> "未分类") defaults ->
     new_catalog defaults (Some (omap parse_line lines)) = new_catalog defaults None).
Proof.
  intros Hl.
  assert (H : forall c, cat_lookup c "未分类" = None ->
                        load_prompts_from_file (omap parse_line lines) c = c).
  { intros c Hc. unfold load_prompts_from_file.
    rewrite Hl. cbn [load_lines]. rewrite Hc. reflexivity. }
  split; [exact H|].
  intros defaults Hall. unfold new_catalog.
  apply H, cat_lookup_init_none; [exact Hall|reflexivity].
Qed.

Lemma load_prompts_missing_category_witness :
  let lines := ["# prompts"; ""; "  greeting : say hello "; "[math]"; "sum: 1+1"] in
  let c := [("math", [demo_prompt "math" "a"])] in
  omap parse_line lines =
    [prompt_line "greeting" "say hello"; category_line "math"; prompt_line "sum" "1+1"] /\
  load_prompts_text lines c = c.
Proof.
  intros lines c.
  assert (H1 : omap parse_line lines =
               [prompt_line "greeting" "say hello"; category_line "math";
                prompt_line "sum" "1+1"]) by (vm_compute; reflexivity).
  split; [exact H1|].
  exact (proj1 (load_prompts_missing_category lines _ _ _ H1) c eq_refl).
Defined.

(** ** [int] and [str] on the decimal notation *)

Lemma length_append (a b : string) :
  String.length (a +:+ b) = String.length a + String.length b.
Proof. induction a as [|x a IH]; [reflexivity|]. rewrite append_cons. simpl. lia. Qed.

Lemma all_digits_append a b : all_digits (a +:+ b) = all_digits a && all_digits b.
Proof.
  induction a as [|x a IH]; [reflexivity|]. rewrite append_cons. simpl.
  rewrite IH, andb_assoc. reflexivity.
Qed.

Lemma digits_fold_append a b acc :
  digits_fold acc (a +:+ b) = digits_fold (digits_fold acc a) b.
Proof.
  revert acc. induction a as [|x a IH]; intros acc; [reflexivity|].
  rewrite append_cons. simpl. apply IH.
Qed.

Lemma pretty_N_char_digit d :
  (d < 10)%N -> N_of_ascii (pretty_N_char d) = (48 + d)%N.
Proof.
  intros H.
  assert (d = 0 \/ d = 1 \/ d = 2 \/ d = 3 \/ d = 4 \/ d = 5 \/ d = 6 \/ d = 7 \/
          d = 8 \/ d = 9)%N as Hd by lia.
  repeat (destruct Hd as [->|Hd]; [reflexivity|]). subst. reflexivity.
Qed.

Lemma pretty_N_char_is_digit d : (d < 10)%N -> is_digit (pretty_N_char d) = true.
Proof.
  intros H.
  assert (d = 0 \/ d = 1 \/ d = 2 \/ d = 3 \/ d = 4 \/ d = 5 \/ d = 6 \/ d = 7 \/
          d = 8 \/ d = 9)%N as Hd by lia.
  repeat (destruct Hd as [->|Hd]; [reflexivity|]). subst. reflexivity.
Qed.

(** [pretty_N_go x s] writes the digits of [x] in front of [s]. *)
Lemma pretty_N_go_digits x : forall s,
  exists ds, pretty_N_go x s = ds +:+ s /\ all_digits ds = true /\
             (forall acc, digits_fold acc ds = (acc * 10 ^ N.of_nat (String.length ds) + x)%N) /\
             ((0 < x)%N -> ds <> "").
Proof.
  induction (N.lt_wf_0 x) as [x _ IH]. intros s.
  destruct (N.eq_dec x 0%N) as [->|Hx].
  - exists "". rewrite pretty_N_go_0. split; [reflexivity|]. split; [reflexivity|].
    split; [intros acc; simpl; lia|lia].
  - assert (H0 : (0 < x)%N) by lia.
    rewrite pretty_N_go_step by exact H0.
    destruct (IH (x `div` 10)%N (N.div_lt x 10 H0 eq_refl)
                 (String (pretty_N_char (x `mod` 10)) s)) as (ds & E & Hd & Hf & _).
    pose proof (pretty_N_char_digit (x `mod` 10)%N (N.mod_lt x 10 ltac:(lia))) as Hc.
    exists (ds +:+ String (pretty_N_char (x `mod` 10)) "").
    split; [rewrite E, append_assoc; reflexivity|].
    split.
    { rewrite all_digits_append, Hd. cbn [all_digits].
      rewrite (pretty_N_char_is_digit _ (N.mod_lt x 10 ltac:(lia))). reflexivity. }
    split.
    { intros acc. rewrite digits_fold_append, Hf. cbn [digits_fold]. rewrite Hc.
      rewrite length_append. cbn [String.length].
      rewrite Nat2N.inj_add, N.pow_add_r. change (N.of_nat 1) with 1%N.
      rewrite N.pow_1_r.
      pose proof (N.div_mod x 10 ltac:(lia)) as Hdm.
      set (q := (x `div` 10)%N) in *. set (r := (x `mod` 10)%N) in *.
      set (pw := (10 ^ N.of_nat (String.length ds))%N).
      rewrite Hdm. nia. }
    intros _. destruct ds; discriminate.
Qed.

Lemma pretty_N_digits (x : N) :
  all_digits (pretty x) = true /\ pretty x <> "" /\
  forall acc, digits_fold acc (pretty x) =
              (acc * 10 ^ N.of_nat (String.length (pretty x)) + x)%N.
Proof.
  unfold pretty, pretty_N. destruct (decide (x = 0%N)) as [->|Hx].
  - split; [reflexivity|]. split; [discriminate|]. intros acc. simpl. lia.
  - destruct (pretty_N_go_digits x "") as (ds & E & Hd & Hf & Hn).
    rewrite E, append_nil_r. split; [exact Hd|]. split; [apply Hn; lia|exact Hf].
Qed.

Lemma is_digit_cases a :
  is_digit a = true ->
  a ∈ ["0"; "1"; "2"; "3"; "4"; "5"; "6"; "7"; "8"; "9"]%char.
Proof.
  unfold is_digit. intros H. apply andb_true_iff in H as [H1 H2].
  apply N.leb_le in H1, H2. rewrite <- (ascii_N_embedding a).
  remember (N_of_ascii a) as n eqn:En. clear En.
  assert (n = 48 \/ n = 49 \/ n = 50 \/ n = 51 \/ n = 52 \/ n = 53 \/ n = 54 \/
          n = 55 \/ n = 56 \/ n = 57)%N as Hn by lia.
  clear H1 H2. apply list_elem_of_In.
  repeat (destruct Hn as [->|Hn]; [simpl; repeat ((left; reflexivity) || right)|]).
  subst. simpl. repeat ((left; reflexivity) || right).
Qed.

Lemma digit_not_space a : is_digit a = true -> is_space (String a "") = false.
Proof.
  intros H. apply is_digit_cases in H.
  repeat (apply elem_of_cons in H as [->|H]; [reflexivity|]). inversion H.
Qed.

Lemma digit_not_continuation a : is_digit a = true -> is_continuation a = false.
Proof.
  intros H. apply is_digit_cases in H.
  repeat (apply elem_of_cons in H as [->|H]; [reflexivity|]). inversion H.
Qed.

Lemma digit_value_digit rt a :
  is_digit a = true -> digit_value rt (String a "") = Some (N_of_ascii a - 48)%N.
Proof.
  intros H. unfold digit_value. unfold is_digit in H. rewrite H.
  apply andb_true_iff in H as [_ H]. apply N.leb_le in H.
  destruct (N_of_ascii a <? 128)%N eqn:E; [reflexivity|]. apply N.ltb_ge in E. lia.
Qed.

Lemma digit_not_underscore a : is_digit a = true -> String.eqb (String a "") "_" = false.
Proof.
  intros H. apply is_digit_cases in H.
  repeat (apply elem_of_cons in H as [->|H]; [reflexivity|]). inversion H.
Qed.

Lemma py_chars_digits ds : all_digits ds = true -> py_chars ds = chars_of ds.
Proof.
  induction ds as [|a ds IH]; [reflexivity|]. simpl. intros H.
  apply andb_true_iff in H as [Ha H]. rewrite (IH H).
  destruct ds as [|b ds]; [reflexivity|]. simpl in H |- *.
  apply andb_true_iff in H as [Hb _]. unfold starts_with_continuation.
  rewrite (digit_not_continuation b Hb). reflexivity.
Qed.

Lemma drop_spaces_none l :
  Forall (fun ch => is_space ch = false) l -> drop_spaces l = l.
Proof. destruct 1 as [|ch l H]; simpl; [reflexivity|]. rewrite H. reflexivity. Qed.

Lemma chars_of_digits_not_space ds :
  all_digits ds = true -> Forall (fun ch => is_space ch = false) (chars_of ds).
Proof.
  induction ds as [|a ds IH]; simpl; intros H; [constructor|].
  apply andb_true_iff in H as [Ha H]. constructor; [apply digit_not_space, Ha|apply IH, H].
Qed.

Lemma strip_list_none l :
  Forall (fun ch => is_space ch = false) l ->
  reverse (drop_spaces (reverse (drop_spaces l))) = l.
Proof.
  intros H. rewrite (drop_spaces_none l H), drop_spaces_none, reverse_involutive;
    [reflexivity|]. apply Forall_reverse, H.
Qed.

Lemma digits_value_digits rt ds : forall acc count after_digit,
  all_digits ds = true -> ds <> "" ->
  digits_value rt acc count after_digit (chars_of ds) =
  Some (digits_fold acc ds, count + String.length ds).
Proof.
  induction ds as [|a ds IH]; intros acc count ad H Hn; [contradiction|].
  simpl in H. apply andb_true_iff in H as [Ha H].
  change (chars_of (String a ds)) with (String a "" :: chars_of ds).
  cbn [digits_value]. rewrite (digit_not_underscore a Ha), (digit_value_digit rt a Ha).
  destruct ds as [|b ds].
  - simpl. f_equal. f_equal. lia.
  - rewrite IH by (try exact H; discriminate). simpl. f_equal. f_equal. lia.
Qed.

(** [int] reads back what [str] writes. *)
Lemma py_int_pretty_N rt (x : N) :
  too_many_digits rt (String.length (pretty x)) = false ->
  py_int rt (pretty x) = Some (Z.of_N x).
Proof.
  intros Hl. destruct (pretty_N_digits x) as (Hd & Hn & Hf).
  unfold py_int. rewrite (py_chars_digits _ Hd).
  rewrite (strip_list_none _ (chars_of_digits_not_space _ Hd)).
  assert (Hs : match chars_of (pretty x) with
               | ch :: l' =>
                   if String.eqb ch "-" then (true, l')
                   else if String.eqb ch "+" then (false, l')
                   else (false, chars_of (pretty x))
               | [] => (false, [])
               end = (false, chars_of (pretty x))).
  { destruct (pretty x) as [|a ds]; [reflexivity|].
    simpl in Hd. apply andb_true_iff in Hd as [Ha _]. apply is_digit_cases in Ha.
    change (chars_of (String a ds)) with (String a "" :: chars_of ds).
    repeat (apply elem_of_cons in Ha as [->|Ha]; [reflexivity|]). inversion Ha. }
  rewrite Hs, (digits_value_digits rt _ 0 0 false Hd Hn). simpl Nat.add.
  rewrite Hl, Hf, N.mul_0_l, N.add_0_l. reflexivity.
Qed.

Lemma py_int_pretty rt (z : Z) s :
  py_str_int rt z = Some s -> py_int rt s = Some z.
Proof.
  unfold py_str_int. destruct (too_many_digits rt _) eqn:El; [discriminate|].
  intros H. injection H as <-.
  destruct z as [|p|p].
  - apply (py_int_pretty_N rt 0 El).
  - apply (py_int_pretty_N rt (Npos p) El).
  - change (pretty (Z.neg p)) with ("-" +:+ pretty (Npos p)).
    simpl Z.abs_N in El.
    destruct (pretty_N_digits (Npos p)) as (Hd & Hn & Hf).
    unfold py_int.
    assert (Hc : py_chars ("-" +:+ pretty (N.pos p)) = "-" :: chars_of (pretty (N.pos p))).
    { change ("-" +:+ pretty (N.pos p)) with (String "-" (pretty (N.pos p))).
      cbn [py_chars]. rewrite (py_chars_digits _ Hd).
      destruct (pretty (N.pos p)) as [|a ds]; [contradiction|].
      change (chars_of (String a ds)) with (String a "" :: chars_of ds).
      simpl in Hd. apply andb_true_iff in Hd as [Ha _].
      unfold starts_with_continuation. rewrite (digit_not_continuation a Ha). reflexivity. }
    rewrite Hc, strip_list_none.
    2:{ constructor; [reflexivity|apply chars_of_digits_not_space, Hd]. }
    cbn [String.eqb Ascii.eqb Bool.eqb]. simpl.
    rewrite (digits_value_digits rt _ 0 0 false Hd Hn). simpl Nat.add.
    rewrite El, Hf, N.mul_0_l, N.add_0_l. reflexivity.
Qed.

(** *** Splitting at dots *)

Lemma py_split_dot_nonempty s : py_split_dot s <> [].
Proof.
  destruct s as [|a s]; simpl; [discriminate|].
  destruct (Ascii.eqb a "."); [discriminate|]. destruct (py_split_dot s); discriminate.
Qed.

Lemma py_split_dot_app a s :
  no_dot a = true ->
  py_split_dot (a +:+ s) =
  match py_split_dot s with
  | x :: xs => (a +:+ x) :: xs
  | [] => [a]
  end.
Proof.
  induction a as [|c a IH]; intros H.
  - change ("" +:+ s) with s. destruct (py_split_dot s) eqn:E; [|reflexivity].
    exfalso. eapply py_split_dot_nonempty, E.
  - simpl in H. apply andb_true_iff in H as [Hc H]. apply negb_true_iff in Hc.
    rewrite append_cons. cbn [py_split_dot]. rewrite Hc, (IH H).
    destruct (py_split_dot s); reflexivity.
Qed.

Lemma digits_no_dot ds : all_digits ds = true -> no_dot ds = true.
Proof.
  induction ds as [|a ds IH]; [reflexivity|]. simpl. intros H.
  apply andb_true_iff in H as [Ha H]. rewrite (IH H), andb_true_r.
  apply is_digit_cases in Ha.
  repeat (apply elem_of_cons in Ha as [->|Ha]; [reflexivity|]). inversion Ha.
Qed.

Lemma py_split_dot_digits ds : all_digits ds = true -> py_split_dot ds = [ds].
Proof.
  intros H. rewrite <- (append_nil_r ds) at 1.
  rewrite py_split_dot_app by (apply digits_no_dot, H).
  cbn [py_split_dot]. rewrite append_nil_r. reflexivity.
Qed.

Lemma py_split_dot_dotted t :
  t <> [] -> py_split_dot (dotted t) = map pretty t.
Proof.
  induction t as [|n t IH]; intros Ht; [contradiction|].
  destruct t as [|m t].
  - simpl. apply py_split_dot_digits, pretty_N_digits.
  - change (dotted (n :: m :: t)) with (pretty n +:+ "." +:+ dotted (m :: t)).
    rewrite py_split_dot_app by (apply digits_no_dot, pretty_N_digits).
    change ("." +:+ dotted (m :: t)) with (String "." (dotted (m :: t))).
    cbn [py_split_dot]. rewrite IH by discriminate.
    change (Ascii.eqb "." ".") with true. cbn iota.
    rewrite append_nil_r. reflexivity.
Qed.

(** ** [check_parallel_support] *)

Lemma short_not_too_many rt n :
  n <= 640 -> too_many_digits rt n = false.
Proof.
  intros H. unfold too_many_digits.
  destruct (640 <? n)%nat eqn:E; [apply Nat.ltb_lt in E; lia|apply andb_false_r].
Qed.

Lemma version_supported_dotted rt (t : list N) :
  Forall (fun n => String.length (pretty n) <= 640) t ->
  version_supported rt (dotted t) = tuple_ge (map Z.of_N t) [0; 1; 33]%Z.
Proof.
  intros Ht. unfold version_supported.
  destruct t as [|n t]; [reflexivity|].
  rewrite py_split_dot_dotted by discriminate.
  rewrite (mapM_Some_2 (py_int rt) (map pretty (n :: t)) (map Z.of_N (n :: t)));
    [reflexivity|].
  apply Forall2_fmap, Forall_Forall2_diag.
  eapply Forall_impl; [exact Ht|]. intros x Hx. cbn beta.
  apply py_int_pretty_N, short_not_too_many, Hx.
Qed.

(** X21.  For a version written as natural numbers separated by dots
    (each of at most 640 digits, which no limit of the interpreter
    refuses), [check_parallel_support] is the comparison of the tuple of
    these numbers with [(0, 1, 33)] as Python compares tuples: by the
    first component that differs, a proper prefix being smaller.  So a
    version of three parts is supported exactly from 0.1.33 on, one of
    two parts exactly when it is above 0.1 (["0.1"] itself is not), and
    one of a single part exactly when it is positive. *)
Theorem check_parallel_support_numeric rt get_version :
  (forall t : list N,
     Forall (fun n => String.length (pretty n) <= 640) t ->
     check_parallel_support rt get_version (Some (dotted t)) =
     tuple_ge (map Z.of_N t) [0; 1; 33]%Z) /\
  (forall a b c : Z,
     tuple_ge [a; b; c] [0; 1; 33]%Z = true <->
     (0 < a \/ (a = 0 /\ (1 < b \/ (b = 1 /\ 33 <= c))))%Z) /\
  (forall a b : Z,
     tuple_ge [a; b] [0; 1; 33]%Z = true <-> (0 < a \/ (a = 0 /\ 1 < b))%Z) /\
  (forall a : Z, tuple_ge [a] [0; 1; 33]%Z = true <-> (0 < a)%Z).
Proof.
  split; [intros t Ht; apply version_supported_dotted, Ht|].
  split; [|split].
  - intros a b c. cbn [tuple_ge].
    destruct (a =? 0)%Z eqn:Ea; [apply Z.eqb_eq in Ea|apply Z.eqb_neq in Ea].
    + destruct (b =? 1)%Z eqn:Eb; [apply Z.eqb_eq in Eb|apply Z.eqb_neq in Eb].
      * destruct (c =? 33)%Z eqn:Ec; [apply Z.eqb_eq in Ec; split; [lia|reflexivity]|].
        rewrite Z.ltb_lt. apply Z.eqb_neq in Ec. lia.
      * rewrite Z.ltb_lt. lia.
    + rewrite Z.ltb_lt. lia.
  - intros a b. cbn [tuple_ge].
    destruct (a =? 0)%Z eqn:Ea; [apply Z.eqb_eq in Ea|apply Z.eqb_neq in Ea].
    + destruct (b =? 1)%Z eqn:Eb; [apply Z.eqb_eq in Eb|apply Z.eqb_neq in Eb].
      * split; [discriminate|lia].
      * rewrite Z.ltb_lt. lia.
    + rewrite Z.ltb_lt. lia.
  - intros a. cbn [tuple_ge].
    destruct (a =? 0)%Z eqn:Ea; [apply Z.eqb_eq in Ea|apply Z.eqb_neq in Ea].
    + split; [discriminate|lia].
    + rewrite Z.ltb_lt. lia.
Qed.

Lemma check_parallel_support_numeric_witness :
  Forall (fun n => String.length (pretty n) <= 640) [0; 5; 7]%N /\
  dotted [0; 5; 7]%N = "0.5.7" /\
  check_parallel_support rt0 "未知" (Some (dotted [0; 5; 7]%N)) = true.
Proof.
  assert (H : Forall (fun n => String.length (pretty n) <= 640) [0; 5; 7]%N)
    by (repeat constructor; vm_compute; lia).
  split; [exact H|]. split; [reflexivity|].
  exact (eq_trans (proj1 (check_parallel_support_numeric rt0 "未知") [0; 5; 7]%N H)
           eq_refl).
Defined.

Lemma py_chars_head a s : exists c cs, py_chars (String a s) = String a c :: cs.
Proof.
  cbn [py_chars]. destruct (py_chars s) as [|c cs]; [eauto|].
  destruct (starts_with_continuation c); eauto.
Qed.

Lemma py_chars_cons a s :
  py_chars (String a s) =
  match py_chars s with
  | c :: cs =>
      if starts_with_continuation c then String a c :: cs
      else String a EmptyString :: c :: cs
  | [] => [String a EmptyString]
  end.
Proof. reflexivity. Qed.

Lemma py_chars_digits_app ds a s :
  all_digits ds = true -> is_continuation a = false ->
  py_chars (ds +:+ String a s) = chars_of ds ++ py_chars (String a s).
Proof.
  intros Hd Ha. induction ds as [|b ds IH]; [reflexivity|].
  simpl in Hd. apply andb_true_iff in Hd as [Hb Hd]. specialize (IH Hd).
  rewrite append_cons, (py_chars_cons b), IH.
  change (chars_of (String b ds)) with (String b "" :: chars_of ds).
  destruct ds as [|b' ds].
  - change (chars_of "") with (@nil string). cbn [app].
    destruct (py_chars_head a s) as (c & cs & E). rewrite E.
    unfold starts_with_continuation. rewrite Ha. reflexivity.
  - change (chars_of (String b' ds)) with (String b' "" :: chars_of ds).
    cbn [app]. simpl in Hd. apply andb_true_iff in Hd as [Hb' _].
    unfold starts_with_continuation. rewrite (digit_not_continuation b' Hb'). reflexivity.
Qed.

Lemma dash_not_space c : is_space (String "-" c) = false.
Proof.
  apply bool_decide_eq_false. intros H. unfold whitespace in H. cbn [map] in H.
  repeat (apply elem_of_cons in H as [H|H]; [vm_compute in H; discriminate H|]).
  inversion H.
Qed.

Lemma drop_spaces_stop R x T :
  is_space x = false -> exists R', drop_spaces (R ++ x :: T) = R' ++ x :: T.
Proof.
  intros Hx. induction R as [|r R IH]; simpl.
  - rewrite Hx. exists []. reflexivity.
  - destruct (is_space r); [exact IH|]. exists (r :: R). reflexivity.
Qed.

Lemma drop_spaces_head ch l : is_space ch = false -> drop_spaces (ch :: l) = ch :: l.
Proof. intros H. simpl. rewrite H. reflexivity. Qed.

Lemma digits_value_prefix rt ds : forall acc count after_digit rest,
  all_digits ds = true ->
  digits_value rt acc count after_digit (chars_of ds ++ rest) =
  digits_value rt (digits_fold acc ds) (count + String.length ds)
    (match ds with EmptyString => after_digit | String _ _ => true end) rest.
Proof.
  induction ds as [|a ds IH]; intros acc count ad rest H.
  - simpl. rewrite Nat.add_0_r. reflexivity.
  - simpl in H. apply andb_true_iff in H as [Ha H].
    change (chars_of (String a ds)) with (String a "" :: chars_of ds).
    cbn [app digits_value]. rewrite (digit_not_underscore a Ha), (digit_value_digit rt a Ha).
    rewrite (IH _ _ _ _ H). cbn [digits_fold String.length].
    replace (S count + String.length ds) with (count + S (String.length ds)) by lia.
    destruct ds; reflexivity.
Qed.

(** A numeral followed by a hyphen is not an integer literal. *)
Lemma py_int_digits_dash rt ds y :
  all_digits ds = true -> ds <> "" -> py_int rt (ds +:+ String "-" y) = None.
Proof.
  intros Hd Hn. unfold py_int.
  rewrite (py_chars_digits_app ds "-" y Hd eq_refl).
  destruct (py_chars_head "-" y) as (c & cs & ->).
  assert (Hhead : exists b l, chars_of ds = String b "" :: l /\ is_digit b = true).
  { destruct ds as [|b ds]; [contradiction|]. simpl in Hd.
    apply andb_true_iff in Hd as [Hb _]. exists b, (chars_of ds). auto. }
  destruct Hhead as (b & l & El & Hb).
  assert (E1 : drop_spaces (chars_of ds ++ String "-" c :: cs) =
               chars_of ds ++ String "-" c :: cs).
  { rewrite El. cbn [app]. apply drop_spaces_head, digit_not_space, Hb. }
  rewrite E1, reverse_app, reverse_cons, <- app_assoc. cbn [app].
  destruct (drop_spaces_stop (reverse cs) (String "-" c) (reverse (chars_of ds))
              (dash_not_space c)) as (R' & ->).
  rewrite reverse_app, reverse_cons, reverse_involutive, <- app_assoc. cbn [app].
  set (rest := String "-" c :: reverse R').
  assert (Hs : match chars_of ds ++ rest with
               | ch :: l' =>
                   if String.eqb ch "-" then (true, l')
                   else if String.eqb ch "+" then (false, l')
                   else (false, chars_of ds ++ rest)
               | [] => (false, [])
               end = (false, chars_of ds ++ rest)).
  { rewrite El. cbn [app]. apply is_digit_cases in Hb.
    repeat (apply elem_of_cons in Hb as [->|Hb]; [reflexivity|]). inversion Hb. }
  rewrite Hs. subst rest.
  rewrite (digits_value_prefix rt ds 0 0 false _ Hd).
  cbn [digits_value].
  replace (String.eqb (String "-" c) "_") with false by reflexivity.
  replace (digit_value rt (String "-" c)) with (@None N)
    by (destruct c; reflexivity).
  reflexivity.
Qed.

Lemma version_supported_suffix rt t s :
  t <> [] -> version_supported rt (dotted t +:+ String "-" s) = false.
Proof.
  intros Ht. unfold version_supported.
  assert (H : Exists (fun x => py_int rt x = None)
                (py_split_dot (dotted t +:+ String "-" s))).
  { induction t as [|n t IH]; [contradiction|].
    destruct (pretty_N_digits n) as (Hd & Hn & _).
    destruct t as [|m t].
    - cbn [dotted]. rewrite py_split_dot_app by (apply digits_no_dot, Hd).
      cbn [py_split_dot]. change (Ascii.eqb "-" ".") with false. cbn iota.
      destruct (py_split_dot s) as [|y ys] eqn:Es;
        [exfalso; eapply py_split_dot_nonempty, Es|].
      left. apply py_int_digits_dash; assumption.
    - change (dotted (n :: m :: t)) with (pretty n +:+ "." +:+ dotted (m :: t)).
      rewrite !append_assoc.
      rewrite py_split_dot_app by (apply digits_no_dot, Hd).
      change ("." +:+ dotted (m :: t) +:+ String "-" s)
        with (String "." (dotted (m :: t) +:+ String "-" s)).
      cbn [py_split_dot]. change (Ascii.eqb "." ".") with true. cbn iota.
      right. apply IH. discriminate. }
  apply mapM_None_2 in H. rewrite H. reflexivity.
Qed.

(** X22.  A version that continues after its last number with a hyphen,
    as a pre-release such as 0.5.0-rc1 does, is reported as not
    supporting parallel requests, whatever its numbers are: [int] raises
    on the component that holds the hyphen and the bare [except] answers
    [False]. *)
Theorem check_parallel_support_suffix rt get_version t s :
  t <> [] ->
  check_parallel_support rt get_version (Some (dotted t +:+ "-" +:+ s)) = false.
Proof. intros Ht. apply version_supported_suffix, Ht. Qed.

Lemma check_parallel_support_suffix_witness :
  [0; 5; 0]%N <> [] /\
  dotted [0; 5; 0]%N +:+ "-" +:+ "rc1" = "0.5.0-rc1" /\
  check_parallel_support rt0 "未知" (Some (dotted [0; 5; 0]%N +:+ "-" +:+ "rc1")) = false.
Proof.
  assert (H : [0; 5; 0]%N <> []) by discriminate.
  split; [exact H|]. split; [reflexivity|].
  exact (check_parallel_support_suffix rt0 "未知" [0; 5; 0]%N "rc1" H).
Defined.

(** ** [configure_parallel], [get_current_config] and the settings *)

Lemma pretty_Z_nonempty (z : Z) : pretty z <> "".
Proof.
  destruct z as [|p|p]; [discriminate| |discriminate].
  apply (pretty_N_digits (Npos p)).
Qed.

Lemma py_str_int_short rt z :
  String.length (pretty (Z.abs_N z)) <= 640 -> py_str_int rt z = Some (pretty z).
Proof. intros H. unfold py_str_int. rewrite short_not_too_many by exact H. reflexivity. Qed.

Lemma configure_parallel_then_get_aux rt environ n mm persist persisted systemd :
  String.length (pretty (Z.abs_N n)) <= 640 ->
  String.length (pretty (Z.abs_N (py_or mm n))) <= 640 ->
  get_current_config rt (snd (configure_parallel rt environ n mm persist persisted)) systemd =
  Some (mkParallelConfig true (Some n) (Some (py_or mm n)) "env").
Proof.
  intros Hn Hm. unfold configure_parallel.
  rewrite (py_str_int_short rt n Hn), (py_str_int_short rt _ Hm).
  assert (E : forall r : bool * string,
    get_current_config rt
      (snd (r, <["OLLAMA_MAX_LOADED_MODELS" := pretty (py_or mm n)]>
                  (<["OLLAMA_NUM_PARALLEL" := pretty n]> environ))) systemd =
    Some (mkParallelConfig true (Some n) (Some (py_or mm n)) "env")).
  { intros r. cbn [snd]. unfold get_current_config.
    rewrite lookup_insert_ne by discriminate. rewrite !lookup_insert_eq.
    destruct (String.eqb (pretty n) "") eqn:E0;
      [apply String.eqb_eq in E0; destruct (pretty_Z_nonempty n E0)|].
    cbn [negb].
    rewrite (py_int_pretty rt n _ (py_str_int_short rt n Hn)).
    rewrite (py_int_pretty rt _ _ (py_str_int_short rt _ Hm)). reflexivity. }
  destruct persist; apply E.
Qed.

(** X23.  [get_current_config] reads back what [configure_parallel] has
    just set.  For integers of at most 640 digits, whatever the
    environment held before, whether or not the setting is to be
    persisted and however persisting ends: the configuration is reported
    as enabled, from source ["env"], with [num_parallel] the number
    given and [max_models] the number given, or [num_parallel] when
    that one is [None] or 0. *)
Theorem configure_parallel_then_get rt environ n mm persist persisted systemd :
  String.length (pretty (Z.abs_N n)) <= 640 ->
  String.length (pretty (Z.abs_N (py_or mm n))) <= 640 ->
  get_current_config rt (snd (configure_parallel rt environ n mm persist persisted)) systemd =
  Some (mkParallelConfig true (Some n) (Some (py_or mm n)) "env").
Proof. apply configure_parallel_then_get_aux. Qed.

Lemma configure_parallel_then_get_witness :
  (String.length (pretty (Z.abs_N 4)) <= 640 /\
   String.length (pretty (Z.abs_N (py_or (Some 1%Z) 4))) <= 640) /\
  get_current_config rt0
    (snd (configure_parallel rt0 ∅ 4 (Some 1%Z) false (false, ""))) None =
  Some (mkParallelConfig true (Some 4%Z) (Some 1%Z) "env").
Proof.
  assert (H1 : String.length (pretty (Z.abs_N 4)) <= 640) by (vm_compute; lia).
  assert (H2 : String.length (pretty (Z.abs_N (py_or (Some 1%Z) 4))) <= 640)
    by (vm_compute; lia).
  split; [auto|].
  exact (configure_parallel_then_get rt0 ∅ 4 (Some 1%Z) false (false, "") None H1 H2).
Defined.

(** X24.  The values of the settings dialog survive the round through
    the environment.  Saving [users] and [models] stores
    [max(1, users)] and [max(1, models)]; once the main window has
    passed the stored values to [configure_parallel], a new
    [OllamaConcurrencySettings] built from the client, and likewise a
    dialog that refreshes itself from the client, holds exactly the
    stored values again. *)
Theorem concurrency_settings_round_trip rt environ systemd s users models persist persisted :
  let s1 := save_settings users models s in
  String.length (pretty (Z.abs_N (max_concurrent_users s1))) <= 640 ->
  String.length (pretty (Z.abs_N (max_in_memory_models s1))) <= 640 ->
  let environ' :=
    snd (configure_parallel rt environ (max_concurrent_users s1)
           (Some (max_in_memory_models s1)) persist persisted) in
  max_concurrent_users s1 = Z.max 1 users /\
  max_in_memory_models s1 = Z.max 1 models /\
  new_settings (Some (get_current_config rt environ' systemd)) = s1 /\
  get_latest_settings (get_current_config rt environ' systemd) s = s1.
Proof.
  intros s1 Hu Hm environ'.
  assert (Eu : max_concurrent_users s1 = Z.max 1 users).
  { subst s1. unfold save_settings, set_max_in_memory_models, set_max_concurrent_users.
    cbn. destruct (users <? 1)%Z eqn:E; [apply Z.ltb_lt in E|apply Z.ltb_ge in E]; lia. }
  assert (Em : max_in_memory_models s1 = Z.max 1 models).
  { subst s1. unfold save_settings, set_max_in_memory_models, set_max_concurrent_users.
    cbn. destruct (models <? 1)%Z eqn:E; [apply Z.ltb_lt in E|apply Z.ltb_ge in E]; lia. }
  clearbody s1.
  assert (Eo : py_or (Some (max_in_memory_models s1)) (max_concurrent_users s1) =
               max_in_memory_models s1).
  { unfold py_or. destruct (max_in_memory_models s1 =? 0)%Z eqn:E; [|reflexivity].
    apply Z.eqb_eq in E. lia. }
  assert (Eg : get_current_config rt environ' systemd =
               Some (mkParallelConfig true (Some (max_concurrent_users s1))
                       (Some (max_in_memory_models s1)) "env")).
  { subst environ'. rewrite configure_parallel_then_get_aux; [rewrite Eo; reflexivity| |];
      rewrite ?Eo; assumption. }
  split; [exact Eu|]. split; [exact Em|]. rewrite Eg.
  assert (Nu : (max_concurrent_users s1 =? 0)%Z = false) by (apply Z.eqb_neq; lia).
  assert (Nm : (max_in_memory_models s1 =? 0)%Z = false) by (apply Z.eqb_neq; lia).
  split.
  - unfold new_settings. cbn. rewrite Nu, Nm. destruct s1; reflexivity.
  - unfold get_latest_settings. cbn. rewrite Nu, Nm.
    unfold set_max_in_memory_models, set_max_concurrent_users. cbn.
    destruct (max_concurrent_users s1 <? 1)%Z eqn:E1; [apply Z.ltb_lt in E1; lia|].
    destruct (max_in_memory_models s1 <? 1)%Z eqn:E2; [apply Z.ltb_lt in E2; lia|].
    destruct s1; reflexivity.
Qed.

Lemma concurrency_settings_round_trip_witness :
  let s1 := save_settings 0 2 (mkConcurrencySettings 3 1) in
  (String.length (pretty (Z.abs_N (max_concurrent_users s1))) <= 640 /\
   String.length (pretty (Z.abs_N (max_in_memory_models s1))) <= 640) /\
  max_concurrent_users s1 = 1%Z /\
  new_settings
    (Some (get_current_config rt0
             (snd (configure_parallel rt0 ∅ (max_concurrent_users s1)
                     (Some (max_in_memory_models s1)) true (false, "")))
             None)) = s1.
Proof.
  intros s1.
  assert (H1 : String.length (pretty (Z.abs_N (max_concurrent_users s1))) <= 640)
    by (vm_compute; lia).
  assert (H2 : String.length (pretty (Z.abs_N (max_in_memory_models s1))) <= 640)
    by (vm_compute; lia).
  split; [auto|].
  destruct (concurrency_settings_round_trip rt0 ∅ None (mkConcurrencySettings 3 1) 0 2
              true (false, "") H1 H2) as (A & _ & B & _).
  split; [exact A|exact B].
Defined.

(** ** [custom_round], [test_model] and the restart of the service *)

(** X25.  [custom_round] rounds a number that is not negative to the
    nearest integer, a half rounding down: the result lies in
    [[x - 1/2, x + 1/2)].  A number that is not positive is cut off
    towards zero instead, so the result lies in [[x, x + 1)]
    (-1.75 gives -1). *)
Theorem custom_round_nearest x :
  ((0 <= x)%Q ->
   (x - (1 # 2) <= inject_Z (custom_round x))%Q /\
   (inject_Z (custom_round x) < x + (1 # 2))%Q) /\
  ((x <= 0)%Q ->
   (x <= inject_Z (custom_round x))%Q /\ (inject_Z (custom_round x) < x + 1)%Q).
Proof.
  destruct x as [n d]. unfold custom_round, py_trunc. cbn [Qnum Qden].
  pose proof (Z.quot_rem' n (Zpos d)) as Hqr.
  set (q := Z.quot n (Zpos d)) in *. set (r := Z.rem n (Zpos d)) in *.
  assert (Hdec : Qgt_bool ((n # d) - inject_Z q) (1 # 2) = (Zpos d <? 2 * r)%Z).
  { destruct (Zpos d <? 2 * r)%Z eqn:E.
    - apply Z.ltb_lt in E. apply Qgt_bool_true.
      unfold Qlt, Qminus, Qplus, Qopp, inject_Z. cbn. nia.
    - apply Z.ltb_ge in E. apply Qgt_bool_false.
      unfold Qle, Qminus, Qplus, Qopp, inject_Z. cbn. nia. }
  rewrite Hdec.
  split; intros Hx; unfold Qle in Hx; cbn in Hx; rewrite Z.mul_1_r in Hx.
  - pose proof (Z.rem_bound_pos n (Zpos d) Hx ltac:(lia)) as Hr. fold r in Hr.
    destruct (Zpos d <? 2 * r)%Z eqn:E;
      [apply Z.ltb_lt in E|apply Z.ltb_ge in E];
      unfold Qle, Qlt, Qminus, Qplus, Qopp, inject_Z; cbn; split; nia.
  - assert (Hr : (- Zpos d < r <= 0)%Z).
    { apply Z.rem_bound_pos_neg; [lia|]. rewrite Z.mul_0_l in Hx. exact Hx. }
    destruct (Zpos d <? 2 * r)%Z eqn:E; [apply Z.ltb_lt in E; lia|].
    unfold Qle, Qlt, Qplus, inject_Z. cbn. split; nia.
Qed.

Lemma custom_round_nearest_witness :
  ((0 <= 5 # 2)%Q /\ (- (7 # 4) <= 0)%Q) /\
  ((5 # 2) - (1 # 2) <= inject_Z (custom_round (5 # 2)))%Q /\
  (inject_Z (custom_round (- (7 # 4))) < - (7 # 4) + 1)%Q.
Proof.
  assert (H1 : (0 <= 5 # 2)%Q) by (unfold Qle; simpl; lia).
  assert (H2 : (- (7 # 4) <= 0)%Q) by (unfold Qle; simpl; lia).
  split; [auto|].
  split; [exact (proj1 (proj1 (custom_round_nearest (5 # 2)) H1))
         |exact (proj2 (proj2 (custom_round_nearest (- (7 # 4))) H2))].
Defined.

(** X26.  [test_model] stops at the first attempt whose reply holds
    "pong": it returns [True] with the time of that attempt, having made
    no further attempt and having slept once between any two attempts.
    When none of the five attempts succeeds it returns [(False, 0.0)]
    after five attempts and four sleeps.  It never makes more than five
    attempts and never sleeps after the last one. *)
Theorem test_model_spec outcome :
  let r := test_model outcome in
  (forall i t,
     i < max_retries -> attempt_succeeds (outcome i) = Some t ->
     (forall j, j < i -> attempt_succeeds (outcome j) = None) ->
     r = mkModelTest true t (S i) i) /\
  ((forall i, i < max_retries -> attempt_succeeds (outcome i) = None) ->
   r = mkModelTest false 0 max_retries (max_retries - 1)) /\
  mt_attempts r <= max_retries /\ mt_sleeps r = mt_attempts r - 1 /\
  (mt_success r = false -> mt_response_time r = 0%Q).
Proof.
  intros r. subst r. unfold test_model, max_retries. cbn [test_model_from].
  split; [|split].
  - intros i t Hi Hs Hbefore.
    assert (H0 : forall j, j < i -> attempt_succeeds (outcome j) = None) by exact Hbefore.
    destruct i as [|[|[|[|[|i]]]]]; try lia;
      repeat match goal with
             | |- context [attempt_succeeds (outcome ?j)] =>
                 first [rewrite Hs | rewrite (H0 j) by lia]
             end; reflexivity.
  - intros Hn. rewrite !Hn by (unfold max_retries; lia). reflexivity.
  - destruct (attempt_succeeds (outcome 0)); [cbn; repeat split; try lia; discriminate|].
    destruct (attempt_succeeds (outcome 1)); [cbn; repeat split; try lia; discriminate|].
    destruct (attempt_succeeds (outcome 2)); [cbn; repeat split; try lia; discriminate|].
    destruct (attempt_succeeds (outcome 3)); [cbn; repeat split; try lia; discriminate|].
    destruct (attempt_succeeds (outcome 4)); cbn; repeat split; try lia; try discriminate.
Qed.

Lemma test_model_spec_witness :
  let outcome i :=
    if (i =? 2)%nat then
      attempt_reply (reply_dict None (Some (JStr "Pong!")) None None "") (3 # 2)
    else attempt_raised "signal only works in main thread of the main interpreter" in
  (2 < max_retries /\ attempt_succeeds (outcome 2) = Some (3 # 2)%Q /\
   forall j, j < 2 -> attempt_succeeds (outcome j) = None) /\
  test_model outcome = mkModelTest true (3 # 2) 3 2.
Proof.
  intros outcome.
  assert (H1 : 2 < max_retries) by (unfold max_retries; lia).
  assert (H2 : attempt_succeeds (outcome 2) = Some (3 # 2)%Q) by reflexivity.
  assert (H3 : forall j, j < 2 -> attempt_succeeds (outcome j) = None).
  { intros j Hj. destruct j as [|[|j]]; [reflexivity|reflexivity|lia]. }
  split; [auto|].
  exact (proj1 (test_model_spec outcome) 2 (3 # 2)%Q H1 H2 H3).
Defined.

(** *** The restart of the service *)

Lemma ask_consumes o : exists used, o = used ++ snd (ask o) /\ length used <= 1.
Proof.
  destruct o as [|b o]; [exists []|exists [b]]; simpl; split; auto.
Qed.

Lemma wait_stopped_consumes n : forall o,
  exists used, o = used ++ wait_stopped n o /\ length used <= S n.
Proof.
  induction n as [|n IH]; intros o.
  - destruct o as [|b o]; [exists []|exists [b]]; simpl; split; auto.
  - destruct o as [|b o].
    + simpl. destruct (IH []) as (used & E & Hl). exists []. simpl. split; [|lia].
      destruct n; reflexivity.
    + simpl. destruct b.
      * destruct (IH o) as (used & E & Hl). exists (true :: used). simpl.
        split; [congruence|lia].
      * exists [false]. simpl. split; [reflexivity|lia].
Qed.

Lemma start_loop_consumes n : forall o,
  exists used, o = used ++ snd (start_loop n o) /\ length used <= S (2 * n).
Proof.
  induction n as [|n IH]; intros o.
  - destruct o as [|b o]; [exists []|exists [b]]; simpl; split; auto.
  - destruct o as [|b o].
    + simpl. destruct (IH []) as (used & E & Hl).
      destruct used; [|discriminate]. simpl in E.
      exists []. simpl. destruct (start_loop n []) as [ok o']. simpl in *.
      split; [congruence|lia].
    + simpl. destruct b; [exists [true]; simpl; split; [reflexivity|lia]|].
      destruct o as [|b2 o].
      * simpl. destruct (IH []) as (used & E & Hl).
        destruct used; [|discriminate]. simpl in E.
        exists [false]. simpl. destruct (start_loop n []) as [ok o']. simpl in *.
        split; [congruence|lia].
      * simpl. destruct b2; [exists [false; true]; simpl; split; [reflexivity|lia]|].
        destruct (IH o) as (used & E & Hl).
        exists (false :: false :: used). destruct (start_loop n o) as [ok o']. simpl in *.
        split; [congruence|lia].
Qed.

(** X27.  [config_restart_ollama_service] asks the service controller
    at most 13 times ([is_running], [stop_service], [start_service]) and
    uses its answers in order, so neither of its loops runs on.  When
    it reports success the message is the fixed text of a successful
    start, and the configuration, if one was asked for, had
    succeeded. *)
Theorem config_restart_ollama_service_spec env num_users o :
  let '(ok, message, o') := config_restart_ollama_service env num_users o in
  (exists used, o = used ++ o' /\ length used <= 13) /\
  (ok = true ->
   message = "Ollama服务已成功启动" /\
   forall n, num_users = Some n -> fst (env_configure_parallel env n) = true).
Proof.
  unfold config_restart_ollama_service.
  destruct (match num_users with
            | Some n => env_configure_parallel env n
            | None => (true, "")
            end) as [success1 message] eqn:Ec.
  destruct (ask_consumes o) as (u1 & E1 & L1).
  destruct (ask o) as [running o1]. cbn [snd] in E1.
  set (o2 := if running then snd (ask o1) else o1).
  assert (H2 : exists u2, o1 = u2 ++ o2 /\ length u2 <= 1).
  { subst o2. destruct running; [apply ask_consumes|]. exists []. split; [reflexivity|simpl; lia]. }
  destruct H2 as (u2 & E2 & L2).
  destruct (wait_stopped_consumes 3 o2) as (u3 & E3 & L3).
  destruct (start_loop_consumes 3 (wait_stopped 3 o2)) as (u4 & E4 & L4).
  destruct (start_loop 3 (wait_stopped 3 o2)) as [success2 o4]. cbn [snd] in E4.
  split.
  - exists (u1 ++ u2 ++ u3 ++ u4). split.
    + rewrite E1, E2, E3 at 1. rewrite E4 at 1. rewrite <- !app_assoc. reflexivity.
    + rewrite !length_app. lia.
  - intros Hok. apply andb_true_iff in Hok as [-> ->]. split; [reflexivity|].
    intros n ->. rewrite Ec. reflexivity.
Qed.
